(** * Molecule: spec interpretation and step execution engine

  A shallow embedding of [molecule/handlers.py] (the step [Runner]) and of
  [molecule/settings.py] (the macro [SpecPreprocessor] and the
  [SpecParser]), together with the properties of these two modules.

  Layout: the Python primitives the sources use ([Py]), the embedding of
  the two modules ([handlers], [settings]) each followed by the vocabulary
  and the example inputs of its properties, then the properties: the step
  Runner, strings, the macro preprocessor, the generic line set, the scan
  of the parser, accumulation, validation, imports.

  Conventions. A call that can raise has type [outcome]; code that loops
  over a list is a fold that stops at the first exception. A dictionary is
  a [gmap] with string keys. Text is made of characters with code points
  below 256. Logging through [self._output] is left out. *)

From Stdlib Require Import ZArith Ascii String List Lia Bool.
From stdpp Require Import gmap strings.

Import ListNotations.
Local Open Scope Z_scope.

(* ===================================================================== *)
(** * Python primitives *)
(* ===================================================================== *)

Module Py.

(** Exceptions raised by, or travelling through, the modelled code. *)
Inductive exn : Type :=
| PreprocessorError (msg : string)   (* SpecPreprocessor.PreprocessorError *)
| SpecFileError (msg : string)       (* molecule.exception.SpecFileError *)
| RuntimeError (msg : string)        (* includes RecursionError *)
| AttributeError (msg : string)
| KeyError (msg : string)
| IndexError
| ValueError
| TypeError
| IOError
| NotImplementedError
| KeyboardInterrupt.

(** The result of a call: a returned value or a raised exception. *)
Inductive outcome (A : Type) : Type :=
| Returns (a : A)
| Raises (e : exn).
Arguments Returns {A} a.
Arguments Raises {A} e.

Definition bind {A B} (m : outcome A) (k : A -> outcome B) : outcome B :=
  match m with
  | Returns a => k a
  | Raises e => Raises e
  end.

(** [for x in xs: acc = body(acc, x)], stopping at the first exception. *)
Fixpoint for_each {A S} (body : S -> A -> outcome S) (xs : list A) (acc : S)
  : outcome S :=
  match xs with
  | [] => Returns acc
  | x :: rest => bind (body acc x) (for_each body rest)
  end.

Declare Scope py_scope.
Delimit Scope py_scope with py.
Notation "x <- m ;; k" := (bind m (fun x => k))
  (at level 100, m at next level, right associativity) : py_scope.
Notation "m ;; k" := (bind m (fun _ => k))
  (at level 100, right associativity) : py_scope.

(** [[f(x) for x in xs]], stopping at the first exception. *)
Fixpoint map_outcome {A B} (f : A -> outcome B) (xs : list A)
  : outcome (list B) :=
  match xs with
  | [] => Returns []
  | x :: rest =>
      bind (f x) (fun y => bind (map_outcome f rest) (fun ys => Returns (y :: ys)))
  end.

(** Truth value of an integer, as in [if rc:]. *)
Definition truthy (rc : Z) : bool := negb (rc =? 0).

(** ** Strings

    A character is a code point below 256; [isspace] is [str.isspace] on
    that range (the characters removed by [strip()] without argument). *)
Definition isspace (c : ascii) : bool :=
  let n := nat_of_ascii c in
  (Nat.leb 9 n && Nat.leb n 13) || (Nat.leb 28 n && Nat.leb n 32)
  || Nat.eqb n 133 || Nat.eqb n 160.

Definition NL : ascii := ascii_of_nat 10.

Fixpoint lstrip (s : string) : string :=
  match s with
  | EmptyString => EmptyString
  | String c s' => if isspace c then lstrip s' else s
  end.

Fixpoint rstrip (s : string) : string :=
  match s with
  | EmptyString => EmptyString
  | String c s' =>
      match rstrip s' with
      | EmptyString => if isspace c then EmptyString else String c EmptyString
      | r => String c r
      end
  end.

Definition strip (s : string) : string := lstrip (rstrip s).

(** [s.rstrip(ch)] for a single character [ch]. *)
Fixpoint rstrip_char (ch : ascii) (s : string) : string :=
  match s with
  | EmptyString => EmptyString
  | String c s' =>
      match rstrip_char ch s' with
      | EmptyString => if Ascii.eqb c ch then EmptyString else String c EmptyString
      | r => String c r
      end
  end.

(** [s.partition(sep)] on a one-character separator: the text before and
    after the first occurrence, [None] when [sep] does not occur. *)
Fixpoint partition (sep : ascii) (s : string) : option (string * string) :=
  match s with
  | EmptyString => None
  | String c s' =>
      if Ascii.eqb c sep then Some (EmptyString, s')
      else match partition sep s' with
           | Some (a, b) => Some (String c a, b)
           | None => None
           end
  end.

(** The same around the last occurrence. *)
Fixpoint rpartition (sep : ascii) (s : string) : option (string * string) :=
  match s with
  | EmptyString => None
  | String c s' =>
      match rpartition sep s' with
      | Some (a, b) => Some (String c a, b)
      | None => if Ascii.eqb c sep then Some (EmptyString, s') else None
      end
  end.

(** [s.split(sep, 1)]. *)
Definition split1 (sep : ascii) (s : string) : list string :=
  match partition sep s with
  | Some (a, b) => [a; b]
  | None => [s]
  end.

(** [s.split(sep)]. *)
Fixpoint split (sep : ascii) (s : string) : list string :=
  match s with
  | EmptyString => [EmptyString]
  | String c s' =>
      if Ascii.eqb c sep then EmptyString :: split sep s'
      else match split sep s' with
           | hd :: tl => String c hd :: tl
           | [] => [String c EmptyString]
           end
  end.

(** [s.rsplit(sep, 1)[0]]. *)
Definition rsplit1_head (sep : ascii) (s : string) : string :=
  match rpartition sep s with
  | Some (a, _) => a
  | None => s
  end.

(** [ch in s]. *)
Fixpoint occurs (ch : ascii) (s : string) : bool :=
  match s with
  | EmptyString => false
  | String c s' => Ascii.eqb c ch || occurs ch s'
  end.

(** [sep.join(xs)]. *)
Definition join (sep : string) (xs : list string) : string :=
  String.concat sep xs.

Definition startswith (s pre : string) : bool := String.prefix pre s.

Fixpoint endswith_char (s : string) (ch : ascii) : bool :=
  match s with
  | EmptyString => false
  | String c EmptyString => Ascii.eqb c ch
  | String _ s' => endswith_char s' ch
  end.

Definition is_empty (s : string) : bool :=
  match s with EmptyString => true | _ => false end.

(** [xs[i]], raising [IndexError] out of range. *)
Definition index {A} (xs : list A) (i : nat) : outcome A :=
  match nth_error xs i with
  | Some x => Returns x
  | None => Raises IndexError
  end.

(** ** [os.path] (posixpath) *)

Definition sep : ascii := "/"%char.

Fixpoint all_sep (s : string) : bool :=
  match s with
  | EmptyString => true
  | String c s' => Ascii.eqb c sep && all_sep s'
  end.

Definition dirname (p : string) : string :=
  let head := match rpartition sep p with
              | Some (a, _) => a +:+ String sep EmptyString
              | None => EmptyString
              end in
  if negb (is_empty head) && negb (all_sep head)
  then rstrip_char sep head else head.

(** [os.path.join(a, b)] with two arguments. *)
Definition path_join (a b : string) : string :=
  if startswith b (String sep EmptyString) then b
  else if is_empty a || endswith_char a sep then a +:+ b
  else a +:+ String sep EmptyString +:+ b.

End Py.

Import Py.

(* ===================================================================== *)
(** * molecule/handlers.py: the step Runner *)
(* ===================================================================== *)

Module handlers.

(** The four status-returning hooks of an execution step. *)
Inductive hook : Type := Setup | PreRun | Run | PostRun.

(** A step class of [execution_order], described by what its constructor
    and hooks do when the Runner calls them: return a status code or raise.
    The Runner never looks inside a step; its control flow depends on these
    outcomes only. [kill] is given the [success] flag it is called with. *)
Record GenericExecutionStep : Type := {
  init : outcome unit;            (* myclass(self.spec_path, self.metadata) *)
  setup : outcome Z;
  pre_run : outcome Z;
  run : outcome Z;
  post_run : outcome Z;
  kill : bool -> outcome Z
}.

Definition hook_outcome (my : GenericExecutionStep) (h : hook) : outcome Z :=
  match h with
  | Setup => setup my
  | PreRun => pre_run my
  | Run => run my
  | PostRun => post_run my
  end.

(** What the Runner does to its steps, in the order it does it. A step
    instance is named by the value of [count] at its creation. *)
Inductive event : Type :=
| Instantiated (count : nat)
| Called (count : nat) (h : hook)
| Killed (count : nat) (success : bool).

(** Computations of the Runner: an outcome and the events performed. *)
Definition M (A : Type) : Type := (outcome A * list event)%type.

Definition ret {A} (a : A) : M A := (Returns a, []).
Definition raise {A} (e : exn) : M A := (Raises e, []).
Definition emit (ev : event) : M unit := (Returns tt, [ev]).
Definition lift {A} (o : outcome A) : M A := (o, []).

Definition mbind {A B} (m : M A) (k : A -> M B) : M B :=
  match m with
  | (Returns a, tr) => let '(o, tr') := k a in (o, tr ++ tr')
  | (Raises e, tr) => (Raises e, tr)
  end.

(** [try: body except: handler(e)] with a bare [except]. *)
Definition try_except {A} (body : M A) (handler : exn -> M A) : M A :=
  match body with
  | (Returns a, tr) => (Returns a, tr)
  | (Raises e, tr) => let '(o, tr') := handler e in (o, tr ++ tr')
  end.

Declare Scope runner_scope.
Delimit Scope runner_scope with runner.
Notation "x <- m ;; k" := (mbind m (fun x => k))
  (at level 100, m at next level, right associativity) : runner_scope.
Notation "m ;;; k" := (mbind m (fun _ => k))
  (at level 100, right associativity) : runner_scope.
Local Open Scope runner_scope.

Definition instantiate (count : nat) (myclass : GenericExecutionStep)
  : M GenericExecutionStep :=
  lift (init myclass) ;;; emit (Instantiated count) ;;; ret myclass.

Definition call (count : nat) (my : GenericExecutionStep) (h : hook) : M Z :=
  emit (Called count h) ;;; lift (hook_outcome my h).

Definition call_kill (count : nat) (my : GenericExecutionStep) (success : bool)
  : M Z :=
  emit (Killed count success) ;;; lift (kill my success).

(** The body of the [try] block of [Runner.run] (lines 55-72). *)
Definition run_hooks (count : nat) (my : GenericExecutionStep) : M Z :=
  rc <- call count my Setup ;;
  if truthy rc then ret rc else
  rc <- call count my PreRun ;;
  if truthy rc then ret rc else
  rc <- call count my Run ;;
  if truthy rc then ret rc else
  rc <- call count my PostRun ;;
  ret rc.

(** The value of [rc] when the [try] block of a step is left, or the
    exception that leaves it. *)
Definition step_status (my : GenericExecutionStep) : outcome Z :=
  fst (run_hooks 0 my).

(** The body of the [for] loop up to the teardown (lines 48-77): the
    instance is created, driven through its hooks and killed; the value is
    the step's [rc]. *)
Definition run_step (count : nat) (myclass : GenericExecutionStep) : M Z :=
  my <- instantiate count myclass ;;
  rc <- try_except (run_hooks count my)
          (fun e => call_kill count my false ;;; raise e) ;;
  call_kill count my (rc =? 0) ;;;
  ret rc.

(** The [for myclass in self.execution_order] loop (lines 41-79) followed
    by the final [return 0]; [count] is the loop counter of the source. *)
Fixpoint run_from (count : nat) (execution_order : list GenericExecutionStep)
  : M Z :=
  match execution_order with
  | [] => ret 0
  | myclass :: rest =>
      let count := S count in
      rc <- run_step count myclass ;;
      if truthy rc then ret rc else run_from count rest
  end.

(** [Runner.run] *)
Definition Runner_run (execution_order : list GenericExecutionStep) : M Z :=
  run_from 0 execution_order.

(** An assignment of integer status codes to the hooks of a step, and the
    step that returns them: its constructor and its teardown return too. *)
Record status_codes : Type := {
  code : hook -> Z;
  kill_code : bool -> Z
}.

Definition step_of_codes (c : status_codes) : GenericExecutionStep :=
  {| init := Returns tt;
     setup := Returns (code c Setup);
     pre_run := Returns (code c PreRun);
     run := Returns (code c Run);
     post_run := Returns (code c PostRun);
     kill := fun success => Returns (kill_code c success) |}.

(** ** Vocabulary of the Runner's properties *)

Definition all_hooks : list hook := [Setup; PreRun; Run; PostRun].

Definition hook_index (h : hook) : nat :=
  match h with Setup => 0 | PreRun => 1 | Run => 2 | PostRun => 3 end.

(** The hooks from [setup] up to and including [h]. *)
Definition hooks_through (h : hook) : list hook :=
  firstn (S (hook_index h)) all_hooks.

(** The events of a step that goes through its four hooks, and of a step
    that stops at hook [h] and is torn down as failed. *)
Definition complete_lifecycle (count : nat) : list event :=
  Instantiated count :: map (Called count) all_hooks ++ [Killed count true].

Definition aborted_lifecycle (count : nat) (h : hook) : list event :=
  Instantiated count :: map (Called count) (hooks_through h)
    ++ [Killed count false].

Definition is_kill_of (count : nat) (ev : event) : bool :=
  match ev with
  | Killed c _ => Nat.eqb c count
  | _ => false
  end.

Definition event_count (ev : event) : nat :=
  match ev with
  | Instantiated c | Called c _ | Killed c _ => c
  end.

(** The [success] flag that goes with a step status. *)
Definition success_of (status : outcome Z) : bool :=
  match status with
  | Returns rc => rc =? 0
  | Raises _ => false
  end.

(** The hooks the Runner calls on a step. *)
Definition hooks_called (my : GenericExecutionStep) : list hook :=
  match setup my with
  | Returns Z0 =>
      match pre_run my with
      | Returns Z0 =>
          match run my with
          | Returns Z0 => all_hooks
          | _ => [Setup; PreRun; Run]
          end
      | _ => [Setup; PreRun]
      end
  | _ => [Setup]
  end.

(** ** Example steps *)

(** A step whose hooks all return zero. *)
Definition clean_codes : status_codes :=
  {| code := fun _ => 0; kill_code := fun _ => 0 |}.

(** A step whose [run] hook returns 5. *)
Definition run_fails_codes : status_codes :=
  {| code := fun h => match h with Run => 5 | _ => 0 end;
     kill_code := fun _ => 0 |}.

(** A step whose [run] hook raises. *)
Definition run_faults_step : GenericExecutionStep :=
  {| init := Returns tt;
     setup := Returns 0;
     pre_run := Returns 0;
     run := Raises IOError;
     post_run := Returns 0;
     kill := fun _ => Returns 0 |}.

End handlers.

(* ===================================================================== *)
(** * molecule/settings.py: SpecPreprocessor and SpecParser *)
(* ===================================================================== *)

Module settings.

Local Open Scope py_scope.

(** ** The outside world of the preprocessor *)

(** What the preprocessor asks of its environment:
    - [readlines path] is [Some lines] when [path] is a regular file that
      can be read ([os.path.isfile(path) and os.access(path, os.R_OK)]),
      [lines] being what [readlines()] returns (line ends kept);
    - [shlex_split] is [shlex.split], which raises on unbalanced quotes;
    - [sh_c cmd] runs [$SHELL -c cmd] and gives its exit status and what
      it wrote on its standard output. *)
Record OS : Type := {
  readlines : string -> option (list string);
  shlex_split : string -> outcome (list string);
  sh_c : string -> Z * string
}.

Definition dquote : string := String (ascii_of_nat 34) EmptyString.

(** [molecule.utils.eval_shell_argument]: a non-zero exit status, or
    nothing to read on the non-blocking pipe, raises [AttributeError];
    at most 1024 characters are read. *)
Definition eval_shell_argument (os : OS) (argument : string) : outcome string :=
  let '(exit_st, written) :=
    sh_c os ("printf '%s' " +:+ dquote +:+ argument +:+ dquote) in
  let err := "error while parsing argument: '" +:+ argument +:+ "'" in
  if negb (exit_st =? 0) then Raises (AttributeError err)
  else if is_empty written then Raises (AttributeError err)
  else Returns (String.substring 0 1024 written).

(** ** SpecPreprocessor *)

Definition PREFIX : string := "%".

(** The two built-in expanders, [self._import_expander] and
    [self._env_expander], as stored in [self.__builtin_expanders]. *)
Inductive builtin : Type := ImportExpander | EnvExpander.

Record SpecPreprocessor : Type := {
  expanders : gmap string (string -> outcome string);   (* self.__expanders *)
  builtin_expanders : gmap string builtin;     (* self.__builtin_expanders *)
  _spec_path : string
}.

(** [_add_expander], on the dictionary [obj] it selects. The membership
    test is on [statement], the stored key is [PREFIX + statement]. *)
Definition _add_expander {V} (obj : gmap string V) (statement : string)
    (expander_callback : V) : outcome (gmap string V) :=
  match obj !! statement with
  | Some _ => Raises (KeyError ("expander " +:+ statement +:+ " already provided"))
  | None => Returns (<[PREFIX +:+ statement := expander_callback]> obj)
  end.

Definition _add_builtin_expanders (obj : gmap string builtin)
  : outcome (gmap string builtin) :=
  obj <- _add_expander obj "import" ImportExpander ;;
  _add_expander obj "env" EnvExpander.

(** [SpecPreprocessor.__init__] *)
Definition SpecPreprocessor_init (spec_path : string) : outcome SpecPreprocessor :=
  builtins <- _add_builtin_expanders ∅ ;;
  Returns {| expanders := ∅; builtin_expanders := builtins;
             _spec_path := spec_path |}.

(** [SpecPreprocessor.add_expander] *)
Definition add_expander (self : SpecPreprocessor) (statement : string)
    (expander_callback : string -> outcome string) : outcome SpecPreprocessor :=
  obj <- _add_expander (expanders self) statement expander_callback ;;
  Returns {| expanders := obj; builtin_expanders := builtin_expanders self;
             _spec_path := _spec_path self |}.

Section Preprocessor.

Variable os : OS.
Variable self : SpecPreprocessor.

(** [_import_expander]; [expand] is the recursive call to
    [self._builtin_recursive_expand]. *)
Definition _import_expander (expand : string -> outcome string)
    (line : string) : outcome string :=
  rest <- index (split1 " " line) 1 ;;
  let rest_line := strip rest in
  if is_empty rest_line then Returns line else
  let path :=
    if startswith rest_line (String sep EmptyString)
    then rest_line                                      (* absolute path *)
    else path_join (dirname (_spec_path self)) rest_line in
  match readlines os path with
  | None => Raises (PreprocessorError ("invalid preprocessor line: " +:+ line))
  | Some spec_f =>
      for_each (fun lines line => x <- expand line ;; Returns (lines +:+ x))
               spec_f EmptyString
  end.

(** [_env_expander] *)
Definition _env_expander (expand : string -> outcome string)
    (line : string) : outcome string :=
  tokens <- shlex_split os line ;;
  let split_line := tl tokens in                 (* first element is %env *)
  match split_line with
  | [] => Returns line
  | _ =>
      new_split_line <-
        map_outcome (fun arg =>
          match eval_shell_argument os arg with
          | Raises (AttributeError err) =>
              Raises (PreprocessorError
                ("invalid preprocessor line: '" +:+ line +:+ "', error: "
                 +:+ "AttributeError(" +:+ dquote +:+ err +:+ dquote +:+ ")"))
          | r => r
          end) split_line ;;
      let new_line := join " " new_split_line +:+ String NL EmptyString in
      expand new_line
  end.

Definition call_builtin (b : builtin) : (string -> outcome string) ->
    string -> outcome string :=
  match b with
  | ImportExpander => _import_expander
  | EnvExpander => _env_expander
  end.

(** [_builtin_recursive_expand]. [depth] is the number of nested
    expander calls the interpreter still allows: when it is used up the
    interpreter raises its recursion error, a [RuntimeError], which the
    [except] clause of line 132 turns into a [PreprocessorError]. A line
    that matches no built-in expander needs no depth. *)
Fixpoint _builtin_recursive_expand (depth : nat) (line : string)
  : outcome string :=
  match split1 " " (lstrip line) with
  | [] => Returns line
  | statement :: _ =>
      match builtin_expanders self !! statement with
      | None => Returns line
      | Some expander =>
          match depth with
          | O => Raises (PreprocessorError
                   "invalid preprocessor line: maximum recursion depth exceeded")
          | S depth' =>
              match call_builtin expander (_builtin_recursive_expand depth') line with
              | Raises (RuntimeError err) =>
                  Raises (PreprocessorError ("invalid preprocessor line: " +:+ err))
              | r => r
              end
          end
      end
  end.

(** The second loop of [SpecPreprocessor.parse] (lines 195-201), on one
    line. *)
Definition expand_registered (line : string) : outcome string :=
  match split1 " " line with
  | [] => Returns line
  | statement :: _ =>
      match expanders self !! statement with
      | Some expander => expander line
      | None => Returns line
      end
  end.

(** [SpecPreprocessor.parse] *)
Definition SpecPreprocessor_parse (depth : nat) : outcome (list string) :=
  match readlines os (_spec_path self) with
  | None => Raises IOError
  | Some spec_f =>
      content <- map_outcome (_builtin_recursive_expand depth) spec_f ;;
      final_content <- map_outcome expand_registered content ;;
      Returns (split NL (join "" final_content))
  end.

End Preprocessor.

(** The preprocessor [__init__] builds. *)
Definition new_preprocessor (spec_path : string) : SpecPreprocessor :=
  {| expanders := ∅;
     builtin_expanders := <["%env" := EnvExpander]> (<["%import" := ImportExpander]> ∅);
     _spec_path := spec_path |}.

(** The preprocessors a caller can hold: built by [__init__], then given
    expanders through [add_expander]. *)
Inductive constructed : SpecPreprocessor -> Prop :=
| constructed_init (spec_path : string) (self : SpecPreprocessor) :
    SpecPreprocessor_init spec_path = Returns self ->
    constructed self
| constructed_add (self self' : SpecPreprocessor) (statement : string)
      (expander_callback : string -> outcome string) :
    constructed self ->
    add_expander self statement expander_callback = Returns self' ->
    constructed self'.

(** Every key of an expander dictionary starts with the prefix. *)
Definition keys_prefixed {V} (obj : gmap string V) : Prop :=
  forall k, is_Some (obj !! k) -> startswith k PREFIX = true.

(** [line] is an import directive that names the file [path]: its first
    word, leading whitespace apart, is [%import]; its target is the text
    after its first space, stripped, and is not empty; [path] is the target
    itself when it is absolute, and otherwise the target joined to the
    directory of the spec file the preprocessor was created for. *)
Definition imports (self : SpecPreprocessor) (line path : string) : Prop :=
  exists (tail : list string) (head rest : string),
    split1 " " (lstrip line) = "%import" :: tail /\
    split1 " " line = [head; rest] /\
    strip rest <> EmptyString /\
    path = if startswith (strip rest) (String sep EmptyString)
           then strip rest
           else path_join (dirname (_spec_path self)) (strip rest).

(** Lines without directive. *)
Definition plain (lines : list string) : Prop :=
  Forall (fun line => startswith (lstrip line) PREFIX = false) lines.

(** The lines of a text, as [readlines()] cuts it: each line with its
    line end. *)
Definition text_of (lines : list string) : string := join "" lines.

(** ** SpecParser *)

(** Values of the parsed configuration: what the parsers of a strategy
    return, and the strategy instance stored under ['__plugin__']. *)
#[warnings="-register-all"]
Inductive pyval : Type :=
| VNone
| VBool (b : bool)
| VInt (z : Z)
| VStr (s : string)
| VList (xs : list pyval)
| VPlugin (execution_strategy : string).

(** An entry of [parameters()]: the dict with keys ['parser'] and
    ['verifier']. The verifier is taken with the truth value of what it
    returns. *)
Record check_dict : Type := {
  parser : string -> pyval;
  verifier : pyval -> bool
}.

Record SpecParser : Type := {
  filepath : string;
  _preprocessor : SpecPreprocessor;
  plugin : pyval;                               (* self.__plugin *)
  vital_parameters : list string;
  parameters : gmap string check_dict
}.

(** The characters of a string, as the one-character strings a [for]
    loop over it yields. *)
Fixpoint chars (s : string) : list pyval :=
  match s with
  | EmptyString => []
  | String c s' => VStr (String c EmptyString) :: chars s'
  end.

(** [old += x] for the right operands [parse] uses, a [str] or a [list]:
    [str += str] concatenates, [list += list] and [list += str] extend the
    list, anything else is a [TypeError]. *)
Definition iadd (old x : pyval) : outcome pyval :=
  match old, x with
  | VStr a, VStr b => Returns (VStr (a +:+ b))
  | VList a, VList b => Returns (VList (a ++ b))
  | VList a, VStr b => Returns (VList (a ++ chars b))
  | _, _ => Raises TypeError
  end.

(** [parse_line_statement]: [None] stands for the pair [(None, None)]. *)
Definition parse_line_statement (line_stmt : string) : option (string * string) :=
  match split1 ":" line_stmt with
  | [key; value] => Some (strip key, strip value)
  | _ => None
  end.

(** [_generic_parser], on the lines the preprocessor returned. *)
Definition generic_lines (content : list string) : list string :=
  map (fun x => strip (rsplit1_head "#" (strip x)))
      (List.filter (fun x => negb (startswith x "#") && negb (is_empty (strip x)))
              content).

Section Parser.

Variable os : OS.
Variable self : SpecParser.

Definition _generic_parser (depth : nat) : outcome (list string) :=
  content <- SpecPreprocessor_parse os (_preprocessor self) depth ;;
  Returns (generic_lines content).

(** Lines 257-268 of [parse]: the [(key, value)] pair a line resolves
    to, if any, and the new [old_key]. *)
Definition resolve_line (old_key : option string) (line : string)
  : option (string * string) * option string :=
  let stmt := parse_line_statement line in
  match stmt ≫= (fun kv => parameters self !! kv.1) with
  | Some _ =>
      match stmt with
      | Some (v_key, v_value) => (Some (v_key, v_value), Some v_key)
      | None => (None, old_key)
      end
  | None =>
      match old_key with
      | Some key =>
          let value := strip line in
          if is_empty value then (None, old_key)
          else (Some (key, value), old_key)
      | None => (None, old_key)
      end
  end.

(** Lines 270-284 of [parse]: parser, verifier and accumulation. *)
Definition merge_pair (mydict : gmap string pyval) (key value : string)
  : outcome (gmap string pyval) :=
  match parameters self !! key with
  | None => Returns mydict
  | Some check_dict =>
      let value := parser check_dict value in
      if negb (verifier check_dict value) then Returns mydict
      else match mydict !! key with
           | Some old =>
               match value with
               | VStr s =>
                   v <- iadd old (VStr (" " +:+ s)) ;;
                   Returns (<[key := v]> mydict)
               | VList _ =>
                   v <- iadd old value ;;
                   Returns (<[key := v]> mydict)
               | _ => Returns mydict
               end
           | None => Returns (<[key := value]> mydict)
           end
  end.

(** One iteration of the [for line in data] loop. *)
Definition parse_line (st : gmap string pyval * option string)
    (line : string) : outcome (gmap string pyval * option string) :=
  let '(mydict, old_key) := st in
  match resolve_line old_key line with
  | (Some (key, value), old_key) =>
      mydict <- merge_pair mydict key value ;;
      Returns (mydict, old_key)
  | (None, old_key) => Returns (mydict, old_key)
  end.

(** [validate_parse] *)
Definition validate_parse (mydata : gmap string pyval) : outcome unit :=
  for_each (fun _ param =>
    match mydata !! param with
    | None =>
        Raises (SpecFileError
          ("SpecFileError: '" +:+ filepath self +:+ "' missing or invalid '"
           +:+ param +:+ "' parameter, it's vital. Your specification"
           +:+ " file is incomplete!"))
    | Some _ => Returns tt
    end) (vital_parameters self) tt.

(** [parse], from the generic lines on (lines 252-287). *)
Definition parse_data (data : list string) : outcome (gmap string pyval) :=
  st <- for_each parse_line data (∅, None) ;;
  let mydict := <["__plugin__" := plugin self]> st.1 in
  validate_parse mydict ;;
  Returns mydict.

(** [SpecParser.parse] *)
Definition SpecParser_parse (depth : nat) : outcome (gmap string pyval) :=
  data <- _generic_parser depth ;;
  parse_data data.

End Parser.

(** ** The generic line set as the specification words it

    The text of a line before its first [#] that no backslash precedes (a
    backslash keeps the character after it), stripped; the lines left blank
    by this are removed. *)
Fixpoint before_unescaped_hash (s : string) : string :=
  match s with
  | EmptyString => EmptyString
  | String c s' =>
      if Ascii.eqb c "#" then EmptyString
      else if Ascii.eqb c "\" then
        match s' with
        | EmptyString => String c EmptyString
        | String c' s'' => String c (String c' (before_unescaped_hash s''))
        end
      else String c (before_unescaped_hash s')
  end.

Definition generic_lines_as_claimed (content : list string) : list string :=
  List.filter (fun x => negb (is_empty x))
    (map (fun x => strip (before_unescaped_hash x)) content).

(** ** Vocabulary of the parser's properties *)

(** A line that does not start a key of the schema: however it splits
    around a first colon, the stripped text before the colon is no key of
    [parameters]. *)
Definition no_schema_key (self : SpecParser) (line : string) : Prop :=
  forall key value : string,
    line = key +:+ String ":" value ->
    occurs ":" key = false ->
    parameters self !! strip key = None.

(** The [(key, value)] pairs the scan of [data] resolves, in order. *)
Fixpoint resolved_pairs (self : SpecParser) (old_key : option string)
    (data : list string) : list (string * string) :=
  match data with
  | [] => []
  | line :: rest =>
      match resolve_line self old_key line with
      | (Some kv, old_key') => kv :: resolved_pairs self old_key' rest
      | (None, old_key') => resolved_pairs self old_key' rest
      end
  end.

(** The values accepted for [key] during the scan of [data], in order: the
    parsed values of its resolved pairs that the verifier accepts. *)
Definition accepted_value (self : SpecParser) (key : string)
    (kv : string * string) : list pyval :=
  if String.eqb kv.1 key then
    match parameters self !! key with
    | Some check_dict =>
        if verifier check_dict (parser check_dict kv.2)
        then [parser check_dict kv.2] else []
    | None => []
    end
  else [].

Definition accepted_values (self : SpecParser) (key : string)
    (data : list string) : list pyval :=
  flat_map (accepted_value self key) (resolved_pairs self None data).

(** What the scan leaves under a key whose entry is [cur] once one more
    value is accepted for it, when the accumulation raises no error. *)
Definition accumulated (cur : option pyval) (value : pyval) : option pyval :=
  match cur with
  | None => Some value
  | Some old =>
      match value with
      | VStr s =>
          match iadd old (VStr (" " +:+ s)) with
          | Returns v => Some v
          | Raises _ => cur
          end
      | VList _ =>
          match iadd old value with
          | Returns v => Some v
          | Raises _ => cur
          end
      | _ => cur
      end
  end.

(** The accumulation of the values [vs], in order, onto the entry [cur]
    raises no error. *)
Fixpoint accumulates (cur : option pyval) (vs : list pyval) : Prop :=
  match vs with
  | [] => True
  | value :: later =>
      match cur with
      | None => accumulates (Some value) later
      | Some old =>
          match value with
          | VStr s =>
              match iadd old (VStr (" " +:+ s)) with
              | Returns v => accumulates (Some v) later
              | Raises _ => False
              end
          | VList _ =>
              match iadd old value with
              | Returns v => accumulates (Some v) later
              | Raises _ => False
              end
          | _ => accumulates cur later
          end
      end
  end.

(** A value that is neither a string nor a list. *)
Definition other_type (v : pyval) : Prop :=
  match v with
  | VStr _ | VList _ => False
  | _ => True
  end.

(** Values of one kind: all strings, all lists, or a first value followed
    by values that are neither. *)
Definition homogeneous (vs : list pyval) : Prop :=
  (exists ss, vs = map VStr ss)
  \/ (exists ls, vs = map VList ls)
  \/ match vs with
     | [] => True
     | _ :: later => Forall other_type later
     end.

(** The message of the error [validate_parse] raises for [param]. *)
Definition missing_parameter_message (self : SpecParser) (param : string) : string :=
  "SpecFileError: '" +:+ filepath self +:+ "' missing or invalid '"
  +:+ param +:+ "' parameter, it's vital. Your specification"
  +:+ " file is incomplete!".

(** ** Example inputs *)

Definition nl (s : string) : string := s +:+ String NL EmptyString.

(** An environment made of the given readable files, and no shell. *)
Fixpoint lookup_file (files : list (string * list string)) (path : string)
  : option (list string) :=
  match files with
  | [] => None
  | (p, lines) :: rest => if String.eqb p path then Some lines else lookup_file rest path
  end.

Definition os_of_files (files : list (string * list string)) : OS :=
  {| readlines := lookup_file files;
     shlex_split := fun _ => Raises ValueError;
     sh_c := fun _ => (127, EmptyString) |}.

(** A spec file whose only line is an indented import of a missing file. *)
Definition os_indented_import : OS :=
  os_of_files [("/specs/a.spec", [nl " %import nowhere"])].

(** A chain of imports: the spec file imports [sub/B], which imports [C];
    in the first environment [C] lies beside the spec file, in the second
    beside [B]. *)
Definition os_chain : OS :=
  os_of_files [("/d/A.spec", [nl "a: 1"; nl "%import sub/B"]);
               ("/d/sub/B", [nl "b: 1"; nl "%import C"; nl "b: 2"]);
               ("/d/C", [nl "c: 1"])].

Definition os_chain_nested : OS :=
  os_of_files [("/d/A.spec", [nl "a: 1"; nl "%import sub/B"]);
               ("/d/sub/B", [nl "b: 1"; nl "%import C"; nl "b: 2"]);
               ("/d/sub/C", [nl "c: 1"])].

(** A spec file without directive. *)
Definition os_plain : OS :=
  os_of_files [("/specs/a.spec", [nl "a: 1"; nl "  b # c"; "d: 100%"])].

(** A spec file that gives every vital parameter of [example_parser]
    below, and one that leaves [release] out. *)
Definition os_complete : OS :=
  os_of_files [("/specs/a.spec", [nl "name: a"; nl "release: 1"])].

Definition os_incomplete : OS :=
  os_of_files [("/specs/a.spec", [nl "# a spec"; nl "name: a"])].

(** Schema entries: a string-typed and a list-typed parameter, one whose
    parser casts to an integer (the length of the text), and one whose
    parser gives [None] for every text while its verifier accepts
    anything. *)
Definition string_entry : check_dict :=
  {| parser := VStr; verifier := fun _ => true |}.

Definition list_entry : check_dict :=
  {| parser := fun s => VList [VStr s]; verifier := fun _ => true |}.

Definition integer_entry : check_dict :=
  {| parser := fun s => VInt (Z.of_nat (String.length s)); verifier := fun _ => true |}.

Definition none_entry : check_dict :=
  {| parser := fun _ => VNone; verifier := fun _ => true |}.

Definition example_parser : SpecParser :=
  {| filepath := "/specs/a.spec";
     _preprocessor := new_preprocessor "/specs/a.spec";
     plugin := VPlugin "example";
     vital_parameters := ["name"; "release"];
     parameters := <["name" := string_entry]> (<["packages" := list_entry]>
                   (<["release" := integer_entry]> (<["skip" := none_entry]> ∅))) |}.

End settings.

(* ===================================================================== *)
(** * molecule/settings.py: SpecParser.__init__ *)
(* ===================================================================== *)

Module settings_init.

Import settings.
Local Open Scope py_scope.

(** An instance of a strategy class, by what [SpecParser.__init__] asks of
    it: [vital_parameters()] and [parameters()], each of which returns or
    raises. *)
Record plugin_instance : Type := {
  plugin_vital_parameters : outcome (list string);
  plugin_parameters : outcome (gmap string check_dict)
}.

(** A strategy class of the plugin registry: its constructor, called with
    the path of the spec file, returns an instance or raises. *)
Record plugin_class : Type := {
  plugin_new : string -> outcome plugin_instance
}.

(** [GenericSpec.EXECUTION_STRATEGY_KEY] *)
Definition EXECUTION_STRATEGY_KEY : string := "execution_strategy".

(** [parse_execution_strategy], on the generic lines: [None] when the
    loop ends without [return]. *)
Fixpoint parse_execution_strategy (data : list string) : option string :=
  match data with
  | [] => None
  | line :: rest =>
      if negb (startswith line EXECUTION_STRATEGY_KEY)
      then parse_execution_strategy rest
      else match parse_line_statement line with
           | None => parse_execution_strategy rest
           | Some (key, value) =>
               if negb (String.eqb key EXECUTION_STRATEGY_KEY)
               then parse_execution_strategy rest
               else Some value
           end
  end.

(** [str(x)] of what [parse_execution_strategy] returns. *)
Definition str_of_strategy (execution_strategy : option string) : string :=
  match execution_strategy with
  | Some s => s
  | None => "None"
  end.

(** [SpecParser.__init__]; [spec_plugins] is what
    [PluginFactory.get_spec_plugins()] returned. *)
Definition SpecParser_init (os : OS) (spec_plugins : gmap string plugin_class)
    (file_path : string) (depth : nat) : outcome SpecParser :=
  preprocessor <- SpecPreprocessor_init file_path ;;
  content <- SpecPreprocessor_parse os preprocessor depth ;;
  let execution_strategy := parse_execution_strategy (generic_lines content) in
  match execution_strategy ≫= (fun s => spec_plugins !! s) with
  | None =>
      Raises (SpecFileError
        ("Execution strategy provided in " +:+ file_path +:+ " spec file"
         +:+ " not supported, strategy: " +:+ str_of_strategy execution_strategy))
  | Some plugin_cls =>
      instance <- plugin_new plugin_cls file_path ;;
      vital <- plugin_vital_parameters instance ;;
      params <- plugin_parameters instance ;;
      Returns {| filepath := file_path;
                 _preprocessor := preprocessor;
                 plugin := VPlugin (str_of_strategy execution_strategy);
                 vital_parameters := vital;
                 parameters := params |}
  end.

(** A generic line that gives the execution strategy: it starts with the
    key and its statement has exactly the key. *)
Definition strategy_line (line : string) : option string :=
  if startswith line EXECUTION_STRATEGY_KEY then
    match parse_line_statement line with
    | Some (key, value) =>
        if String.eqb key EXECUTION_STRATEGY_KEY then Some value else None
    | None => None
    end
  else None.

(** A string of whitespace only. *)
Fixpoint all_space (s : string) : bool :=
  match s with
  | EmptyString => true
  | String c s' => isspace c && all_space s'
  end.

(** [line] states the execution strategy [value]: it is the key, then
    whitespace only, then a colon, and [value] is the stripped text after
    that colon. *)
Definition strategy_statement (line value : string) : Prop :=
  exists ws rest,
    line = EXECUTION_STRATEGY_KEY +:+ ws +:+ String ":" rest /\
    all_space ws = true /\ value = strip rest.

(** The message of the [SpecFileError] of [__init__]. *)
Definition unsupported_strategy_message (file_path : string)
    (execution_strategy : option string) : string :=
  "Execution strategy provided in " +:+ file_path +:+ " spec file"
  +:+ " not supported, strategy: " +:+ str_of_strategy execution_strategy.

(** A registry with one strategy, and spec files for it. *)
Definition example_instance : plugin_instance :=
  {| plugin_vital_parameters := Returns (vital_parameters example_parser);
     plugin_parameters := Returns (parameters example_parser) |}.

Definition example_plugins : gmap string plugin_class :=
  <["example" := {| plugin_new := fun _ => Returns example_instance |}]>
    (<["broken" := {| plugin_new := fun _ => Raises NotImplementedError |}]> ∅).

Definition os_strategy : OS :=
  os_of_files [("/specs/a.spec",
                [nl "# image"; nl "execution_strategy_note: x";
                 nl "execution_strategy: example"; nl "name: a";
                 nl "execution_strategy: other"])].

Definition os_unknown_strategy : OS :=
  os_of_files [("/specs/a.spec", [nl "execution_strategy: livecd"; nl "name: a"])].

End settings_init.

(* ===================================================================== *)
(** * molecule/settings.py: vocabulary and examples for the preprocessor *)
(* ===================================================================== *)

Module settings_more.

Import settings.

(** A line that is no built-in directive: its first word, leading
    whitespace apart, is neither [%import] nor [%env]. *)
Definition not_builtin (line : string) : Prop :=
  forall tail : list string,
    split1 " " (lstrip line) <> "%import" :: tail /\
    split1 " " (lstrip line) <> "%env" :: tail.

(** [line] is an import directive line with the target [target]: the
    directive [%import], a space and then text whose stripped form is
    [target], not empty; before the directive there is nothing but
    whitespace that holds no space character. *)
Definition import_line (line target : string) : Prop :=
  exists ws rest : string,
    line = ws +:+ "%import " +:+ rest /\
    settings_init.all_space ws = true /\ occurs " " ws = false /\
    target = strip rest /\ target <> EmptyString.

(** The file an import of [target] reads: the target itself when it is
    absolute, and otherwise the target joined to the directory of the spec
    file the preprocessor was created for. *)
Definition import_path (self : SpecPreprocessor) (target : string) : string :=
  if startswith target (String sep EmptyString) then target
  else path_join (dirname (_spec_path self)) target.

(** A spec file whose import directive stands after a space, beside a
    readable file [x]. *)
Definition os_spaced_import : OS :=
  os_of_files [("/d/A.spec", [nl " %import x"]); ("/d/x", [nl "x: 1"])].

(** An expander registered by a caller, whose output is itself an import
    directive, and a preprocessor that holds it under [%foo]. *)
Definition foo_expander : string -> outcome string :=
  fun _ => Returns (nl "%import x").

Definition preprocessor_foo : SpecPreprocessor :=
  {| expanders := <["%foo" := foo_expander]> ∅;
     builtin_expanders := builtin_expanders (new_preprocessor "/specs/a.spec");
     _spec_path := "/specs/a.spec" |}.

Definition os_foo : OS :=
  os_of_files [("/specs/a.spec", [nl "%foo a"; nl "b: 1"])].

(** Two files that import each other. *)
Definition os_cycle : OS :=
  os_of_files [("/d/A.spec", [nl "a: 1"; nl "%import B"]);
               ("/d/B", [nl "b: 1"; nl "%import A.spec"])].

End settings_more.

(* ===================================================================== *)
(** * molecule/settings.py: SpecParser.parse over callables that may raise *)
(* ===================================================================== *)

Module settings_any.

Import settings.
Local Open Scope py_scope.

(** An entry of [parameters()] whose ['parser'] and ['verifier'] are
    callables of any kind: each returns or raises. The verifier is taken
    with the truth value of what it returns. *)
Record check_callables : Type := {
  parser_call : string -> outcome pyval;
  verifier_call : pyval -> outcome bool
}.

Section ParserAny.

(** [self] gives the file path, the plugin and the vital parameters;
    [callables] is [self.parameters]. *)
Variable self : SpecParser.
Variable callables : gmap string check_callables.

(** Lines 257-268 of [parse]. *)
Definition resolve_line_any (old_key : option string) (line : string)
  : option (string * string) * option string :=
  let stmt := parse_line_statement line in
  match stmt ≫= (fun kv => callables !! kv.1) with
  | Some _ =>
      match stmt with
      | Some (v_key, v_value) => (Some (v_key, v_value), Some v_key)
      | None => (None, old_key)
      end
  | None =>
      match old_key with
      | Some key =>
          let value := strip line in
          if is_empty value then (None, old_key)
          else (Some (key, value), old_key)
      | None => (None, old_key)
      end
  end.

(** Lines 270-284 of [parse]: the parser and the verifier are called with
    no [try] around them. *)
Definition merge_pair_any (mydict : gmap string pyval) (key value : string)
  : outcome (gmap string pyval) :=
  match callables !! key with
  | None => Returns mydict
  | Some check_dict =>
      value <- parser_call check_dict value ;;
      accepted <- verifier_call check_dict value ;;
      if negb accepted then Returns mydict
      else match mydict !! key with
           | Some old =>
               match value with
               | VStr s =>
                   v <- iadd old (VStr (" " +:+ s)) ;;
                   Returns (<[key := v]> mydict)
               | VList _ =>
                   v <- iadd old value ;;
                   Returns (<[key := v]> mydict)
               | _ => Returns mydict
               end
           | None => Returns (<[key := value]> mydict)
           end
  end.

(** One iteration of the [for line in data] loop. *)
Definition parse_line_any (st : gmap string pyval * option string)
    (line : string) : outcome (gmap string pyval * option string) :=
  let '(mydict, old_key) := st in
  match resolve_line_any old_key line with
  | (Some (key, value), old_key) =>
      mydict <- merge_pair_any mydict key value ;;
      Returns (mydict, old_key)
  | (None, old_key) => Returns (mydict, old_key)
  end.

(** [parse], from the generic lines on (lines 252-287). *)
Definition parse_data_any (data : list string) : outcome (gmap string pyval) :=
  st <- for_each parse_line_any data (∅, None) ;;
  let mydict := <["__plugin__" := plugin self]> st.1 in
  validate_parse self mydict ;;
  Returns mydict.

(** [e] is raised by the parser or by the verifier of an entry of the
    schema, called on some text. *)
Definition raised_by_schema (e : exn) : Prop :=
  exists (key : string) (check_dict : check_callables) (text : string),
    callables !! key = Some check_dict /\
    (parser_call check_dict text = Raises e
     \/ exists value, parser_call check_dict text = Returns value /\
                      verifier_call check_dict value = Raises e).

End ParserAny.

(** An entry whose parser and verifier return for every input. *)
Definition returning (check_dict : settings.check_dict) : check_callables :=
  {| parser_call := fun text => Returns (parser check_dict text);
     verifier_call := fun value => Returns (verifier check_dict value) |}.

(** A schema with one parameter, whose parser raises [ValueError] on the
    text [bad], as [_command_splitter] does on an unbalanced quote. *)
Definition splitter_entry : check_callables :=
  {| parser_call := fun text =>
       if String.eqb text "bad" then Raises ValueError
       else Returns (VList [VStr text]);
     verifier_call := fun _ => Returns true |}.

Definition splitter_schema : gmap string check_callables :=
  <["cmd" := splitter_entry]> ∅.

End settings_any.

(* ===================================================================== *)
(** * molecule/specs/skel.py and molecule/utils.py: helpers of the schemas *)
(* ===================================================================== *)

Module utils.

(** What [is_exec_available] and the verifiers of [GenericSpec] ask of
    the system: the environment variables, whether a path is a regular
    file, whether it is one that may be executed
    ([os.path.isfile(path) and os.access(path, os.X_OK)]), and the mode
    [os.stat] gives ([None] when it raises [OSError]). *)
Record Env : Type := {
  getenv : string -> option string;
  isfile : string -> bool;
  is_exec_file : string -> bool;
  st_mode : string -> option Z
}.

(** [is_exec_available] *)
Definition is_exec_available (env : Env) (exec_name : string) : bool :=
  match getenv env "PATH" with
  | None => false
  | Some paths =>
      if is_empty paths then false
      else existsb (fun path => is_exec_file env (path_join path exec_name))
                   (split ":" paths)
  end.

End utils.

Module skel.

Import utils.

(** [GenericSpec._comma_separate] *)
Definition _comma_separate (s : string) : list string :=
  map strip (List.filter (fun x => negb (is_empty (strip x))) (split "," s)).

Definition NUL : ascii := ascii_of_nat 0.

(** [GenericSpec._comma_separate_path] *)
Definition _comma_separate_path (s : string) : list string :=
  map strip
    (List.filter (fun x => negb (is_empty (strip x)) && negb (occurs NUL x))
                 (split "," s)).

(** [GenericSpec._verify_command_arguments] *)
Definition _verify_command_arguments (env : Env) (args : list string) : bool :=
  match args with
  | [] => false
  | arg :: _ => is_exec_available env arg
  end.

(** [stat.S_IXUSR | stat.S_IXGRP | stat.S_IXOTH] *)
Definition S_IXUSR : Z := 64.
Definition S_IXGRP : Z := 8.
Definition S_IXOTH : Z := 1.

(** [GenericSpec._verify_executable_arguments]: [False], or the
    execution bits of the mode of the first argument. *)
Definition _verify_executable_arguments (env : Env) (args : list string)
  : settings.pyval :=
  match args with
  | [] => settings.VBool false
  | exe :: _ =>
      if negb (isfile env exe) then settings.VBool false
      else match st_mode env exe with
           | Some mode =>
               settings.VInt (Z.land mode (Z.lor (Z.lor S_IXUSR S_IXGRP) S_IXOTH))
           | None => settings.VBool false
           end
  end.

(** Truth value of what a verifier returns. *)
Definition truth (v : settings.pyval) : bool :=
  match v with
  | settings.VNone => false
  | settings.VBool b => b
  | settings.VInt z => negb (z =? 0)
  | settings.VStr s => negb (is_empty s)
  | settings.VList xs => match xs with [] => false | _ => true end
  | settings.VPlugin _ => true
  end.

(** An item of a comma-separated list: not empty, without whitespace at
    either end and without comma. *)
Definition item (y : string) : Prop :=
  y <> EmptyString /\ strip y = y /\ occurs "," y = false.

(** A system with a search path of two directories, the second given
    twice around an empty component; [/bin/sh] is an executable file
    (mode 0o100755), [/etc/motd] a file that is not (mode 0o100644). *)
Definition example_env : Env :=
  {| getenv := fun name =>
       if String.eqb name "PATH" then Some "/usr/bin:/bin::/bin" else None;
     isfile := fun p => String.eqb p "/bin/sh" || String.eqb p "/etc/motd";
     is_exec_file := fun p => String.eqb p "/bin/sh";
     st_mode := fun p =>
       if String.eqb p "/bin/sh" then Some 33261
       else if String.eqb p "/etc/motd" then Some 33188
       else None |}.

End skel.

(* ===================================================================== *)
(** * molecule.py: the driver of a batch of spec files *)
(* ===================================================================== *)

Module molecule_py.

Import handlers.

(** How the process ends: [raise SystemExit(code)], or an exception that
    nothing catches. *)
Inductive exit : Type :=
| SystemExit (code : Z)
| Uncaught (e : exn).

(** [Runner(el, molecule_data.get(el))]: the constructor reads
    [metadata['__plugin__'].execution_steps()], which raises [TypeError]
    on the [None] that [get] gives for an unknown path. *)
Definition Runner_init (molecule_data : gmap string (list GenericExecutionStep))
    (el : string) : outcome (list GenericExecutionStep) :=
  match molecule_data !! el with
  | Some execution_order => Returns execution_order
  | None => Raises TypeError
  end.

(** The [for el in molecule_data_order] loop (lines 37-51) and the final
    [raise SystemExit(0)], with the traces of the runs made, in order.
    [Runner.kill] returns 0 and does nothing. *)
Fixpoint main_loop (molecule_data : gmap string (list GenericExecutionStep))
    (molecule_data_order : list string) : exit * list (list event) :=
  match molecule_data_order with
  | [] => (SystemExit 0, [])
  | el :: rest =>
      match Runner_init molecule_data el with
      | Raises e => (Uncaught e, [])
      | Returns execution_order =>
          match Runner_run execution_order with
          | (Raises KeyboardInterrupt, tr) => (SystemExit 1, [tr])
          | (Raises e, tr) => (Uncaught e, [tr])
          | (Returns rc, tr) =>
              if negb (rc =? 0) then (SystemExit rc, [tr])
              else let '(x, trs) := main_loop molecule_data rest in (x, tr :: trs)
          end
      end
  end.

(** The script: [parse_data] is what [molecule.cmdline.parse()] returns. *)
Definition main
    (parse_data : option (gmap string (list GenericExecutionStep) * list string))
  : exit * list (list event) :=
  match parse_data with
  | None => (SystemExit 1, [])
  | Some (molecule_data, molecule_data_order) =>
      match molecule_data_order with
      | [] => (SystemExit 1, [])
      | _ => main_loop molecule_data molecule_data_order
      end
  end.

(** The run of the spec file [el] gives [res] with the trace [tr]. *)
Definition runs (molecule_data : gmap string (list GenericExecutionStep))
    (el : string) (res : outcome Z) (tr : list event) : Prop :=
  exists execution_order,
    molecule_data !! el = Some execution_order /\
    Runner_run execution_order = (res, tr).

(** The calls made on the step instance [count], in order. *)
Definition is_call_of (count : nat) (ev : event) : bool :=
  match ev with
  | Called c _ => Nat.eqb c count
  | _ => false
  end.

(** A step whose constructor raises. *)
Definition init_faults_step : GenericExecutionStep :=
  {| init := Raises IOError;
     setup := Returns 0;
     pre_run := Returns 0;
     run := Returns 0;
     post_run := Returns 0;
     kill := fun _ => Returns 0 |}.

(** Spec files: the first runs clean, the second fails in [run], the
    third raises in [run]. *)
Definition example_batch : gmap string (list GenericExecutionStep) :=
  <["a.spec" := [step_of_codes clean_codes]]>
    (<["b.spec" := [step_of_codes clean_codes; step_of_codes run_fails_codes]]>
       (<["c.spec" := [run_faults_step]]> ∅)).

End molecule_py.

(* ===================================================================== *)
(** * molecule/handlers.py: the Runner over hooks that return any object *)
(* ===================================================================== *)

Module handlers_any.

Import handlers.
Local Open Scope runner_scope.

Section AnyObject.

(** What a hook returns is an object of any kind ([setup] of
    [GenericExecutionStep] returns [None]). [Runner.run] makes two tests on
    it: its truth value, in [if rc:], and its comparison with zero, in
    [rc == 0]. [zero] is the integer [0] of the final [return 0]. *)
Variable object : Type.
Variable truth : object -> bool.
Variable eq_zero : object -> bool.
Variable zero : object.

(** A step class, by what its constructor, its hooks and its [kill] do
    when they are called. *)
Record ExecutionStep : Type := {
  new : outcome unit;
  hook_result : hook -> outcome object;
  teardown : bool -> outcome object
}.

Definition call_any (count : nat) (my : ExecutionStep) (h : hook) : M object :=
  emit (Called count h) ;;; lift (hook_result my h).

Definition kill_any (count : nat) (my : ExecutionStep) (success : bool)
  : M object :=
  emit (Killed count success) ;;; lift (teardown my success).

(** The body of the [try] block (lines 55-72). *)
Definition run_hooks_any (count : nat) (my : ExecutionStep) : M object :=
  rc <- call_any count my Setup ;;
  if truth rc then ret rc else
  rc <- call_any count my PreRun ;;
  if truth rc then ret rc else
  rc <- call_any count my Run ;;
  if truth rc then ret rc else
  rc <- call_any count my PostRun ;;
  ret rc.

(** The body of the [for] loop up to the teardown (lines 48-77). *)
Definition run_step_any (count : nat) (myclass : ExecutionStep) : M object :=
  lift (new myclass) ;;;
  emit (Instantiated count) ;;;
  rc <- try_except (run_hooks_any count myclass)
          (fun e => kill_any count myclass false ;;; raise e) ;;
  kill_any count myclass (eq_zero rc) ;;;
  ret rc.

(** The [for] loop (lines 41-79) and the final [return 0]. *)
Fixpoint run_from_any (count : nat) (execution_order : list ExecutionStep)
  : M object :=
  match execution_order with
  | [] => ret zero
  | myclass :: rest =>
      let count := S count in
      rc <- run_step_any count myclass ;;
      if truth rc then ret rc else run_from_any count rest
  end.

(** [Runner.run] *)
Definition Runner_run_any (execution_order : list ExecutionStep) : M object :=
  run_from_any 0 execution_order.

(** The hook [h] of [my] returns an object whose truth value is false. *)
Definition falsy_result (my : ExecutionStep) (h : hook) : Prop :=
  exists rc, hook_result my h = Returns rc /\ truth rc = false.

(** The [success] flag of the teardown of a step that went through its
    four hooks: whether what [post_run] returned equals zero. *)
Definition kill_flag (my : ExecutionStep) : bool :=
  match hook_result my PostRun with
  | Returns rc => eq_zero rc
  | Raises _ => false
  end.

(** The events of a step that goes through its four hooks. *)
Definition finished_lifecycle (count : nat) (my : ExecutionStep) : list event :=
  Instantiated count :: map (Called count) all_hooks
    ++ [Killed count (kill_flag my)].

End AnyObject.

Arguments new {object} _.
Arguments hook_result {object} _ _.
Arguments teardown {object} _ _.
Arguments kill_flag {object} _ _.
Arguments finished_lifecycle {object} _ _ _.
Arguments falsy_result {object} _ _ _.
Arguments run_hooks_any {object} _ _ _.
Arguments run_step_any {object} _ _ _ _.
Arguments run_from_any {object} _ _ _ _ _.
Arguments Runner_run_any {object} _ _ _ _.

(** A step with integer status codes, as a step of this kind. *)
Definition step_of_int (my : GenericExecutionStep) : ExecutionStep Z :=
  {| new := init my; hook_result := hook_outcome my; teardown := kill my |}.

(** [rc == 0] on the values of the configuration: the integer zero and
    [False] equal zero. *)
Definition py_eq_zero (v : settings.pyval) : bool :=
  match v with
  | settings.VInt z => z =? 0
  | settings.VBool b => negb b
  | _ => false
  end.

(** A step whose hooks all return [None], as the [setup] of
    [GenericExecutionStep] does. *)
Definition none_step : ExecutionStep settings.pyval :=
  {| new := Returns tt;
     hook_result := fun _ => Returns settings.VNone;
     teardown := fun _ => Returns (settings.VInt 0) |}.

End handlers_any.

(* ===================================================================== *)
(** * Properties of the step Runner *)
(* ===================================================================== *)

Section RunnerProperties.

Import handlers.
Local Open Scope runner_scope.

Lemma truthy_false_iff (rc : Z) : truthy rc = false <-> rc = 0.
Proof. unfold truthy. rewrite negb_false_iff. apply Z.eqb_eq. Qed.

Lemma truthy_true_iff (rc : Z) : truthy rc = true <-> rc <> 0.
Proof. unfold truthy. rewrite negb_true_iff. apply Z.eqb_neq. Qed.

(** The hooks of a step: the status and the calls made. *)
Lemma run_hooks_shape (count : nat) (my : GenericExecutionStep) :
  run_hooks count my = (step_status my, map (Called count) (hooks_called my)).
Proof.
  unfold step_status, hooks_called, run_hooks, call.
  destruct my as [i s p r q k]; simpl.
  destruct s as [[| |]|]; simpl; try reflexivity.
  destruct p as [[| |]|]; simpl; try reflexivity.
  destruct r as [[| |]|]; simpl; try reflexivity.
  destruct q as [[| |]|]; simpl; reflexivity.
Qed.

(** One step, from creation to teardown. *)
Lemma run_step_shape (count : nat) (my : GenericExecutionStep) :
  run_step count my =
    match init my with
    | Raises e => (Raises e, [])
    | Returns _ =>
        let success := success_of (step_status my) in
        (match kill my success with
         | Raises e => Raises e
         | Returns _ => step_status my
         end,
         Instantiated count :: map (Called count) (hooks_called my)
           ++ [Killed count success])
    end.
Proof.
  unfold run_step, instantiate. destruct (init my) as [[]|e]; simpl; [|reflexivity].
  rewrite run_hooks_shape. unfold call_kill.
  destruct (step_status my) as [rc|e]; simpl.
  - destruct (kill my (rc =? 0)); simpl; rewrite ?app_nil_r; reflexivity.
  - destruct (kill my false); simpl; rewrite ?app_nil_r; reflexivity.
Qed.

(** One turn of the loop. *)
Lemma run_from_cons (count : nat) (my : GenericExecutionStep)
    (rest : list GenericExecutionStep) :
  run_from count (my :: rest) =
    match run_step (S count) my with
    | (Returns rc, tr) =>
        if truthy rc then (Returns rc, tr)
        else let '(o, tr') := run_from (S count) rest in (o, tr ++ tr')
    | (Raises e, tr) => (Raises e, tr)
    end.
Proof.
  simpl. destruct (run_step (S count) my) as [[rc|e] tr]; simpl; [|reflexivity].
  destruct (truthy rc); simpl; [rewrite app_nil_r|]; reflexivity.
Qed.

Lemma run_step_event_count (count : nat) (my : GenericExecutionStep) (ev : event) :
  In ev (snd (run_step count my)) -> event_count ev = count.
Proof.
  rewrite run_step_shape. destruct (init my); simpl; [|tauto].
  intros [<-|H]; [reflexivity|].
  apply in_app_or in H as [H|[<-|[]]]; [|reflexivity].
  apply in_map_iff in H as (h & <- & _). reflexivity.
Qed.

Lemma run_from_event_count (steps : list GenericExecutionStep) :
  forall (count : nat) (ev : event),
    In ev (snd (run_from count steps)) -> (count < event_count ev)%nat.
Proof.
  induction steps as [|my rest IH]; intros count ev; [simpl; tauto|].
  rewrite run_from_cons.
  pose proof (run_step_event_count (S count) my ev) as Hstep.
  destruct (run_step (S count) my) as [[rc|e] tr]; simpl in *.
  - destruct (truthy rc); simpl.
    + intros H. rewrite (Hstep H). lia.
    + specialize (IH (S count) ev).
      destruct (run_from (S count) rest) as [o tr']; simpl in *.
      intros H. apply in_app_or in H as [H|H].
      * rewrite (Hstep H). lia.
      * specialize (IH H). lia.
  - intros H. rewrite (Hstep H). lia.
Qed.

Lemma filter_kill_called (i count : nat) (hs : list hook) :
  List.filter (is_kill_of i) (map (Called count) hs) = [].
Proof. induction hs; simpl; auto. Qed.

Lemma filter_kill_other (i : nat) (tr : list event) :
  (forall ev, In ev tr -> event_count ev <> i) ->
  List.filter (is_kill_of i) tr = [].
Proof.
  induction tr as [|ev tr IH]; intros H; [reflexivity|]. simpl.
  rewrite IH by (intros; apply H; right; assumption).
  destruct ev as [c|c h|c b]; simpl; try reflexivity.
  destruct (Nat.eqb_spec c i) as [->|]; [|reflexivity].
  exfalso. apply (H (Killed i b)); [left|]; reflexivity.
Qed.

(** The kill events of one step: exactly one, for the step itself. *)
Lemma run_step_kills (count i : nat) (my : GenericExecutionStep) (z : unit) :
  init my = Returns z ->
  List.filter (is_kill_of i) (snd (run_step count my)) =
    if Nat.eqb count i then [Killed count (success_of (step_status my))] else [].
Proof.
  intros Hi. rewrite run_step_shape, Hi. simpl.
  rewrite List.filter_app, filter_kill_called. simpl.
  destruct (Nat.eqb count i); reflexivity.
Qed.

(** What the run as a whole knows of each step that was created: it is
    a step of the list, it was killed once, with the flag of its status,
    and a fault of its hooks ends the run with an exception. *)
Lemma run_from_instantiated (steps : list GenericExecutionStep) :
  forall (count i : nat) (res : outcome Z) (tr : list event),
    run_from count steps = (res, tr) ->
    In (Instantiated i) tr ->
    exists my,
      (count < i)%nat /\
      nth_error steps (i - S count) = Some my /\
      List.filter (is_kill_of i) tr = [Killed i (success_of (step_status my))] /\
      (forall e, step_status my = Raises e ->
         exists e', res = Raises e' /\
                    (forall z, kill my false = Returns z -> e' = e)).
Proof.
  induction steps as [|my rest IH]; intros count i res tr Hrun Hin.
  { simpl in Hrun. injection Hrun as <- <-. destruct Hin. }
  rewrite run_from_cons in Hrun.
  pose proof (run_step_event_count (S count) my) as Hcount.
  pose proof (run_step_kills (S count) i my) as Hkills.
  pose proof (run_step_shape (S count) my) as Hshape.
  destruct (init my) as [z|e0] eqn:Hinit.
  2:{ rewrite Hshape in Hrun. injection Hrun as <- <-. destruct Hin. }
  specialize (Hkills z eq_refl).
  assert (Hhere : forall tr0, snd (run_step (S count) my) = tr0 ->
            In (Instantiated i) tr0 -> i = S count).
  { intros tr0 <- H. exact (Hcount _ H). }
  assert (Hfault : forall e, step_status my = Raises e ->
            exists e', fst (run_step (S count) my) = Raises e' /\
                       (forall z, kill my false = Returns z -> e' = e)).
  { intros e He. rewrite Hshape. simpl. rewrite He. simpl.
    destruct (kill my false) as [z'|e'].
    - exists e. split; [reflexivity|]. reflexivity.
    - exists e'. split; [reflexivity|]. discriminate. }
  assert (Hstop : forall o, fst (run_step (S count) my) = o ->
            tr = snd (run_step (S count) my) -> res = o ->
            exists my0,
              (count < i)%nat /\
              nth_error (my :: rest) (i - S count) = Some my0 /\
              List.filter (is_kill_of i) tr = [Killed i (success_of (step_status my0))] /\
              (forall e, step_status my0 = Raises e ->
                 exists e', res = Raises e' /\
                            (forall z, kill my0 false = Returns z -> e' = e))).
  { intros o Ho Htr Hres. subst tr.
    assert (i = S count) as -> by (eapply Hhere; eauto).
    exists my. rewrite Nat.sub_diag, Hkills, Nat.eqb_refl. simpl.
    repeat split; try lia. intros e He. subst res o. apply Hfault, He. }
  destruct (run_step (S count) my) as [[rc|e] tr1] eqn:Hstep; cbn [fst snd] in *.
  2:{ injection Hrun as <- <-. eapply Hstop; reflexivity. }
  destruct (truthy rc) eqn:Hrc.
  { injection Hrun as <- <-. eapply Hstop; reflexivity. }
  destruct (run_from (S count) rest) as [o tr2] eqn:Hrest.
  injection Hrun as <- <-.
  apply in_app_or in Hin as [Hin|Hin].
  - assert (i = S count) as -> by (eapply Hhere; eauto).
    exists my. rewrite Nat.sub_diag, List.filter_app, Hkills, Nat.eqb_refl. simpl.
    rewrite filter_kill_other.
    2:{ intros ev Hev. pose proof (run_from_event_count rest (S count) ev) as Hlt.
        rewrite Hrest in Hlt. specialize (Hlt Hev). lia. }
    repeat split; try lia.
    intros e He. destruct (Hfault e He) as (e' & Habs & _). discriminate.
  - destruct (IH (S count) i o tr2 Hrest Hin) as (my0 & Hlt & Hnth & Hk & Hf).
    exists my0. repeat split; try lia; auto.
    + replace (i - S count)%nat with (S (i - S (S count))) by lia. exact Hnth.
    + rewrite List.filter_app, Hkills, Hk.
      destruct (Nat.eqb_spec (S count) i); [lia|reflexivity].
Qed.

(** A step that the run reached: its events sit together in the trace,
    after those of the earlier steps and before those of the later ones,
    and the run ends with it unless its [rc] is zero. *)
Lemma run_from_reached (steps : list GenericExecutionStep) :
  forall (count i : nat) (my : GenericExecutionStep) (res : outcome Z)
         (tr : list event) (ev : event),
    run_from count steps = (res, tr) ->
    nth_error steps i = Some my ->
    In ev tr ->
    event_count ev = S (count + i) ->
    exists before after,
      tr = before ++ snd (run_step (S (count + i)) my) ++ after /\
      In ev (snd (run_step (S (count + i)) my)) /\
      (fst (run_step (S (count + i)) my) <> Returns 0 ->
         after = [] /\ res = fst (run_step (S (count + i)) my)).
Proof.
  induction steps as [|my0 rest IH]; intros count i my res tr ev Hrun Hnth Hin Hev.
  { destruct i; discriminate. }
  rewrite run_from_cons in Hrun.
  pose proof (run_step_event_count (S count) my0 ev) as Hcount.
  pose proof (run_from_event_count rest (S count) ev) as Hlater.
  destruct i as [|i]; simpl in Hnth.
  - injection Hnth as ->. rewrite Nat.add_0_r in *.
    destruct (run_step (S count) my) as [[rc|e] tr1]; cbn [fst snd] in *.
    + destruct (truthy rc) eqn:Hrc.
      * injection Hrun as <- <-. exists [], []. rewrite app_nil_r. auto.
      * destruct (run_from (S count) rest) as [o tr2]. injection Hrun as <- <-.
        cbn [snd] in Hlater.
        apply in_app_or in Hin as [Hin|Hin]; [|specialize (Hlater Hin); lia].
        exists [], tr2. split; [reflexivity|]. split; [assumption|].
        intros Hne. apply truthy_false_iff in Hrc. subst rc. now destruct Hne.
    + injection Hrun as <- <-. exists [], []. rewrite app_nil_r. auto.
  - replace (count + S i)%nat with (S count + i)%nat in * by lia.
    destruct (run_step (S count) my0) as [[rc|e] tr1]; cbn [fst snd] in *.
    + destruct (truthy rc) eqn:Hrc.
      * injection Hrun as <- <-. specialize (Hcount Hin). lia.
      * destruct (run_from (S count) rest) as [o tr2] eqn:Hrest.
        injection Hrun as <- <-.
        apply in_app_or in Hin as [Hin|Hin]; [specialize (Hcount Hin); lia|].
        destruct (IH (S count) i my o tr2 ev Hrest Hnth Hin Hev)
          as (before & after & -> & Hin' & Hstop).
        exists (tr1 ++ before), after. rewrite <- app_assoc. auto.
    + injection Hrun as <- <-. specialize (Hcount Hin). lia.
Qed.

(** A hook that raises is the last one called, and decides the status. *)
Lemma hook_fault_last (my : GenericExecutionStep) (h : hook) (e : exn) :
  In h (hooks_called my) ->
  hook_outcome my h = Raises e ->
  step_status my = Raises e /\ exists hs, hooks_called my = hs ++ [h].
Proof.
  unfold step_status, hooks_called, run_hooks, call.
  destruct my as [i s p r q k]; simpl.
  destruct s as [[| |]|]; destruct p as [[| |]|]; destruct r as [[| |]|];
    destruct q as [[| |]|]; simpl;
    intros Hin Hh; repeat (destruct Hin as [<-|Hin]); try destruct Hin;
    simpl in Hh; try discriminate; injection Hh as ->;
    (split; [reflexivity|]);
    first [ exists []; reflexivity | exists [Setup]; reflexivity
          | exists [Setup; PreRun]; reflexivity
          | exists [Setup; PreRun; Run]; reflexivity ].
Qed.

Lemma run_step_codes_zero (count : nat) (c : status_codes) :
  (forall h, code c h = 0) ->
  run_step count (step_of_codes c) = (Returns 0, complete_lifecycle count).
Proof.
  intros Hz. rewrite run_step_shape.
  unfold step_status, hooks_called, run_hooks, call, step_of_codes; simpl.
  rewrite !Hz. reflexivity.
Qed.

Lemma run_step_codes_fail (count : nat) (c : status_codes) (h : hook) :
  (forall h', (hook_index h' < hook_index h)%nat -> code c h' = 0) ->
  code c h <> 0 ->
  run_step count (step_of_codes c) =
    (Returns (code c h), aborted_lifecycle count h).
Proof.
  intros Hz Hnz. rewrite run_step_shape.
  unfold step_status, hooks_called, run_hooks, call, step_of_codes, truthy.
  destruct h; simpl in *.
  - destruct (code c Setup); [now destruct Hnz | reflexivity ..].
  - rewrite (Hz Setup) by (simpl; lia).
    destruct (code c PreRun); [now destruct Hnz | reflexivity ..].
  - rewrite (Hz Setup), (Hz PreRun) by (simpl; lia).
    destruct (code c Run); [now destruct Hnz | reflexivity ..].
  - rewrite (Hz Setup), (Hz PreRun), (Hz Run) by (simpl; lia).
    destruct (code c PostRun); [now destruct Hnz | reflexivity ..].
Qed.

(** A run of steps that all return zero everywhere, before the rest. *)
Lemma run_from_zero_prefix (pre : list status_codes) :
  forall (count : nat) (rest : list status_codes),
    Forall (fun c => forall h, code c h = 0) pre ->
    run_from count (map step_of_codes (pre ++ rest)) =
      let '(o, tr) := run_from (count + length pre) (map step_of_codes rest) in
      (o, flat_map complete_lifecycle (seq (S count) (length pre)) ++ tr).
Proof.
  induction pre as [|c pre IH]; intros count rest Hz.
  - simpl. rewrite Nat.add_0_r. now destruct (run_from count _).
  - inversion Hz as [|? ? Hc Hpre]; subst.
    cbn [app map]. rewrite run_from_cons, run_step_codes_zero by assumption.
    cbn [truthy Z.eqb negb]. rewrite IH by assumption.
    replace (S count + length pre)%nat with (count + length (c :: pre))%nat
      by (simpl; lia).
    destruct (run_from _ (map step_of_codes rest)) as [o tr].
    cbn [length seq flat_map]. now rewrite <- app_assoc.
Qed.

Lemma complete_lifecycle_count (n start : nat) (ev : event) :
  In ev (flat_map complete_lifecycle (seq start n)) ->
  (event_count ev < start + n)%nat.
Proof.
  intros H. apply in_flat_map in H as (c & Hc & Hev).
  apply in_seq in Hc.
  assert (event_count ev = c); [|lia].
  unfold complete_lifecycle in Hev. simpl in Hev.
  repeat (destruct Hev as [<-|Hev]; [reflexivity|]). destruct Hev.
Qed.

Lemma aborted_lifecycle_count (count : nat) (h : hook) (ev : event) :
  In ev (aborted_lifecycle count h) -> event_count ev = count.
Proof.
  unfold aborted_lifecycle. intros [<-|H]; [reflexivity|].
  apply in_app_or in H as [H|[<-|[]]]; [|reflexivity].
  apply in_map_iff in H as (h' & <- & _). reflexivity.
Qed.

(** C1. For every list of steps and every assignment of integer status
    codes to their hooks: when the steps before some step [s] return zero
    from all four hooks and [s] returns its first non-zero code from hook
    [h], the Runner has driven each earlier step through setup, pre_run,
    run, post_run (and its teardown), has called the hooks of [s] in that
    order up to [h] and no further, has instantiated no later step, and
    returns that code; when every step returns zero from all four hooks,
    every step goes through all four hooks and the Runner returns 0. *)
Theorem Runner_run_fail_fast :
  (forall (pre post : list status_codes) (s : status_codes) (h : hook),
      Forall (fun c => forall h', code c h' = 0) pre ->
      (forall h', (hook_index h' < hook_index h)%nat -> code s h' = 0) ->
      code s h <> 0 ->
      Runner_run (map step_of_codes (pre ++ s :: post)) =
        (Returns (code s h),
         flat_map complete_lifecycle (seq 1 (length pre))
           ++ aborted_lifecycle (S (length pre)) h)
      /\ (forall j, (S (length pre) < j)%nat ->
            ~ In (Instantiated j)
                 (snd (Runner_run (map step_of_codes (pre ++ s :: post))))))
  /\
  (forall steps : list status_codes,
      Forall (fun c => forall h', code c h' = 0) steps ->
      Runner_run (map step_of_codes steps) =
        (Returns 0, flat_map complete_lifecycle (seq 1 (length steps)))).
Proof.
  split.
  - intros pre post s h Hpre Hbefore Hcode.
    assert (Heq : Runner_run (map step_of_codes (pre ++ s :: post)) =
              (Returns (code s h),
               flat_map complete_lifecycle (seq 1 (length pre))
                 ++ aborted_lifecycle (S (length pre)) h)).
    { unfold Runner_run. rewrite run_from_zero_prefix by assumption.
      cbn [map Nat.add]. rewrite run_from_cons.
      rewrite (run_step_codes_fail _ s h) by assumption.
      apply truthy_true_iff in Hcode. rewrite Hcode. reflexivity. }
    split; [exact Heq|].
    intros j Hj Hin. rewrite Heq in Hin. cbn [snd] in Hin.
    apply in_app_or in Hin as [Hin|Hin].
    + apply complete_lifecycle_count in Hin. simpl in Hin. lia.
    + apply aborted_lifecycle_count in Hin. simpl in Hin. lia.
  - intros steps Hz. unfold Runner_run.
    rewrite <- (app_nil_r steps) at 1.
    rewrite run_from_zero_prefix by assumption. simpl.
    now rewrite app_nil_r.
Qed.

Lemma Runner_run_fail_fast_witness :
  Runner_run (map step_of_codes ([clean_codes] ++ run_fails_codes :: [clean_codes])) =
    (Returns 5,
     [Instantiated 1; Called 1 Setup; Called 1 PreRun; Called 1 Run;
      Called 1 PostRun; Killed 1 true;
      Instantiated 2; Called 2 Setup; Called 2 PreRun; Called 2 Run;
      Killed 2 false])
  /\ ~ In (Instantiated 3)
        (snd (Runner_run (map step_of_codes
                ([clean_codes] ++ run_fails_codes :: [clean_codes]))))
  /\ Runner_run (map step_of_codes [clean_codes; clean_codes]) =
       (Returns 0,
        [Instantiated 1; Called 1 Setup; Called 1 PreRun; Called 1 Run;
         Called 1 PostRun; Killed 1 true;
         Instantiated 2; Called 2 Setup; Called 2 PreRun; Called 2 Run;
         Called 2 PostRun; Killed 2 true]).
Proof.
  assert (Hclean : forall h', code clean_codes h' = 0) by reflexivity.
  assert (Hbefore : forall h', (hook_index h' < hook_index Run)%nat ->
                      code run_fails_codes h' = 0).
  { intros [] Hlt; simpl in *; try reflexivity; lia. }
  assert (Hcode : code run_fails_codes Run <> 0) by discriminate.
  assert (Hpre : Forall (fun c => forall h', code c h' = 0) [clean_codes])
    by (repeat constructor).
  assert (Hall : Forall (fun c => forall h', code c h' = 0)
                   [clean_codes; clean_codes])
    by (repeat constructor).
  destruct (proj1 Runner_run_fail_fast [clean_codes] [clean_codes]
              run_fails_codes Run Hpre Hbefore Hcode) as [Hrun Hnone].
  split; [exact Hrun|]. split; [apply Hnone; simpl; lia|].
  exact (proj2 Runner_run_fail_fast [clean_codes; clean_codes] Hall).
Defined.

(** C2. When a hook of a step (setup, pre_run, run or post_run) raises,
    the Runner calls the step's [kill] with [success = False] right after
    the faulting call and before the run ends with an exception: the
    trace of the run ends with these two events, and the exception that
    reaches the caller is the hook's own whenever [kill] returns. On the
    paths without fault, [kill] receives [success = True] exactly when the
    step's status code is zero. *)
Theorem Runner_kill_on_fault :
  forall (steps : list GenericExecutionStep) (res : outcome Z) (tr : list event),
    Runner_run steps = (res, tr) ->
    (forall (i : nat) (my : GenericExecutionStep) (h : hook) (e : exn),
        nth_error steps i = Some my ->
        In (Called (S i) h) tr ->
        hook_outcome my h = Raises e ->
        (exists tr0, tr = tr0 ++ [Called (S i) h; Killed (S i) false]) /\
        (exists e', res = Raises e' /\
                    (forall z, kill my false = Returns z -> e' = e)))
    /\
    (forall (i : nat) (my : GenericExecutionStep) (rc : Z) (success : bool),
        nth_error steps i = Some my ->
        In (Killed (S i) success) tr ->
        step_status my = Returns rc ->
        (success = true <-> rc = 0)).
Proof.
  intros steps res tr Hrun. unfold Runner_run in Hrun. split.
  - intros i my h e Hnth Hin Hh.
    destruct (run_from_reached steps 0 i my res tr _ Hrun Hnth Hin eq_refl)
      as (before & after & Htr & Hin' & Hstop).
    cbn [Nat.add] in *. rewrite run_step_shape in Htr, Hin', Hstop.
    destruct (init my) as [z|e0]; [|destruct Hin'].
    cbn [fst snd] in *.
    destruct Hin' as [Hin'|Hin']; [discriminate|].
    apply in_app_or in Hin' as [Hin'|[Hin'|[]]]; [|discriminate].
    apply in_map_iff in Hin' as (h' & Heq & Hcalled).
    injection Heq as ->.
    destruct (hook_fault_last my h e Hcalled Hh) as (Hstatus & hs & Hhs).
    rewrite Hstatus, Hhs in *. cbn [success_of] in *.
    destruct Hstop as [-> ->].
    { destruct (kill my false); discriminate. }
    split.
    + exists (before ++ Instantiated (S i) :: map (Called (S i)) hs).
      rewrite Htr, app_nil_r, map_app. cbn [map].
      rewrite <- !app_assoc. reflexivity.
    + destruct (kill my false) as [z'|e'].
      * exists e. split; [reflexivity|]. reflexivity.
      * exists e'. split; [reflexivity|]. discriminate.
  - intros i my rc success Hnth Hin Hstatus.
    destruct (run_from_reached steps 0 i my res tr _ Hrun Hnth Hin eq_refl)
      as (before & after & _ & Hin' & _).
    cbn [Nat.add] in *. rewrite run_step_shape in Hin'.
    destruct (init my) as [z|e0]; [|destruct Hin'].
    cbn [snd] in Hin'. rewrite Hstatus in Hin'. cbn [success_of] in Hin'.
    destruct Hin' as [Hin'|Hin']; [discriminate|].
    apply in_app_or in Hin' as [Hin'|[Hin'|[]]].
    + apply in_map_iff in Hin' as (h' & Heq & _). discriminate.
    + injection Hin' as <-. apply Z.eqb_eq.
Qed.

Lemma Runner_kill_on_fault_witness :
  (exists tr0,
      snd (Runner_run [step_of_codes clean_codes; run_faults_step]) =
        tr0 ++ [Called 2 Run; Killed 2 false])
  /\ fst (Runner_run [step_of_codes clean_codes; run_faults_step]) = Raises IOError
  /\ In (Killed 1 true) (snd (Runner_run [step_of_codes clean_codes; run_faults_step])).
Proof.
  pose proof (Runner_kill_on_fault
                [step_of_codes clean_codes; run_faults_step] _ _ eq_refl)
    as [Hfault Hflag].
  destruct (Hfault 1%nat run_faults_step Run IOError eq_refl) as [Htr Hres].
  { simpl. tauto. }
  { reflexivity. }
  split; [exact Htr|]. split.
  - destruct Hres as (e' & Hres & He). cbn [fst]. rewrite Hres.
    now rewrite (He 0 eq_refl).
  - assert (Hin : In (Killed 1 true)
              (snd (Runner_run [step_of_codes clean_codes; run_faults_step])))
      by (simpl; tauto).
    pose proof (proj1 (Hflag 0%nat (step_of_codes clean_codes) 0 true
                  eq_refl Hin eq_refl)) as _.
    exact Hin.
Defined.

(** C10. Every step the Runner instantiates has its [kill] invoked exactly
    once in the run, whatever way the run ends: the kill events of the
    instance are a single one. Its flag is [False] when the hooks of the
    step raised, and the run then ends with an exception (the one of the
    hook whenever [kill] returns); it is [status == 0] when the hooks
    returned a status, zero or not. *)
Theorem Runner_kill_exactly_once :
  forall (steps : list GenericExecutionStep) (i : nat) (res : outcome Z)
         (tr : list event),
    Runner_run steps = (res, tr) ->
    In (Instantiated i) tr ->
    exists (my : GenericExecutionStep) (success : bool),
      nth_error steps (i - 1) = Some my /\
      List.filter (is_kill_of i) tr = [Killed i success] /\
      (forall rc, step_status my = Returns rc -> success = (rc =? 0)) /\
      (forall e, step_status my = Raises e ->
         success = false /\
         exists e', res = Raises e' /\
                    (forall z, kill my false = Returns z -> e' = e)).
Proof.
  intros steps i res tr Hrun Hin.
  destruct (run_from_instantiated steps 0 i res tr Hrun Hin)
    as (my & _ & Hnth & Hkill & Hfault).
  exists my, (success_of (step_status my)).
  split; [exact Hnth|]. split; [exact Hkill|]. split.
  - intros rc ->. reflexivity.
  - intros e He. split; [rewrite He; reflexivity|]. apply Hfault, He.
Qed.

Lemma Runner_kill_exactly_once_witness :
  List.filter (is_kill_of 2)
    (snd (Runner_run [step_of_codes clean_codes; run_faults_step]))
  = [Killed 2 false].
Proof.
  destruct (Runner_kill_exactly_once
              [step_of_codes clean_codes; run_faults_step] 2 _ _ eq_refl)
    as (my & success & Hnth & Hkill & _ & Hfault).
  { simpl. tauto. }
  injection Hnth as <-.
  destruct (Hfault IOError eq_refl) as [-> _]. exact Hkill.
Defined.

End RunnerProperties.

(* ===================================================================== *)
(** * Strings *)
(* ===================================================================== *)

Section StringFacts.

Lemma startswith_char (s : string) (c : ascii) :
  startswith s (String c EmptyString) = true <-> exists s', s = String c s'.
Proof.
  unfold startswith. destruct s as [|a s]; simpl.
  - split; [discriminate|]. intros [s' H]. discriminate.
  - destruct (ascii_dec c a) as [->|Hne].
    + destruct s; split; eauto.
    + split; [discriminate|]. intros [s' H]. congruence.
Qed.

(** The first piece of [split(sep, 1)] starts like the string itself. *)
Lemma split1_head_startswith (sep c : ascii) (s statement : string)
    (rest : list string) :
  sep <> c ->
  split1 sep s = statement :: rest ->
  startswith statement (String c EmptyString) = true ->
  startswith s (String c EmptyString) = true.
Proof.
  intros Hsep Hsplit Hst. apply startswith_char in Hst as [t ->].
  apply startswith_char. unfold split1 in Hsplit.
  destruct s as [|a s]; simpl in Hsplit; [discriminate|].
  destruct (Ascii.eqb_spec a sep) as [->|Hne].
  - discriminate.
  - destruct (partition sep s) as [[x y]|]; injection Hsplit as <-; eauto.
Qed.

Lemma lstrip_nonspace (c : ascii) (s : string) :
  isspace c = false -> lstrip (String c s) = String c s.
Proof. intros H. simpl. now rewrite H. Qed.

Lemma startswith_lstrip (s : string) (c : ascii) :
  isspace c = false ->
  startswith s (String c EmptyString) = true ->
  startswith (lstrip s) (String c EmptyString) = true.
Proof.
  intros Hc H. apply startswith_char in H as [s' ->].
  rewrite lstrip_nonspace by assumption. apply startswith_char. eauto.
Qed.

Lemma map_outcome_id {A} (f : A -> outcome A) (xs : list A) :
  Forall (fun x => f x = Returns x) xs -> map_outcome f xs = Returns xs.
Proof.
  induction 1 as [|x xs Hx _ IH]; [reflexivity|].
  simpl. rewrite Hx. simpl. rewrite IH. reflexivity.
Qed.

Lemma string_app_nonempty (a : string) (c : ascii) (b : string) :
  a +:+ String c b <> EmptyString.
Proof. destruct a; discriminate. Qed.

Lemma rstrip_app_nonspace (a : string) (c : ascii) (b : string) :
  isspace c = false ->
  rstrip (a +:+ String c b) = a +:+ String c (rstrip b).
Proof.
  intros Hc. induction a as [|x a IH]; simpl.
  - rewrite Hc. now destruct (rstrip b).
  - rewrite IH. destruct (a +:+ String c (rstrip b)) eqn:E.
    + now apply string_app_nonempty in E.
    + rewrite <- E. reflexivity.
Qed.

Lemma lstrip_app_nonspace (a : string) (c : ascii) (b : string) :
  isspace c = false ->
  lstrip (a +:+ String c b) = lstrip a +:+ String c b.
Proof.
  intros Hc. induction a as [|x a IH]; simpl.
  - now rewrite Hc.
  - destruct (isspace x); [exact IH|reflexivity].
Qed.

Lemma rstrip_idem (s : string) : rstrip (rstrip s) = rstrip s.
Proof.
  induction s as [|c s IH]; [reflexivity|]. simpl.
  destruct (rstrip s) as [|c' r] eqn:E.
  - destruct (isspace c) eqn:Hc; [reflexivity|]. simpl. now rewrite Hc.
  - assert (H : rstrip (String c (String c' r)) =
              match rstrip (String c' r) with
              | EmptyString => if isspace c then EmptyString else String c EmptyString
              | x => String c x
              end) by reflexivity.
    rewrite H, IH. reflexivity.
Qed.

Lemma strip_lstrip (s : string) : strip (lstrip s) = strip s.
Proof.
  unfold strip. induction s as [|c s IH]; [reflexivity|].
  cbn [lstrip]. destruct (isspace c) eqn:Hc; [|reflexivity].
  rewrite IH. cbn [rstrip].
  destruct (rstrip s); cbn [lstrip]; rewrite ?Hc; reflexivity.
Qed.

Lemma strip_idem (s : string) : strip (strip s) = strip s.
Proof.
  unfold strip at 2. rewrite strip_lstrip. unfold strip. now rewrite rstrip_idem.
Qed.

Lemma rpartition_none (c : ascii) (s : string) :
  occurs c s = false -> rpartition c s = None.
Proof.
  induction s as [|x s IH]; [reflexivity|]. simpl.
  intros H. apply orb_false_iff in H as [Hx Hs].
  now rewrite IH, Hx.
Qed.

Lemma rpartition_app (c : ascii) (a b : string) :
  occurs c b = false ->
  rpartition c (a +:+ String c b) = Some (a, b).
Proof.
  intros Hb. induction a as [|x a IH]; simpl.
  - now rewrite rpartition_none, Ascii.eqb_refl.
  - now rewrite IH.
Qed.

Lemma occurs_rstrip (c : ascii) (s : string) :
  occurs c s = false -> occurs c (rstrip s) = false.
Proof.
  induction s as [|x s IH]; [reflexivity|]. simpl.
  intros H. apply orb_false_iff in H as [Hx Hs]. specialize (IH Hs).
  destruct (rstrip s) as [|y r].
  - destruct (isspace x); simpl; [reflexivity|]. now rewrite Hx.
  - simpl in *. now rewrite Hx, IH.
Qed.

Lemma occurs_lstrip (c : ascii) (s : string) :
  occurs c s = false -> occurs c (lstrip s) = false.
Proof.
  induction s as [|x s IH]; [reflexivity|]. simpl.
  intros H. destruct (isspace x); [|exact H].
  apply orb_false_iff in H as [_ Hs]. auto.
Qed.

Lemma is_empty_true (s : string) : is_empty s = true <-> s = EmptyString.
Proof. destruct s; simpl; split; congruence. Qed.

End StringFacts.

(* ===================================================================== *)
(** * Properties of the macro preprocessor *)
(* ===================================================================== *)

Section PreprocessorProperties.

Import settings.

Lemma SpecPreprocessor_init_new (spec_path : string) :
  SpecPreprocessor_init spec_path = Returns (new_preprocessor spec_path).
Proof. reflexivity. Qed.

Lemma _add_expander_prefixed {V} (obj obj' : gmap string V) (statement : string)
    (cb : V) :
  keys_prefixed obj ->
  _add_expander obj statement cb = Returns obj' ->
  keys_prefixed obj'.
Proof.
  unfold _add_expander. intros Hobj Hadd.
  destruct (obj !! statement); [discriminate|]. injection Hadd as <-.
  intros k Hk. destruct (decide (PREFIX +:+ statement = k)) as [<-|Hne].
  - apply startswith_char. exists statement. reflexivity.
  - rewrite lookup_insert_ne in Hk by assumption. apply Hobj, Hk.
Qed.

Lemma constructed_prefixed (self : SpecPreprocessor) :
  constructed self ->
  keys_prefixed (expanders self) /\ keys_prefixed (builtin_expanders self).
Proof.
  induction 1 as [spec_path self Hinit|self self' statement cb _ IH Hadd].
  - rewrite SpecPreprocessor_init_new in Hinit. injection Hinit as <-.
    split; intros k [v Hk]; simpl in Hk.
    + rewrite lookup_empty in Hk. discriminate.
    + destruct (decide ("%env" = k)) as [<-|Hne]; [reflexivity|].
      rewrite lookup_insert_ne in Hk by assumption.
      destruct (decide ("%import" = k)) as [<-|Hne']; [reflexivity|].
      rewrite lookup_insert_ne, lookup_empty in Hk by assumption. discriminate.
  - destruct IH as [IHe IHb]. unfold add_expander in Hadd.
    destruct (_add_expander (expanders self) statement cb) as [obj|] eqn:Hobj;
      [|discriminate].
    injection Hadd as <-. simpl. split; [|exact IHb].
    eapply _add_expander_prefixed; eauto.
Qed.

Lemma lookup_unprefixed {V} (obj : gmap string V) (k : string) :
  keys_prefixed obj -> startswith k PREFIX = false -> obj !! k = None.
Proof.
  intros Hobj Hk. destruct (obj !! k) eqn:E; [|reflexivity].
  rewrite Hobj in Hk by eauto. discriminate.
Qed.

Lemma split1_head_unprefixed (s statement : string) (rest : list string) :
  startswith s PREFIX = false ->
  split1 " " s = statement :: rest ->
  startswith statement PREFIX = false.
Proof.
  intros Hs Hsplit. destruct (startswith statement PREFIX) eqn:E; [|reflexivity].
  unfold PREFIX in *.
  assert (" "%char <> "%"%char) as Hsep by discriminate.
  pose proof (split1_head_startswith _ _ s statement rest Hsep Hsplit E).
  congruence.
Qed.

(** A line without directive goes through both passes unchanged. *)
Lemma _builtin_recursive_expand_plain (os : OS) (self : SpecPreprocessor)
    (depth : nat) (line : string) :
  keys_prefixed (builtin_expanders self) ->
  startswith (lstrip line) PREFIX = false ->
  _builtin_recursive_expand os self depth line = Returns line.
Proof.
  intros Hkeys Hline.
  assert (H : match split1 " " (lstrip line) with
              | [] => True
              | statement :: _ => builtin_expanders self !! statement = None
              end).
  { destruct (split1 " " (lstrip line)) as [|statement rest] eqn:E; [exact I|].
    apply lookup_unprefixed; [assumption|].
    eapply split1_head_unprefixed; eauto. }
  destruct depth; simpl;
    destruct (split1 " " (lstrip line)) as [|statement rest]; try reflexivity;
    now rewrite H.
Qed.

Lemma expand_registered_plain (self : SpecPreprocessor) (line : string) :
  keys_prefixed (expanders self) ->
  startswith (lstrip line) PREFIX = false ->
  expand_registered self line = Returns line.
Proof.
  intros Hkeys Hline. unfold expand_registered.
  destruct (split1 " " line) as [|statement rest] eqn:E; [reflexivity|].
  rewrite lookup_unprefixed; [reflexivity|assumption|].
  eapply split1_head_unprefixed; [|exact E].
  destruct (startswith line PREFIX) eqn:Hs; [|reflexivity].
  unfold PREFIX in *.
  assert (isspace "%" = false) as Hc by reflexivity.
  pose proof (startswith_lstrip line "%" Hc Hs). congruence.
Qed.

Lemma join_split (c : ascii) (s : string) :
  join (String c EmptyString) (split c s) = s.
Proof.
  unfold join. induction s as [|a s IH]; [reflexivity|].
  simpl. destruct (Ascii.eqb_spec a c) as [->|Hne].
  - destruct (split c s) as [|hd tl] eqn:E.
    + destruct s; simpl in E; [discriminate|].
      destruct (Ascii.eqb a c); [discriminate|].
      destruct (split c s); discriminate.
    + simpl. simpl in IH. now rewrite IH.
  - destruct (split c s) as [|hd tl] eqn:E.
    + simpl in IH. now rewrite <- IH.
    + simpl in *. destruct tl; simpl in *; now rewrite <- IH.
Qed.

(** C9, as stated, fails: no line of this text begins with the prefix,
    yet its expansion is not the text but a preprocessing error, because
    the directive name is looked for after leading whitespace. *)
Lemma parse_unprefixed_counterexample :
  readlines os_indented_import "/specs/a.spec" = Some [nl " %import nowhere"]
  /\ Forall (fun line => startswith line PREFIX = false) [nl " %import nowhere"]
  /\ SpecPreprocessor_parse os_indented_import (new_preprocessor "/specs/a.spec") 1
     = Raises (PreprocessorError
                 ("invalid preprocessor line: " +:+ nl " %import nowhere"))
  /\ SpecPreprocessor_parse os_indented_import (new_preprocessor "/specs/a.spec") 1
     <> Returns (split NL (text_of [nl " %import nowhere"]))
  /\ (forall depth, exists msg,
        SpecPreprocessor_parse os_indented_import
          (new_preprocessor "/specs/a.spec") depth
        = Raises (PreprocessorError msg)).
Proof.
  split; [reflexivity|]. split; [repeat constructor|].
  split; [vm_compute; reflexivity|]. split; [vm_compute; discriminate|].
  intros [|depth]; vm_compute; eexists; reflexivity.
Qed.

(** C9, amended. For every input text in which no line, once its leading
    whitespace is removed, begins with the prefix [%], the preprocessor's
    [parse] returns the text unchanged, as the list of its lines: whatever
    the registered expanders, the files around and the depth allowed. *)
Theorem parse_directive_free :
  forall (os : OS) (self : SpecPreprocessor) (depth : nat) (lines : list string),
    constructed self ->
    readlines os (_spec_path self) = Some lines ->
    Forall (fun line => startswith (lstrip line) PREFIX = false) lines ->
    SpecPreprocessor_parse os self depth = Returns (split NL (text_of lines))
    /\ join (String NL EmptyString) (split NL (text_of lines)) = text_of lines.
Proof.
  intros os self depth lines Hself Hfile Hlines.
  destruct (constructed_prefixed self Hself) as [Hexp Hbuiltin].
  split; [|apply join_split].
  unfold SpecPreprocessor_parse. rewrite Hfile.
  rewrite map_outcome_id.
  2:{ eapply List.Forall_impl; [|exact Hlines]. intros line Hline.
      now apply _builtin_recursive_expand_plain. }
  simpl. rewrite map_outcome_id.
  2:{ eapply List.Forall_impl; [|exact Hlines]. intros line Hline.
      now apply expand_registered_plain. }
  reflexivity.
Qed.

Lemma parse_directive_free_witness :
  SpecPreprocessor_parse os_plain (new_preprocessor "/specs/a.spec") 0
  = Returns ["a: 1"; "  b # c"; "d: 100%"].
Proof.
  assert (Hself : constructed (new_preprocessor "/specs/a.spec")).
  { apply (constructed_init "/specs/a.spec"). reflexivity. }
  assert (Hlines : Forall (fun line => startswith (lstrip line) PREFIX = false)
                     [nl "a: 1"; nl "  b # c"; "d: 100%"]).
  { repeat constructor. }
  exact (proj1 (parse_directive_free os_plain (new_preprocessor "/specs/a.spec") 0
                  [nl "a: 1"; nl "  b # c"; "d: 100%"] Hself eq_refl Hlines)).
Defined.

End PreprocessorProperties.

(* ===================================================================== *)
(** * Properties of the spec parser *)
(* ===================================================================== *)

Section GenericLines.

Import settings.

Lemma generic_lines_app (c1 c2 : list string) :
  generic_lines (c1 ++ c2) = generic_lines c1 ++ generic_lines c2.
Proof. unfold generic_lines. now rewrite List.filter_app, map_app. Qed.

Lemma strip_around_hash (a b : string) :
  strip (a +:+ String "#" b) = lstrip a +:+ String "#" (rstrip b).
Proof.
  unfold strip. rewrite rstrip_app_nonspace by reflexivity.
  now rewrite lstrip_app_nonspace by reflexivity.
Qed.




End GenericLines.

Section ScanProperties.

Import settings.

Lemma partition_app (c : ascii) (k v : string) :
  occurs c k = false ->
  partition c (k +:+ String c v) = Some (k, v).
Proof.
  induction k as [|x k IH]; simpl.
  - intros _. now rewrite Ascii.eqb_refl.
  - intros H. apply orb_false_iff in H as [Hx Hk]. now rewrite Hx, IH.
Qed.

Lemma partition_inv (c : ascii) (s k v : string) :
  partition c s = Some (k, v) ->
  s = k +:+ String c v /\ occurs c k = false.
Proof.
  revert k. induction s as [|x s IH]; intros k; simpl; [discriminate|].
  destruct (Ascii.eqb_spec x c) as [->|Hne].
  - intros H. injection H as <- <-. split; reflexivity.
  - destruct (partition c s) as [[a b]|]; [|discriminate].
    intros H. injection H as <- <-.
    destruct (IH a eq_refl) as [-> Ha]. split; [reflexivity|].
    simpl. rewrite Ha. now apply Ascii.eqb_neq in Hne as ->.
Qed.

Lemma parse_line_statement_split (key value : string) :
  occurs ":" key = false ->
  parse_line_statement (key +:+ String ":" value) = Some (strip key, strip value).
Proof.
  intros H. unfold parse_line_statement, split1. now rewrite partition_app.
Qed.

Lemma parse_line_statement_inv (line v_key v_value : string) :
  parse_line_statement line = Some (v_key, v_value) ->
  exists key value,
    line = key +:+ String ":" value /\ occurs ":" key = false /\
    v_key = strip key /\ v_value = strip value.
Proof.
  unfold parse_line_statement, split1.
  destruct (partition ":" line) as [[key value]|] eqn:E; [|discriminate].
  intros H. injection H as <- <-.
  apply partition_inv in E as [-> Hk]. exists key, value. auto.
Qed.

(** A line that starts no key of the schema falls to the [elif] branch. *)
Lemma resolve_line_no_schema_key (self : SpecParser) (old_key : option string)
    (line : string) :
  no_schema_key self line ->
  resolve_line self old_key line =
    match old_key with
    | Some key =>
        if is_empty (strip line) then (None, old_key)
        else (Some (key, strip line), old_key)
    | None => (None, None)
    end.
Proof.
  intros Hno. unfold resolve_line.
  destruct (parse_line_statement line) as [[v_key v_value]|] eqn:E; simpl.
  - apply parse_line_statement_inv in E as (key & value & -> & Hk & -> & ->).
    rewrite (Hno key value eq_refl Hk). now destruct old_key.
  - now destruct old_key.
Qed.

(** C7, as stated, fails: a parser result of [None], the value the
    parsers of the code base give for a text they cannot use, does not
    discard the pair; the verifier is run on it and, when it accepts, the
    pair is merged. *)
Lemma parse_sentinel_counterexample :
  parameters example_parser !! "skip" = Some none_entry
  /\ parser none_entry "x" = VNone
  /\ exists mydict,
       parse_data example_parser ["skip: x"; "name: n"; "release: 1"]
         = Returns mydict
       /\ mydict !! "skip" = Some VNone.
Proof.
  split; [reflexivity|]. split; [reflexivity|].
  eexists. split; vm_compute; reflexivity.
Qed.

(** C7, amended. For every resolved (key, raw payload) pair whose key has
    a schema entry, the parser is applied first and the verifier is run on
    whatever the parser returned: there is no value of the parser that
    discards the pair by itself. The pair is discarded exactly when the
    verifier rejects the parsed value; a pair the verifier accepts is
    merged: stored when the key is new, accumulated otherwise. *)
Theorem parse_line_verifier_decides :
  forall (self : SpecParser) (mydict : gmap string pyval)
         (old_key old_key' : option string) (line key raw : string)
         (entry : check_dict),
    resolve_line self old_key line = (Some (key, raw), old_key') ->
    parameters self !! key = Some entry ->
    (verifier entry (parser entry raw) = false ->
       parse_line self (mydict, old_key) line = Returns (mydict, old_key'))
    /\ (verifier entry (parser entry raw) = true ->
        mydict !! key = None ->
        parse_line self (mydict, old_key) line
          = Returns (<[key := parser entry raw]> mydict, old_key'))
    /\ (verifier entry (parser entry raw) = true ->
        forall old, mydict !! key = Some old ->
        parse_line self (mydict, old_key) line
          = match parser entry raw with
            | VStr s =>
                bind (iadd old (VStr (" " +:+ s)))
                     (fun v => Returns (<[key := v]> mydict, old_key'))
            | VList xs =>
                bind (iadd old (VList xs))
                     (fun v => Returns (<[key := v]> mydict, old_key'))
            | _ => Returns (mydict, old_key')
            end).
Proof.
  intros self mydict old_key old_key' line key raw entry Hres Hentry.
  unfold parse_line. rewrite Hres. unfold merge_pair. rewrite Hentry.
  split; [|split].
  - intros ->. reflexivity.
  - intros -> ->. reflexivity.
  - intros -> old ->. cbn [negb].
    destruct (parser entry raw) as [| | |s|xs|]; try reflexivity.
    + now destruct (iadd old (VStr (" " +:+ s))).
    + now destruct (iadd old (VList xs)).
Qed.

Lemma parse_line_verifier_decides_witness :
  parse_line example_parser (∅, None) "skip: x"
    = Returns (<["skip" := VNone]> ∅, Some "skip").
Proof.
  exact (proj1 (proj2 (parse_line_verifier_decides example_parser ∅ None
                         (Some "skip") "skip: x" "skip" "x" none_entry
                         eq_refl eq_refl)) eq_refl eq_refl).
Defined.

(** C8, as stated, fails: a generic line can be empty (an indented comment
    line leaves one), and an empty line met while a key is active is not
    passed on as a continuation payload of that key: it is skipped. Taken
    as a payload, it would have added a space to the string value. *)
Lemma continuation_empty_counterexample :
  generic_lines ["name: a"; "  # note"; "release: 1"] = ["name: a"; ""; "release: 1"]
  /\ no_schema_key example_parser ""
  /\ resolve_line example_parser (Some "name") "" = (None, Some "name")
  /\ (exists mydict,
        parse_data example_parser ["name: a"; ""; "release: 1"] = Returns mydict
        /\ mydict !! "name" = Some (VStr "a"))
  /\ (exists mydict,
        merge_pair example_parser (<["name" := VStr "a"]> ∅) "name" ""
          = Returns mydict
        /\ mydict !! "name" = Some (VStr "a ")).
Proof.
  split; [reflexivity|]. split.
  { intros key value H. destruct key; discriminate. }
  split; [reflexivity|].
  split; eexists; split; vm_compute; reflexivity.
Qed.

(** C8, amended. For every generic line, scanned with the current key
    [old_key]: a line that splits around its first colon into a key of the
    schema and a value starts that key as the new current key, with the
    stripped value as payload; a line that starts no key of the schema,
    met while a key is current, is a continuation of that key with the
    whole stripped line as payload, unless the stripped line is empty, in
    which case it is skipped; a line that starts no key of the schema
    while no key is current is ignored. *)
Theorem resolve_line_cases :
  forall (self : SpecParser) (old_key : option string),
    (forall key value : string,
        occurs ":" key = false ->
        is_Some (parameters self !! strip key) ->
        resolve_line self old_key (key +:+ String ":" value)
          = (Some (strip key, strip value), Some (strip key)))
    /\ (forall (line current : string),
          no_schema_key self line ->
          old_key = Some current ->
          strip line <> EmptyString ->
          resolve_line self old_key line
            = (Some (current, strip line), Some current))
    /\ (forall (line current : string),
          no_schema_key self line ->
          old_key = Some current ->
          strip line = EmptyString ->
          resolve_line self old_key line = (None, Some current))
    /\ (forall line : string,
          no_schema_key self line ->
          old_key = None ->
          resolve_line self old_key line = (None, None)).
Proof.
  intros self old_key. split; [|split; [|split]].
  - intros key value Hk [entry Hentry]. unfold resolve_line.
    rewrite parse_line_statement_split by assumption. simpl.
    now rewrite Hentry.
  - intros line current Hno -> Hline.
    rewrite resolve_line_no_schema_key by assumption.
    destruct (strip line); [now destruct Hline|reflexivity].
  - intros line current Hno -> Hline.
    rewrite resolve_line_no_schema_key by assumption. now rewrite Hline.
  - intros line Hno ->. now rewrite resolve_line_no_schema_key.
Qed.

Lemma resolve_line_cases_witness :
  resolve_line example_parser None "packages : a, b"
    = (Some ("packages", "a, b"), Some "packages")
  /\ resolve_line example_parser (Some "packages") " c, d "
    = (Some ("packages", "c, d"), Some "packages")
  /\ resolve_line example_parser None "c, d" = (None, None).
Proof.
  destruct (resolve_line_cases example_parser None) as (Hkey & _ & _ & Hignored).
  destruct (resolve_line_cases example_parser (Some "packages"))
    as (_ & Hcont & _ & _).
  assert (Hno : forall line, occurs ":" line = false ->
                  no_schema_key example_parser line).
  { intros line Hline key value -> Hk. exfalso.
    clear -Hline. induction key as [|x key IH]; simpl in *; [discriminate|].
    apply orb_false_iff in Hline as [_ Hline]. auto. }
  split; [|split].
  - refine (Hkey "packages " " a, b" eq_refl _). vm_compute. eauto.
  - refine (Hcont " c, d " "packages" (Hno " c, d " eq_refl) eq_refl _).
    discriminate.
  - exact (Hignored "c, d" (Hno "c, d" eq_refl) eq_refl).
Defined.

End ScanProperties.

Section AccumulationProperties.

Import settings.

Lemma merge_pair_other (self : SpecParser) (mydict mydict' : gmap string pyval)
    (key raw other : string) :
  merge_pair self mydict key raw = Returns mydict' ->
  key <> other ->
  mydict' !! other = mydict !! other.
Proof.
  unfold merge_pair. intros H Hne.
  destruct (parameters self !! key) as [entry|]; [|now injection H as <-].
  destruct (verifier entry (parser entry raw)); simpl in H;
    [|now injection H as <-].
  destruct (mydict !! key) as [old|].
  - destruct (parser entry raw) as [| | |s|xs|]; try (now injection H as <-).
    + destruct (iadd old (VStr (" " +:+ s))); [|discriminate].
      injection H as <-. now rewrite lookup_insert_ne.
    + destruct (iadd old (VList xs)); [|discriminate].
      injection H as <-. now rewrite lookup_insert_ne.
  - injection H as <-. now rewrite lookup_insert_ne.
Qed.

Lemma merge_pair_same (self : SpecParser) (mydict mydict' : gmap string pyval)
    (key raw : string) :
  merge_pair self mydict key raw = Returns mydict' ->
  mydict' !! key =
    fold_left accumulated (accepted_value self key (key, raw)) (mydict !! key).
Proof.
  unfold merge_pair, accepted_value. cbn [fst snd]. rewrite String.eqb_refl.
  intros H.
  destruct (parameters self !! key) as [entry|]; [|now injection H as <-].
  destruct (verifier entry (parser entry raw)); simpl in H;
    [|now injection H as <-].
  cbn [fold_left]. destruct (mydict !! key) as [old|] eqn:Hold.
  - unfold accumulated.
    destruct (parser entry raw) as [| | |s|xs|]; try (now injection H as <-).
    + destruct (iadd old (VStr (" " +:+ s))); [|discriminate].
      injection H as <-. now rewrite lookup_insert_eq.
    + destruct (iadd old (VList xs)); [|discriminate].
      injection H as <-. now rewrite lookup_insert_eq.
  - injection H as <-. now rewrite lookup_insert_eq.
Qed.

(** The entry of a key when the scan ends: its accepted values,
    accumulated in order. *)
Lemma scan_key (self : SpecParser) (key : string) (data : list string) :
  forall (mydict : gmap string pyval) (old_key : option string)
         (st : gmap string pyval * option string),
    for_each (parse_line self) data (mydict, old_key) = Returns st ->
    st.1 !! key =
      fold_left accumulated
        (flat_map (accepted_value self key) (resolved_pairs self old_key data))
        (mydict !! key).
Proof.
  induction data as [|line rest IH]; intros mydict old_key st Hscan.
  { simpl in Hscan. now injection Hscan as <-. }
  cbn [for_each resolved_pairs] in *. unfold parse_line in Hscan at 1.
  destruct (resolve_line self old_key line) as [[[k raw]|] old_key'].
  - destruct (merge_pair self mydict k raw) as [mydict'|] eqn:Hmerge;
      [|discriminate].
    cbn [bind] in Hscan. rewrite (IH _ _ _ Hscan).
    cbn [flat_map]. rewrite fold_left_app. f_equal.
    destruct (String.eqb_spec k key) as [->|Hne].
    + now apply merge_pair_same.
    + unfold accepted_value. cbn [fst].
      apply String.eqb_neq in Hne as Hne'. rewrite Hne'. cbn [fold_left].
      now apply (merge_pair_other self mydict mydict' k raw key).
  - cbn [bind] in Hscan. now rewrite (IH _ _ _ Hscan).
Qed.

Lemma append_cons (a : ascii) (s t : string) :
  String a s +:+ t = String a (s +:+ t).
Proof. reflexivity. Qed.

Lemma append_nil_r (s : string) : s +:+ EmptyString = s.
Proof. induction s; [reflexivity|]. rewrite append_cons. now f_equal. Qed.

Lemma append_assoc (s t u : string) : (s +:+ t) +:+ u = s +:+ (t +:+ u).
Proof. induction s; [reflexivity|]. rewrite !append_cons. now f_equal. Qed.

Lemma concat_empty_cons (y : string) (ys : list string) :
  String.concat "" (y :: ys) = y +:+ String.concat "" ys.
Proof. destruct ys; simpl; [now rewrite append_nil_r|reflexivity]. Qed.

Lemma join_cons (s : string) (ss : list string) :
  join " " (s :: ss) = s +:+ String.concat "" (map (fun x => " " +:+ x) ss).
Proof.
  unfold join. revert s. induction ss as [|x ss IH]; intros s.
  - simpl. now rewrite append_nil_r.
  - change (String.concat " " (s :: x :: ss))
      with (s +:+ " " +:+ String.concat " " (x :: ss)).
    rewrite IH. cbn [map]. rewrite concat_empty_cons, append_assoc. reflexivity.
Qed.

(** Strings accumulate into their space-separated join. *)
Lemma accumulated_strings (ss : list string) (a : string) :
  fold_left accumulated (map VStr ss) (Some (VStr a))
  = Some (VStr (a +:+ String.concat "" (map (fun x => " " +:+ x) ss))).
Proof.
  revert a. induction ss as [|s ss IH]; intros a.
  - simpl. now rewrite append_nil_r.
  - cbn [map fold_left accumulated iadd]. rewrite IH.
    now rewrite concat_empty_cons, append_assoc.
Qed.

(** Lists accumulate into their concatenation. *)
Lemma accumulated_lists (ls : list (list pyval)) (a : list pyval) :
  fold_left accumulated (map VList ls) (Some (VList a))
  = Some (VList (a ++ concat ls)).
Proof.
  revert a. induction ls as [|l ls IH]; intros a.
  - simpl. now rewrite app_nil_r.
  - cbn [map fold_left accumulated iadd concat]. rewrite IH.
    now rewrite <- app_assoc.
Qed.

(** Values of another type leave the entry as it is. *)
Lemma accumulated_others (vs : list pyval) (v : pyval) :
  Forall other_type vs ->
  fold_left accumulated vs (Some v) = Some v.
Proof.
  induction 1 as [|x vs Hx _ IH]; [reflexivity|].
  cbn [fold_left]. destruct x; try (now destruct Hx); exact IH.
Qed.

Lemma accumulates_strings (ss : list string) (a : string) :
  accumulates (Some (VStr a)) (map VStr ss).
Proof.
  revert a. induction ss as [|s ss IH]; intros a; [exact I|].
  cbn [map accumulates iadd]. apply IH.
Qed.

Lemma accumulates_lists (ls : list (list pyval)) (a : list pyval) :
  accumulates (Some (VList a)) (map VList ls).
Proof.
  revert a. induction ls as [|l ls IH]; intros a; [exact I|].
  cbn [map accumulates iadd]. apply IH.
Qed.

Lemma accumulates_others (vs : list pyval) (v : pyval) :
  Forall other_type vs -> accumulates (Some v) vs.
Proof.
  induction 1 as [|x vs Hx _ IH]; [exact I|].
  cbn [accumulates]. destruct x; try (now destruct Hx); exact IH.
Qed.

Lemma homogeneous_accumulates (vs : list pyval) :
  homogeneous vs -> accumulates None vs.
Proof.
  intros [[ss ->]|[[ls ->]|H]].
  - destruct ss; [exact I|]. apply accumulates_strings.
  - destruct ls; [exact I|]. apply accumulates_lists.
  - destruct vs; [exact I|]. now apply accumulates_others.
Qed.

(** One merge raises no error when the values of its key accumulate. *)
Lemma merge_pair_accumulates (self : SpecParser) (mydict : gmap string pyval)
    (key raw : string) (later : list pyval) :
  accumulates (mydict !! key) (accepted_value self key (key, raw) ++ later) ->
  exists mydict',
    merge_pair self mydict key raw = Returns mydict' /\
    accumulates (mydict' !! key) later.
Proof.
  unfold merge_pair, accepted_value. cbn [fst snd]. rewrite String.eqb_refl.
  destruct (parameters self !! key) as [entry|]; [|eauto].
  destruct (verifier entry (parser entry raw)); cbn [negb app]; [|eauto].
  destruct (mydict !! key) as [old|] eqn:Hold; cbn [accumulates].
  - destruct (parser entry raw) as [| | |s|xs|];
      try (intros H; exists mydict; split; [reflexivity|]; now rewrite Hold).
    + destruct (iadd old (VStr (" " +:+ s))) as [v|]; [|tauto].
      intros H. eexists. split; [reflexivity|]. now rewrite lookup_insert_eq.
    + destruct (iadd old (VList xs)) as [v|]; [|tauto].
      intros H. eexists. split; [reflexivity|]. now rewrite lookup_insert_eq.
  - intros H. eexists. split; [reflexivity|]. now rewrite lookup_insert_eq.
Qed.

Lemma accepted_value_other (self : SpecParser) (key other raw : string) :
  key <> other -> accepted_value self other (key, raw) = [].
Proof.
  intros Hne. unfold accepted_value. cbn [fst].
  now apply String.eqb_neq in Hne as ->.
Qed.

(** The scan raises no error when the values of every key accumulate. *)
Lemma scan_returns (self : SpecParser) (data : list string) :
  forall (mydict : gmap string pyval) (old_key : option string),
    (forall key,
        accumulates (mydict !! key)
          (flat_map (accepted_value self key) (resolved_pairs self old_key data))) ->
    exists st, for_each (parse_line self) data (mydict, old_key) = Returns st.
Proof.
  induction data as [|line rest IH]; intros mydict old_key Hall; [simpl; eauto|].
  cbn [for_each resolved_pairs] in *. unfold parse_line at 1.
  destruct (resolve_line self old_key line) as [[[k raw]|] old_key'].
  - pose proof (Hall k) as Hk. cbn [flat_map] in Hk.
    destruct (merge_pair_accumulates self mydict k raw _ Hk)
      as (mydict' & Hmerge & Hk').
    rewrite Hmerge. cbn [bind]. apply IH. intros key.
    destruct (decide (k = key)) as [<-|Hne]; [exact Hk'|].
    rewrite (merge_pair_other self mydict mydict' k raw key Hmerge Hne).
    specialize (Hall key). cbn [flat_map] in Hall.
    now rewrite accepted_value_other in Hall.
  - cbn [bind]. apply IH. exact Hall.
Qed.

(** C4. For every key accepted during parsing, once or more: when its
    accepted values are strings, the mapping the scan builds holds them
    joined with single spaces, in order of appearance; when they are lists,
    it holds their concatenation, in order; when the later values are of
    any other type, each is dropped without error (the merge returns the
    mapping as it was) and the first accepted value is kept. The mapping
    [parse] returns holds the same entry (the reserved ['__plugin__'] entry
    apart). The scan does build a mapping when the accepted values of every
    key are of one kind. *)
Theorem parse_accumulation :
  (forall (self : SpecParser) (data : list string),
      (forall key, homogeneous (accepted_values self key data)) ->
      exists st, for_each (parse_line self) data (∅, None) = Returns st)
  /\
  (forall (self : SpecParser) (data : list string)
          (st : gmap string pyval * option string) (key : string)
          (first : pyval) (later : list pyval),
      for_each (parse_line self) data (∅, None) = Returns st ->
      accepted_values self key data = first :: later ->
      (forall ss : list string,
          first :: later = map VStr ss ->
          st.1 !! key = Some (VStr (join " " ss)))
      /\ (forall ls : list (list pyval),
            first :: later = map VList ls ->
            st.1 !! key = Some (VList (concat ls)))
      /\ (Forall other_type later -> st.1 !! key = Some first)
      /\ (forall (mydict : gmap string pyval) (raw : string) (entry : check_dict),
            parameters self !! key = Some entry ->
            is_Some (mydict !! key) ->
            other_type (parser entry raw) ->
            merge_pair self mydict key raw = Returns mydict)
      /\ (forall mydict : gmap string pyval,
            parse_data self data = Returns mydict ->
            key <> "__plugin__" ->
            mydict !! key = st.1 !! key)).
Proof.
  split.
  { intros self data Hall. apply scan_returns. intros key.
    rewrite lookup_empty. apply homogeneous_accumulates, Hall. }
  intros self data st key first later Hscan Hacc.
  pose proof (scan_key self key data ∅ None st Hscan) as Hkey.
  fold (accepted_values self key data) in Hkey.
  rewrite Hacc, lookup_empty in Hkey. cbn [fold_left accumulated] in Hkey.
  split; [|split; [|split; [|split]]].
  - intros [|s ss] Hss; [discriminate|]. cbn [map] in Hss.
    injection Hss as -> ->. rewrite Hkey, accumulated_strings.
    now rewrite join_cons.
  - intros [|l ls] Hls; [discriminate|]. cbn [map] in Hls.
    injection Hls as -> ->. rewrite Hkey, accumulated_lists. reflexivity.
  - intros Hother. rewrite Hkey. now apply accumulated_others.
  - intros mydict raw entry Hentry [old Hold] Htype.
    unfold merge_pair. rewrite Hentry, Hold.
    destruct (verifier entry (parser entry raw)); [|reflexivity].
    cbn [negb]. destruct (parser entry raw); try reflexivity; now destruct Htype.
  - intros mydict Hparse Hne. unfold parse_data in Hparse.
    rewrite Hscan in Hparse. cbn [bind] in Hparse.
    destruct (validate_parse self _); [|discriminate].
    cbn [bind] in Hparse. injection Hparse as <-.
    now rewrite lookup_insert_ne.
Qed.

Lemma parse_accumulation_witness :
  exists mydict,
    parse_data example_parser
      ["name: a"; "b c"; "packages: x"; "release: 1"; "packages: y";
       "release: 22"; "name: d"] = Returns mydict
    /\ mydict !! "name" = Some (VStr "a b c d")
    /\ mydict !! "packages" = Some (VList [VStr "x"; VStr "y"])
    /\ mydict !! "release" = Some (VInt 1).
Proof.
  set (data := ["name: a"; "b c"; "packages: x"; "release: 1"; "packages: y";
                "release: 22"; "name: d"]).
  destruct (for_each (parse_line example_parser) data (∅, None)) as [st|e] eqn:Hscan;
    [|vm_compute in Hscan; discriminate].
  destruct (parse_data example_parser data) as [mydict|e] eqn:Hparse;
    [|vm_compute in Hparse; discriminate].
  exists mydict. split; [reflexivity|].
  assert (Hname : accepted_values example_parser "name" data
                  = VStr "a" :: [VStr "b c"; VStr "d"]) by (vm_compute; reflexivity).
  assert (Hpkg : accepted_values example_parser "packages" data
                 = VList [VStr "x"] :: [VList [VStr "y"]]) by (vm_compute; reflexivity).
  assert (Hrel : accepted_values example_parser "release" data
                 = VInt 1 :: [VInt 2]) by (vm_compute; reflexivity).
  destruct (proj2 parse_accumulation example_parser data st "name" _ _ Hscan Hname)
    as (Hstr & _ & _ & _ & Hret1).
  destruct (proj2 parse_accumulation example_parser data st "packages" _ _ Hscan Hpkg)
    as (_ & Hlist & _ & _ & Hret2).
  destruct (proj2 parse_accumulation example_parser data st "release" _ _ Hscan Hrel)
    as (_ & _ & Hother & _ & Hret3).
  rewrite (Hret1 mydict Hparse), (Hret2 mydict Hparse), (Hret3 mydict Hparse)
    by discriminate.
  split; [exact (Hstr ["a"; "b c"; "d"] eq_refl)|].
  split; [exact (Hlist [[VStr "x"]; [VStr "y"]] eq_refl)|].
  apply Hother. repeat constructor.
Defined.

End AccumulationProperties.

Section ValidationProperties.

Import settings.

Lemma validate_parse_present (self : SpecParser) (mydata : gmap string pyval) :
  Forall (fun param => is_Some (mydata !! param)) (vital_parameters self) ->
  validate_parse self mydata = Returns tt.
Proof.
  unfold validate_parse.
  induction 1 as [|param rest [v Hv] _ IH]; [reflexivity|].
  cbn [for_each]. rewrite Hv. exact IH.
Qed.

Lemma validate_parse_missing (self : SpecParser) (mydata : gmap string pyval)
    (present absent : list string) (param : string) :
  vital_parameters self = present ++ param :: absent ->
  Forall (fun p => is_Some (mydata !! p)) present ->
  mydata !! param = None ->
  validate_parse self mydata
    = Raises (SpecFileError (missing_parameter_message self param)).
Proof.
  unfold validate_parse. intros -> Hpresent Hparam.
  induction Hpresent as [|p present [v Hv] _ IH].
  - cbn [app for_each]. now rewrite Hparam.
  - cbn [app for_each]. rewrite Hv. exact IH.
Qed.

(** The first vital parameter that a mapping lacks. *)
Lemma first_missing (mydata : gmap string pyval) (vital : list string) :
  (exists param, In param vital /\ mydata !! param = None) ->
  exists present param absent,
    vital = present ++ param :: absent /\
    Forall (fun p => is_Some (mydata !! p)) present /\
    mydata !! param = None.
Proof.
  induction vital as [|p vital IH]; intros (param & Hin & Hnone);
    [destruct Hin|].
  destruct (mydata !! p) as [v|] eqn:Hp.
  - destruct Hin as [->|Hin]; [congruence|].
    destruct IH as (present & q & absent & -> & Hpresent & Hq); [eauto|].
    exists (p :: present), q, absent. repeat split; auto.
  - exists [], p, vital. repeat split; auto.
Qed.

(** C3. For every spec input and strategy, once the scan of the generic
    lines has built the result mapping and the reserved strategy entry is
    attached: if a vital parameter is absent from the mapping, [parse]
    fails with a [SpecFileError] whose message names the spec file path and
    the absent parameter (the first absent one of the vital list);
    otherwise [parse] returns the mapping, reserved entry included. *)
Theorem parse_vital_parameters :
  forall (os : OS) (self : SpecParser) (depth : nat) (data : list string)
         (st : gmap string pyval * option string),
    _generic_parser os self depth = Returns data ->
    for_each (parse_line self) data (∅, None) = Returns st ->
    let mydict := <["__plugin__" := plugin self]> st.1 in
    ((exists param, In param (vital_parameters self) /\ mydict !! param = None) ->
       exists present param absent,
         vital_parameters self = present ++ param :: absent /\
         Forall (fun p => is_Some (mydict !! p)) present /\
         mydict !! param = None /\
         SpecParser_parse os self depth
           = Raises (SpecFileError
               ("SpecFileError: '" +:+ filepath self +:+ "' missing or invalid '"
                +:+ param +:+ "' parameter, it's vital. Your specification"
                +:+ " file is incomplete!")))
    /\ (Forall (fun p => is_Some (mydict !! p)) (vital_parameters self) ->
        SpecParser_parse os self depth = Returns mydict
        /\ mydict !! "__plugin__" = Some (plugin self)).
Proof.
  intros os self depth data st Hdata Hscan mydict.
  unfold SpecParser_parse. rewrite Hdata. cbn [bind].
  unfold parse_data. rewrite Hscan. cbn [bind]. fold mydict.
  split.
  - intros Hmissing.
    destruct (first_missing mydict _ Hmissing)
      as (present & param & absent & Hvital & Hpresent & Hparam).
    exists present, param, absent. repeat split; auto.
    now rewrite (validate_parse_missing self mydict present absent param).
  - intros Hall. rewrite validate_parse_present by assumption.
    split; [reflexivity|]. apply lookup_insert_eq.
Qed.

Lemma parse_vital_parameters_witness :
  SpecParser_parse os_incomplete example_parser 0
    = Raises (SpecFileError
        "SpecFileError: '/specs/a.spec' missing or invalid 'release' parameter, it's vital. Your specification file is incomplete!")
  /\ exists mydict,
       SpecParser_parse os_complete example_parser 0 = Returns mydict
       /\ mydict !! "__plugin__" = Some (VPlugin "example")
       /\ mydict !! "name" = Some (VStr "a").
Proof.
  split.
  - destruct (for_each (parse_line example_parser) ["name: a"] (∅, None))
      as [st|e] eqn:Hscan; [|vm_compute in Hscan; discriminate].
    assert (Hstate : st = (<["name" := VStr "a"]> ∅, Some "name")).
    { vm_compute in Hscan. injection Hscan as <-. vm_compute. reflexivity. }
    destruct (proj1 (parse_vital_parameters os_incomplete example_parser 0
                       ["name: a"] st eq_refl Hscan))
      as (present & param & absent & Hvital & Hpresent & Hparam & Hparse).
    { exists "release". subst st. split; [simpl; tauto|reflexivity]. }
    subst st. cbn [vital_parameters example_parser] in Hvital.
    destruct present as [|p1 [|p2 [|p3 present]]]; cbn [app] in Hvital.
    + injection Hvital as <- _. discriminate.
    + injection Hvital as _ <- _. exact Hparse.
    + injection Hvital as _ _ Habs. discriminate.
    + injection Hvital as _ _ Habs. discriminate.
  - destruct (for_each (parse_line example_parser) ["name: a"; "release: 1"] (∅, None))
      as [st|e] eqn:Hscan; [|vm_compute in Hscan; discriminate].
    assert (Hstate : st = (<["release" := VInt 1]> (<["name" := VStr "a"]> ∅),
                           Some "release")).
    { vm_compute in Hscan. injection Hscan as <-. vm_compute. reflexivity. }
    destruct (proj2 (parse_vital_parameters os_complete example_parser 0
                       ["name: a"; "release: 1"] st eq_refl Hscan))
      as [Hparse Hplugin].
    { subst st. repeat constructor; vm_compute; eauto. }
    eexists. split; [exact Hparse|]. split; [exact Hplugin|].
    subst st. reflexivity.
Defined.

End ValidationProperties.

Section ImportProperties.

Import settings settings_init settings_more.
Local Open Scope py_scope.

Lemma startswith_app (s pre : string) :
  startswith s pre = true -> exists tail, s = pre +:+ tail.
Proof.
  unfold startswith. revert s. induction pre as [|c pre IH]; intros s H.
  - now exists s.
  - destruct s as [|a s]; [discriminate|]. cbn [String.prefix] in H.
    destruct (ascii_dec c a) as [->|]; [|discriminate].
    destruct (IH s H) as [tail ->]. exists tail. now rewrite append_cons.
Qed.

Lemma startswith_app_intro (pre tail : string) :
  startswith (pre +:+ tail) pre = true.
Proof.
  unfold startswith. induction pre as [|c pre IH].
  - now destruct tail.
  - rewrite append_cons. cbn [String.prefix].
    destruct (ascii_dec c c); [exact IH|congruence].
Qed.

Lemma partition_app_left (c : ascii) (a t : string) :
  occurs c a = false ->
  partition c (a +:+ t) =
    match partition c t with
    | Some (x, y) => Some (a +:+ x, y)
    | None => None
    end.
Proof.
  induction a as [|x a IH]; intros H.
  - change (EmptyString +:+ t) with t.
    now destruct (partition c t) as [[? ?]|].
  - rewrite append_cons. cbn [occurs] in H.
    apply orb_false_iff in H as [Hx Ha]. cbn [partition].
    rewrite Hx, (IH Ha). now destruct (partition c t) as [[? ?]|].
Qed.

Lemma rstrip_app (a x : string) :
  rstrip (a +:+ x) =
    match rstrip x with
    | EmptyString => rstrip a
    | String d r => a +:+ String d r
    end.
Proof.
  induction a as [|c a IH].
  - change (EmptyString +:+ x) with x. now destruct (rstrip x).
  - rewrite append_cons. cbn [rstrip]. rewrite IH.
    destruct (rstrip x) as [|d r]; [reflexivity|]. rewrite append_cons.
    destruct (a +:+ String d r) eqn:E; [now apply string_app_nonempty in E|].
    reflexivity.
Qed.

Lemma all_space_rstrip (x : string) :
  rstrip x = EmptyString <-> all_space x = true.
Proof.
  induction x as [|c x IH]; [easy|]. cbn [rstrip all_space].
  destruct (rstrip x) as [|d r].
  - destruct (isspace c); cbn [andb]; [tauto|split; discriminate].
  - split; [discriminate|]. intros H. apply andb_true_iff in H as [_ H].
    apply IH in H. discriminate.
Qed.

Lemma all_space_occurs (c : ascii) (x : string) :
  isspace c = false -> all_space x = true -> occurs c x = false.
Proof.
  intros Hc. induction x as [|a x IH]; [reflexivity|]. cbn [all_space occurs].
  intros H. apply andb_true_iff in H as [Ha Hx]. rewrite (IH Hx).
  destruct (Ascii.eqb_spec a c) as [->|]; [congruence|reflexivity].
Qed.

Lemma lstrip_all_space (ws s : string) :
  all_space ws = true -> lstrip (ws +:+ s) = lstrip s.
Proof.
  induction ws as [|c ws IH]; intros H; [reflexivity|].
  rewrite append_cons. cbn [all_space] in H.
  apply andb_true_iff in H as [Hc Hws]. cbn [lstrip]. rewrite Hc. auto.
Qed.

(** An import directive line, as the code takes it apart. *)
Lemma import_line_imports (self : SpecPreprocessor) (line target : string) :
  import_line line target -> imports self line (import_path self target).
Proof.
  intros (ws & rest & -> & Hws & Hspace & -> & Hne).
  exists [rest], (ws +:+ "%import"), rest. split; [|split; [|split]].
  - now rewrite lstrip_all_space.
  - unfold split1. now rewrite partition_app_left.
  - exact Hne.
  - reflexivity.
Qed.

Lemma constructed_builtin (self : SpecPreprocessor) :
  constructed self ->
  builtin_expanders self !! "%import" = Some ImportExpander.
Proof.
  induction 1 as [spec_path self Hinit|self self' statement cb _ IH Hadd].
  - rewrite SpecPreprocessor_init_new in Hinit. now injection Hinit as <-.
  - unfold add_expander in Hadd.
    destruct (_add_expander (expanders self) statement cb); [|discriminate].
    now injection Hadd as <-.
Qed.

(** No [RuntimeError] leaves [_builtin_recursive_expand]. *)
Lemma _builtin_recursive_expand_no_runtime_error (os : OS)
    (self : SpecPreprocessor) (depth : nat) (line : string) (msg : string) :
  _builtin_recursive_expand os self depth line <> Raises (RuntimeError msg).
Proof.
  destruct depth; simpl;
    destruct (split1 " " (lstrip line)) as [|statement tail]; try discriminate;
    destruct (builtin_expanders self !! statement) as [expander|];
    try discriminate.
  destruct (call_builtin os self expander _ line) as [x|[]]; discriminate.
Qed.

Lemma map_outcome_raises {A B} (f : A -> outcome B) (xs : list A) (e : exn) :
  map_outcome f xs = Raises e -> exists x, In x xs /\ f x = Raises e.
Proof.
  induction xs as [|x xs IH]; simpl; [discriminate|].
  destruct (f x) as [y|e'] eqn:Hx; simpl.
  - destruct (map_outcome f xs) as [ys|e'']; simpl; [discriminate|].
    intros H. injection H as ->. destruct IH as (x' & Hin & Hx'); eauto.
  - intros H. injection H as ->. eauto.
Qed.

Lemma map_outcome_app {A B} (f : A -> outcome B) (xs ys : list A) :
  map_outcome f (xs ++ ys) =
    (xs' <- map_outcome f xs ;; ys' <- map_outcome f ys ;; Returns (xs' ++ ys')).
Proof.
  induction xs as [|x xs IH]; simpl.
  - now destruct (map_outcome f ys).
  - destruct (f x); simpl; [|reflexivity]. rewrite IH.
    destruct (map_outcome f xs); simpl; [|reflexivity].
    now destruct (map_outcome f ys).
Qed.

Lemma text_of_cons (x : string) (xs : list string) :
  text_of (x :: xs) = x +:+ text_of xs.
Proof. apply concat_empty_cons. Qed.

Lemma text_of_app (xs ys : list string) :
  text_of (xs ++ ys) = text_of xs +:+ text_of ys.
Proof.
  induction xs as [|x xs IH]; [reflexivity|].
  cbn [app]. now rewrite !text_of_cons, IH, append_assoc.
Qed.

(** The loop of [_import_expander] (lines 154-157) gathers the expansions
    of the lines of the file, in order. *)
Lemma import_loop (expand : string -> outcome string) (spec_f : list string) :
  forall lines : string,
    for_each (fun lines line => x <- expand line ;; Returns (lines +:+ x))
             spec_f lines
    = (xs <- map_outcome expand spec_f ;; Returns (lines +:+ text_of xs)).
Proof.
  induction spec_f as [|line spec_f IH]; intros lines; simpl.
  - unfold text_of, join. simpl. now rewrite append_nil_r.
  - destruct (expand line) as [x|e]; simpl; [|reflexivity].
    rewrite IH. destruct (map_outcome expand spec_f) as [xs|e]; simpl;
      [|reflexivity].
    now rewrite text_of_cons, append_assoc.
Qed.

(** What an import directive expands to. *)
Lemma _builtin_recursive_expand_import (os : OS) (self : SpecPreprocessor)
    (depth : nat) (line path : string) :
  constructed self ->
  imports self line path ->
  _builtin_recursive_expand os self (S depth) line =
    match readlines os path with
    | None => Raises (PreprocessorError ("invalid preprocessor line: " +:+ line))
    | Some spec_f =>
        xs <- map_outcome (_builtin_recursive_expand os self depth) spec_f ;;
        Returns (text_of xs)
    end.
Proof.
  intros Hself (tail & head & rest & Hstatement & Hsplit & Htarget & ->).
  cbn [_builtin_recursive_expand]. rewrite Hstatement.
  rewrite (constructed_builtin self Hself). cbn [call_builtin].
  unfold _import_expander. rewrite Hsplit. cbn [index nth_error bind].
  destruct (is_empty (strip rest)) eqn:Hempty.
  { apply is_empty_true in Hempty. now destruct Htarget. }
  destruct (readlines os _) as [spec_f|]; [|reflexivity].
  rewrite import_loop.
  destruct (map_outcome _ spec_f) as [xs|e] eqn:Hxs; [reflexivity|].
  cbn [bind]. destruct e; try reflexivity.
  apply map_outcome_raises in Hxs as (x & _ & Hx).
  now apply _builtin_recursive_expand_no_runtime_error in Hx.
Qed.

Lemma map_outcome_plain (os : OS) (self : SpecPreprocessor) (depth : nat)
    (lines : list string) :
  constructed self ->
  plain lines ->
  map_outcome (_builtin_recursive_expand os self depth) lines = Returns lines.
Proof.
  intros Hself Hlines. apply map_outcome_id.
  eapply List.Forall_impl; [|exact Hlines]. intros line Hline.
  apply _builtin_recursive_expand_plain; [|assumption].
  now apply constructed_prefixed.
Qed.

(** C5, as stated, fails on a relative import inside an imported file: [B]
    lies in [/d/sub] and imports [C]; the file [/d/sub/C], beside [B],
    exists and is readable; the preprocessor looks for [C] beside the spec
    file, in [/d], and the whole parse is aborted. *)
Lemma import_nested_relative_counterexample :
  readlines os_chain_nested "/d/A.spec" = Some [nl "a: 1"; nl "%import sub/B"]
  /\ readlines os_chain_nested (path_join (dirname "/d/A.spec") "sub/B")
     = Some [nl "b: 1"; nl "%import C"; nl "b: 2"]
  /\ readlines os_chain_nested (path_join (dirname "/d/sub/B") "C")
     = Some [nl "c: 1"]
  /\ import_line (nl "%import C") "C"
  /\ import_path (new_preprocessor "/d/A.spec") "C" = "/d/C"
  /\ SpecPreprocessor_parse os_chain_nested (new_preprocessor "/d/A.spec") 5
     = Raises (PreprocessorError ("invalid preprocessor line: " +:+ nl "%import C"))
  /\ (forall depth, exists msg,
        SpecPreprocessor_parse os_chain_nested (new_preprocessor "/d/A.spec") depth
        = Raises (PreprocessorError msg)).
Proof.
  split; [reflexivity|]. split; [reflexivity|]. split; [reflexivity|].
  split; [|split; [reflexivity|split; [vm_compute; reflexivity|]]].
  - exists EmptyString, (nl "C").
    split; [reflexivity|]. split; [reflexivity|]. split; [reflexivity|].
    split; [reflexivity|discriminate].
  - intros [|[|depth]]; vm_compute; eexists; reflexivity.
Qed.

(** A directive that stands after a space character is no import
    directive line in the sense of C5 as amended: the text after that first
    space, directive included, is then taken as the target, and the file
    [x] beside the spec file, though readable, is not looked at. *)
Lemma import_after_space :
  readlines os_spaced_import "/d/x" = Some [nl "x: 1"]
  /\ (forall target, ~ import_line (nl " %import x") target)
  /\ SpecPreprocessor_parse os_spaced_import (new_preprocessor "/d/A.spec") 5
     = Raises (PreprocessorError
                 ("invalid preprocessor line: " +:+ nl " %import x")).
Proof.
  split; [reflexivity|]. split; [|vm_compute; reflexivity].
  intros target (ws & rest & Hline & Hws & Hspace & _).
  destruct ws as [|c ws]; [discriminate Hline|].
  unfold nl in Hline. rewrite append_cons in Hline.
  injection Hline as <- _. discriminate Hspace.
Qed.

(** C5, amended. For every import directive line in which no space
    character stands before the directive, with target [target]: the file
    read is the target itself when it is absolute and otherwise the target
    joined to the directory of the spec file the preprocessor was created
    for, also when the directive stands in an imported file; a file that
    is missing or not readable raises a preprocessing error, and an error
    raised by a line of the spec file aborts the whole parse; the lines of
    a readable file are expanded recursively and their expansions, joined,
    replace the directive line, so that in a chain of imports A, B, C
    (each resolved as said) the content of C stands fully expanded in the
    expansion of A, and a missing C is a preprocessing error for A. *)
Theorem import_expansion :
  (forall (self : SpecPreprocessor) (target : string),
      (startswith target (String sep EmptyString) = true ->
       import_path self target = target)
      /\ (startswith target (String sep EmptyString) = false ->
          import_path self target
          = path_join (dirname (_spec_path self)) target))
  /\ (forall (os : OS) (self : SpecPreprocessor) (depth : nat)
             (line target : string),
        constructed self -> import_line line target ->
        (readlines os (import_path self target) = None ->
           _builtin_recursive_expand os self (S depth) line
             = Raises (PreprocessorError ("invalid preprocessor line: " +:+ line)))
        /\ (forall spec_f, readlines os (import_path self target) = Some spec_f ->
              _builtin_recursive_expand os self (S depth) line
                = (xs <- map_outcome (_builtin_recursive_expand os self depth) spec_f ;;
                   Returns (text_of xs))))
  /\ (forall (os : OS) (self : SpecPreprocessor) (depth : nat)
             (before after : list string) (line : string) (e : exn),
        readlines os (_spec_path self) = Some (before ++ line :: after) ->
        Forall (fun l => exists x, _builtin_recursive_expand os self depth l = Returns x)
               before ->
        _builtin_recursive_expand os self depth line = Raises e ->
        SpecPreprocessor_parse os self depth = Raises e)
  /\ (forall (os : OS) (self : SpecPreprocessor) (depth : nat)
             (lineA targetB lineB targetC : string) (pre post : list string),
        constructed self ->
        import_line lineA targetB ->
        readlines os (import_path self targetB) = Some (pre ++ lineB :: post) ->
        import_line lineB targetC ->
        plain pre -> plain post ->
        (forall linesC,
           readlines os (import_path self targetC) = Some linesC ->
           plain linesC ->
           _builtin_recursive_expand os self (S (S depth)) lineA
             = Returns (text_of (pre ++ linesC ++ post)))
        /\ (readlines os (import_path self targetC) = None ->
            _builtin_recursive_expand os self (S (S depth)) lineA
              = Raises (PreprocessorError ("invalid preprocessor line: " +:+ lineB)))).
Proof.
  split; [|split; [|split]].
  - intros self target. unfold import_path. split; intros ->; reflexivity.
  - intros os self depth line target Hself Hline.
    rewrite (_builtin_recursive_expand_import os self depth line _ Hself
               (import_line_imports self line target Hline)).
    split; [intros ->; reflexivity|]. intros spec_f ->. reflexivity.
  - intros os self depth before after line e Hfile Hbefore Hline.
    unfold SpecPreprocessor_parse. rewrite Hfile, map_outcome_app.
    assert (Hb : exists xs, map_outcome (_builtin_recursive_expand os self depth)
                              before = Returns xs).
    { clear -Hbefore. induction Hbefore as [|l before [x Hx] _ [xs IH]].
      - exists []. reflexivity.
      - exists (x :: xs). simpl. now rewrite Hx, IH. }
    destruct Hb as [xs ->]. cbn [bind map_outcome]. now rewrite Hline.
  - intros os self depth lineA targetB lineB targetC pre post
      Hself HA HB HC Hpre Hpost.
    rewrite (_builtin_recursive_expand_import os self (S depth) lineA _ Hself
               (import_line_imports self lineA targetB HA)).
    rewrite HB, map_outcome_app, (map_outcome_plain os self (S depth) pre) by assumption.
    cbn [bind map_outcome].
    rewrite (_builtin_recursive_expand_import os self depth lineB _ Hself
               (import_line_imports self lineB targetC HC)).
    rewrite (map_outcome_plain os self (S depth) post) by assumption.
    split.
    + intros linesC -> HlinesC.
      rewrite (map_outcome_plain os self depth linesC) by assumption.
      cbn [bind]. f_equal.
      rewrite !text_of_app, text_of_cons. reflexivity.
    + intros ->. reflexivity.
Qed.

Lemma import_expansion_witness :
  _builtin_recursive_expand os_chain (new_preprocessor "/d/A.spec") 2
    (nl "%import sub/B")
  = Returns (text_of [nl "b: 1"; nl "c: 1"; nl "b: 2"]).
Proof.
  destruct import_expansion as (_ & _ & _ & Hchain).
  assert (Hself : constructed (new_preprocessor "/d/A.spec")).
  { apply (constructed_init "/d/A.spec"). reflexivity. }
  assert (HA : import_line (nl "%import sub/B") "sub/B").
  { exists EmptyString, (nl "sub/B").
    split; [reflexivity|]. split; [reflexivity|]. split; [reflexivity|].
    split; [reflexivity|discriminate]. }
  assert (HC : import_line (nl "%import C") "C").
  { exists EmptyString, (nl "C").
    split; [reflexivity|]. split; [reflexivity|]. split; [reflexivity|].
    split; [reflexivity|discriminate]. }
  refine (proj1 (Hchain os_chain (new_preprocessor "/d/A.spec") 0%nat
                   (nl "%import sub/B") "sub/B" (nl "%import C") "C"
                   [nl "b: 1"] [nl "b: 2"] Hself HA eq_refl HC _ _)
            [nl "c: 1"] eq_refl _);
    repeat constructor.
Defined.

End ImportProperties.

(* ===================================================================== *)
(** * Further properties of the step Runner *)
(* ===================================================================== *)

Section RunnerTraces.

Import handlers molecule_py.

(** The hooks called on a step: from [setup] on, up to the first one that
    does not return zero. *)
Lemma hooks_called_shape (my : GenericExecutionStep) :
  exists h,
    hooks_called my = hooks_through h /\
    (forall h', (hook_index h' < hook_index h)%nat ->
                hook_outcome my h' = Returns 0) /\
    (h = PostRun \/ hook_outcome my h <> Returns 0).
Proof.
  unfold hooks_called. destruct my as [i s p r q k]; simpl.
  destruct s as [[| |]|];
    try (exists Setup; split; [reflexivity|]; split;
         [intros [] H; simpl in H; lia | right; discriminate]).
  destruct p as [[| |]|];
    try (exists PreRun; split; [reflexivity|]; split;
         [intros [] H; simpl in H; try lia; reflexivity | right; discriminate]).
  destruct r as [[| |]|];
    try (exists Run; split; [reflexivity|]; split;
         [intros [] H; simpl in H; try lia; reflexivity | right; discriminate]).
  exists PostRun. split; [reflexivity|]. split; [|now left].
  intros [] H; simpl in H; try lia; reflexivity.
Qed.

(** The run of a list of steps followed by more steps. *)
Lemma run_from_app (pre rest : list GenericExecutionStep) :
  forall (count : nat),
    run_from count (pre ++ rest) =
      match run_from count pre with
      | (Returns rc, tr) =>
          if truthy rc then (Returns rc, tr)
          else let '(o, tr') := run_from (count + length pre) rest in
               (o, tr ++ tr')
      | (Raises e, tr) => (Raises e, tr)
      end.
Proof.
  induction pre as [|my pre IH]; intros count.
  - simpl. rewrite Nat.add_0_r. now destruct (run_from count rest).
  - cbn [app]. rewrite !run_from_cons.
    destruct (run_step (S count) my) as [[rc|e] tr1]; [|reflexivity].
    destruct (truthy rc) eqn:Hrc; [now rewrite Hrc|]. rewrite IH.
    replace (count + length (my :: pre))%nat with (S count + length pre)%nat
      by (simpl; lia).
    destruct (run_from (S count) pre) as [[rc'|e'] tr2]; [|reflexivity].
    destruct (truthy rc') eqn:Hrc'; rewrite ?Hrc'; [reflexivity|].
    destruct (run_from _ rest) as [o tr3]. now rewrite app_assoc.
Qed.

(** X3. Steps added after a list do not change what the Runner does with
    the list: when the run of [pre] returns 0, the run of [pre ++ rest]
    makes the same events and goes on with [rest], counted from the length
    of [pre]; when the run of [pre] returns a non-zero code or raises, the
    run of [pre ++ rest] is the run of [pre]. *)
Theorem Runner_run_app :
  forall (pre rest : list GenericExecutionStep) (res : outcome Z)
         (tr : list event),
    Runner_run pre = (res, tr) ->
    (res = Returns 0 ->
       Runner_run (pre ++ rest) =
         (fst (run_from (length pre) rest),
          tr ++ snd (run_from (length pre) rest)))
    /\ (res <> Returns 0 -> Runner_run (pre ++ rest) = (res, tr)).
Proof.
  intros pre rest res tr Hpre. unfold Runner_run in *.
  rewrite run_from_app, Hpre. cbn [Nat.add]. split.
  - intros ->. cbn. now destruct (run_from (length pre) rest).
  - intros Hne. destruct res as [rc|e]; [|reflexivity].
    destruct (truthy rc) eqn:Hrc; [reflexivity|].
    apply truthy_false_iff in Hrc. subst rc. now destruct Hne.
Qed.

Lemma Runner_run_app_witness :
  Runner_run ([step_of_codes clean_codes; step_of_codes run_fails_codes]
                ++ [run_faults_step])
  = Runner_run [step_of_codes clean_codes; step_of_codes run_fails_codes].
Proof.
  refine (proj2 (Runner_run_app
                   [step_of_codes clean_codes; step_of_codes run_fails_codes]
                   [run_faults_step] _ _ eq_refl) _).
  discriminate.
Defined.

(** X4. A step whose constructor raises is neither driven nor killed: when
    the steps before it ran to a zero return, the run ends with the
    exception of the constructor and its trace is that of the steps
    before; no later step is instantiated. *)
Theorem Runner_constructor_fault :
  forall (pre post : list GenericExecutionStep) (my : GenericExecutionStep)
         (e : exn) (tr : list event),
    Runner_run pre = (Returns 0, tr) ->
    init my = Raises e ->
    Runner_run (pre ++ my :: post) = (Raises e, tr).
Proof.
  intros pre post my e tr Hpre Hinit. unfold Runner_run in *.
  rewrite run_from_app, Hpre. cbn [truthy Z.eqb negb Nat.add].
  rewrite run_from_cons, run_step_shape, Hinit. now rewrite app_nil_r.
Qed.

Lemma Runner_constructor_fault_witness :
  Runner_run ([step_of_codes clean_codes]
                ++ init_faults_step :: [step_of_codes clean_codes])
  = (Raises IOError, complete_lifecycle 1).
Proof.
  exact (Runner_constructor_fault [step_of_codes clean_codes]
           [step_of_codes clean_codes] init_faults_step IOError _
           eq_refl eq_refl).
Defined.

Lemma run_step_nodup (count : nat) (my : GenericExecutionStep) :
  List.NoDup (snd (run_step count my)).
Proof.
  rewrite run_step_shape. destruct (init my); [|constructor].
  destruct (hooks_called_shape my) as (h & -> & _). cbn [snd].
  destruct h; cbn; repeat constructor; cbn; intuition discriminate.
Qed.

Lemma run_from_nodup (steps : list GenericExecutionStep) :
  forall count, List.NoDup (snd (run_from count steps)).
Proof.
  induction steps as [|my rest IH]; intros count; [constructor|].
  rewrite run_from_cons.
  pose proof (run_step_nodup (S count) my) as Hstep.
  pose proof (run_step_event_count (S count) my) as Hcount.
  pose proof (run_from_event_count rest (S count)) as Hlater.
  specialize (IH (S count)).
  destruct (run_step (S count) my) as [[rc|e] tr1]; cbn [snd] in *; [|assumption].
  destruct (truthy rc); [assumption|].
  destruct (run_from (S count) rest) as [o tr2]; cbn [snd] in *.
  apply List.NoDup_app; auto.
  intros ev H1 H2. specialize (Hcount ev H1). specialize (Hlater ev H2). lia.
Qed.

(** X5. The Runner does nothing twice: in the trace of a run no event
    occurs more than once, so no step is instantiated twice, no hook of a
    step instance is called twice and no instance is killed twice with
    the same flag. *)
Theorem Runner_trace_nodup :
  forall steps : list GenericExecutionStep,
    List.NoDup (snd (Runner_run steps)).
Proof. intros steps. apply run_from_nodup. Qed.

Lemma run_step_first_event (count : nat) (my : GenericExecutionStep) (ev : event) :
  In ev (snd (run_step count my)) -> In (Instantiated count) (snd (run_step count my)).
Proof.
  rewrite run_step_shape. destruct (init my); [|tauto]. intros _. now left.
Qed.

Lemma run_from_event_instantiated (steps : list GenericExecutionStep) :
  forall (count : nat) (ev : event),
    In ev (snd (run_from count steps)) ->
    In (Instantiated (event_count ev)) (snd (run_from count steps))
    /\ (event_count ev <= count + length steps)%nat.
Proof.
  induction steps as [|my rest IH]; intros count ev; [simpl; tauto|].
  rewrite run_from_cons.
  pose proof (run_step_first_event (S count) my ev) as Hfirst.
  pose proof (run_step_event_count (S count) my ev) as Hcount.
  specialize (IH (S count) ev).
  destruct (run_step (S count) my) as [[rc|e] tr1]; cbn [snd length] in *.
  - destruct (truthy rc).
    + intros H. rewrite (Hcount H). split; [auto|lia].
    + destruct (run_from (S count) rest) as [o tr2]; cbn [snd] in *.
      intros H. apply in_app_or in H as [H|H].
      * rewrite (Hcount H). split; [apply in_or_app; auto|lia].
      * destruct (IH H) as [Hin Hle]. split; [apply in_or_app; auto|lia].
  - intros H. rewrite (Hcount H). split; [auto|lia].
Qed.

(** X6. The Runner only touches steps it has created from the list: every
    call of a hook and every kill in the trace of a run is made on an
    instance that the run instantiated, whose number is a position of the
    list. *)
Theorem Runner_events_instantiated :
  forall (steps : list GenericExecutionStep) (ev : event),
    In ev (snd (Runner_run steps)) ->
    In (Instantiated (event_count ev)) (snd (Runner_run steps))
    /\ (1 <= event_count ev <= length steps)%nat.
Proof.
  intros steps ev Hin. unfold Runner_run in *.
  destruct (run_from_event_instantiated steps 0 ev Hin) as [H1 H2].
  pose proof (run_from_event_count steps 0 ev Hin). split; [assumption|lia].
Qed.

Lemma Runner_events_instantiated_witness :
  In (Instantiated 2) (snd (Runner_run [step_of_codes clean_codes; run_faults_step])).
Proof.
  refine (proj1 (Runner_events_instantiated
                   [step_of_codes clean_codes; run_faults_step]
                   (Killed 2 false) _)).
  simpl. tauto.
Defined.

End RunnerTraces.

(* ===================================================================== *)
(** * The Runner over hooks that return any object *)
(* ===================================================================== *)

Section RunnerAnyObject.

Import handlers molecule_py handlers_any.

Context {object : Type}.
Variables (truth eq_zero : object -> bool) (zero : object).

Lemma run_hooks_any_shape (count : nat) (my : ExecutionStep object) :
  exists h,
    run_hooks_any truth count my
    = (hook_result my h, map (Called count) (hooks_through h)) /\
    (forall h', (hook_index h' < hook_index h)%nat -> falsy_result truth my h') /\
    (h = PostRun \/ forall rc, hook_result my h = Returns rc -> truth rc = true).
Proof.
  unfold run_hooks_any, call_any, emit, lift, ret, mbind.
  destruct (hook_result my Setup) as [rc1|e1] eqn:H1.
  2:{ exists Setup. rewrite H1. split; [reflexivity|]. split.
      - intros h' Hlt. destruct h'; simpl in Hlt; lia.
      - right. discriminate. }
  destruct (truth rc1) eqn:T1.
  { exists Setup. rewrite H1. split; [reflexivity|]. split.
    - intros h' Hlt. destruct h'; simpl in Hlt; lia.
    - right. intros rc H. now injection H as <-. }
  destruct (hook_result my PreRun) as [rc2|e2] eqn:H2.
  2:{ exists PreRun. rewrite H2. split; [reflexivity|]. split.
      - intros h' Hlt. destruct h'; simpl in Hlt; try lia. now exists rc1.
      - right. discriminate. }
  destruct (truth rc2) eqn:T2.
  { exists PreRun. rewrite H2. split; [reflexivity|]. split.
    - intros h' Hlt. destruct h'; simpl in Hlt; try lia. now exists rc1.
    - right. intros rc H. now injection H as <-. }
  destruct (hook_result my Run) as [rc3|e3] eqn:H3.
  2:{ exists Run. rewrite H3. split; [reflexivity|]. split.
      - intros h' Hlt. destruct h'; simpl in Hlt; try lia;
          [now exists rc1|now exists rc2].
      - right. discriminate. }
  destruct (truth rc3) eqn:T3.
  { exists Run. rewrite H3. split; [reflexivity|]. split.
    - intros h' Hlt. destruct h'; simpl in Hlt; try lia;
        [now exists rc1|now exists rc2].
    - right. intros rc H. now injection H as <-. }
  exists PostRun. split; [now destruct (hook_result my PostRun)|]. split.
  - intros h' Hlt. destruct h'; simpl in Hlt; try lia;
      [now exists rc1|now exists rc2|now exists rc3].
  - now left.
Qed.


(** The events of a step: nothing when the constructor raises; otherwise
    the creation, the calls of the hooks and one teardown. *)
Lemma run_step_any_events (count : nat) (my : ExecutionStep object) :
  (exists e, new my = Raises e /\
             run_step_any truth eq_zero count my = (Raises e, []))
  \/ (exists h flag,
        new my = Returns tt /\
        snd (run_step_any truth eq_zero count my)
        = Instantiated count :: map (Called count) (hooks_through h)
            ++ [Killed count flag] /\
        (forall h', (hook_index h' < hook_index h)%nat ->
                    falsy_result truth my h') /\
        (h = PostRun \/
         forall rc, hook_result my h = Returns rc -> truth rc = true)).
Proof.
  unfold run_step_any. destruct (new my) as [[]|e] eqn:Hnew.
  2:{ left. exists e. split; reflexivity. }
  right. destruct (run_hooks_any_shape count my) as (h & Hrun & Hbefore & Hlast).
  exists h. rewrite Hrun.
  destruct (hook_result my h) as [rc|e] eqn:Hh.
  - exists (eq_zero rc). split; [reflexivity|]. split; [|split; assumption].
    unfold kill_any, try_except, emit, lift, ret, mbind. cbn.
    destruct (teardown my (eq_zero rc)); cbn; now rewrite ?app_nil_r.
  - exists false. split; [reflexivity|]. split; [|split; assumption].
    unfold kill_any, try_except, emit, lift, ret, raise, mbind. cbn.
    destruct (teardown my false); cbn; now rewrite ?app_nil_r.
Qed.

Lemma run_step_any_count (count : nat) (my : ExecutionStep object) (ev : event) :
  In ev (snd (run_step_any truth eq_zero count my)) -> event_count ev = count.
Proof.
  destruct (run_step_any_events count my)
    as [(e & _ & ->)|(h & flag & _ & -> & _)]; [intros []|].
  intros [<-|Hin]; [reflexivity|].
  apply in_app_or in Hin as [Hin|[<-|[]]]; [|reflexivity].
  apply in_map_iff in Hin as (h' & <- & _). reflexivity.
Qed.

Lemma run_from_any_cons (count : nat) (my : ExecutionStep object)
    (rest : list (ExecutionStep object)) :
  run_from_any truth eq_zero zero count (my :: rest) =
    match run_step_any truth eq_zero (S count) my with
    | (Returns rc, tr) =>
        if truth rc then (Returns rc, tr)
        else let '(o, tr') := run_from_any truth eq_zero zero (S count) rest in
             (o, tr ++ tr')
    | (Raises e, tr) => (Raises e, tr)
    end.
Proof.
  cbn [run_from_any]. unfold mbind at 1.
  destruct (run_step_any truth eq_zero (S count) my) as [[rc|e] tr];
    [|reflexivity].
  destruct (truth rc); [|reflexivity]. cbn. now rewrite app_nil_r.
Qed.

Lemma run_from_any_trace (count : nat) (my : ExecutionStep object)
    (rest : list (ExecutionStep object)) :
  exists later,
    snd (run_from_any truth eq_zero zero count (my :: rest))
    = snd (run_step_any truth eq_zero (S count) my) ++ later /\
    (later = [] \/
     later = snd (run_from_any truth eq_zero zero (S count) rest)).
Proof.
  rewrite run_from_any_cons.
  destruct (run_step_any truth eq_zero (S count) my) as [[rc|e] tr].
  - destruct (truth rc).
    + exists []. cbn. rewrite app_nil_r. auto.
    + destruct (run_from_any truth eq_zero zero (S count) rest) as [o tr'].
      exists tr'. cbn. auto.
  - exists []. cbn. rewrite app_nil_r. auto.
Qed.

Lemma run_from_any_count (steps : list (ExecutionStep object)) :
  forall (count : nat) (ev : event),
    In ev (snd (run_from_any truth eq_zero zero count steps)) ->
    (count < event_count ev)%nat.
Proof.
  induction steps as [|my rest IH]; intros count ev; [intros []|].
  destruct (run_from_any_trace count my rest) as (later & -> & Hlater).
  intros Hin. apply in_app_or in Hin as [Hin|Hin].
  - apply run_step_any_count in Hin. lia.
  - destruct Hlater as [-> | ->]; [destruct Hin|].
    apply IH in Hin. lia.
Qed.

Lemma filter_calls_any (count : nat) (hs : list hook) :
  List.filter (is_call_of count) (map (Called count) hs) = map (Called count) hs.
Proof.
  induction hs as [|h hs IH]; [reflexivity|]. cbn [map List.filter is_call_of].
  now rewrite Nat.eqb_refl, IH.
Qed.

Lemma filter_calls_other (i : nat) (l : list event) :
  (forall ev, In ev l -> event_count ev <> i) ->
  List.filter (is_call_of i) l = [].
Proof.
  induction l as [|ev l IH]; intros H; [reflexivity|]. cbn [List.filter].
  rewrite IH by (intros ev' Hev'; apply H; now right).
  destruct ev as [c|c h|c b]; try reflexivity. cbn [is_call_of].
  destruct (Nat.eqb_spec c i) as [->|]; [|reflexivity].
  now destruct (H (Called i h) (or_introl eq_refl)).
Qed.

Lemma run_from_any_hook_order (steps : list (ExecutionStep object)) :
  forall (count i : nat),
    In (Instantiated i) (snd (run_from_any truth eq_zero zero count steps)) ->
    exists (my : ExecutionStep object) (h : hook),
      (count < i)%nat /\
      nth_error steps (i - S count) = Some my /\
      List.filter (is_call_of i)
        (snd (run_from_any truth eq_zero zero count steps))
      = map (Called i) (hooks_through h) /\
      (forall h', (hook_index h' < hook_index h)%nat ->
                  falsy_result truth my h') /\
      (h = PostRun \/
       forall rc, hook_result my h = Returns rc -> truth rc = true).
Proof.
  induction steps as [|my rest IH]; intros count i; [intros []|].
  destruct (run_from_any_trace count my rest) as (later & -> & Hlater).
  intros Hin. rewrite List.filter_app.
  assert (Hcounts : forall ev, In ev later -> (S count < event_count ev)%nat).
  { intros ev Hev. destruct Hlater as [-> | ->]; [destruct Hev|].
    now apply run_from_any_count in Hev. }
  apply in_app_or in Hin as [Hin|Hin].
  - pose proof (run_step_any_count _ _ _ Hin) as Hi. cbn in Hi. subst i.
    destruct (run_step_any_events (S count) my)
      as [(e & _ & Hnone)|(h & flag & _ & Htr & Hbefore & Hlast)].
    { rewrite Hnone in Hin. destruct Hin. }
    exists my, h. split; [lia|]. split; [now rewrite Nat.sub_diag|].
    split; [|split; assumption].
    rewrite Htr. cbn [List.filter is_call_of].
    rewrite List.filter_app, filter_calls_any. cbn [List.filter is_call_of].
    rewrite app_nil_r, filter_calls_other, app_nil_r; [reflexivity|].
    intros ev Hev. apply Hcounts in Hev. lia.
  - destruct Hlater as [-> | ->]; [destruct Hin|].
    destruct (IH (S count) i Hin) as (my0 & h & Hlt & Hnth & Hfilter & Hrest).
    exists my0, h. split; [lia|]. split.
    { replace (i - S count)%nat with (S (i - S (S count))) by lia. exact Hnth. }
    split; [|exact Hrest].
    rewrite filter_calls_other, Hfilter; [reflexivity|].
    intros ev Hev. apply run_step_any_count in Hev. lia.
Qed.

(** X1. Whatever the hooks of the steps return (objects of any kind) or
    raise, the hooks the Runner calls on a step instance are, in this
    order, [setup], [pre_run], [run], [post_run] up to some hook [h]: every
    hook before [h] returned an object whose truth value is false (such as
    [0] or [None]), and [h] is [post_run], or raised, or returned an object
    whose truth value is true. *)
Theorem Runner_hook_order :
  forall (steps : list (ExecutionStep object)) (i : nat),
    In (Instantiated i) (snd (Runner_run_any truth eq_zero zero steps)) ->
    exists (my : ExecutionStep object) (h : hook),
      nth_error steps (i - 1) = Some my /\
      List.filter (is_call_of i) (snd (Runner_run_any truth eq_zero zero steps))
      = map (Called i) (hooks_through h) /\
      (forall h', (hook_index h' < hook_index h)%nat ->
                  falsy_result truth my h') /\
      (h = PostRun \/
       forall rc, hook_result my h = Returns rc -> truth rc = true).
Proof.
  intros steps i Hin.
  destruct (run_from_any_hook_order steps 0 i Hin)
    as (my & h & _ & Hnth & Hfilter & Hrest).
  exists my, h. split; [exact Hnth|]. split; [exact Hfilter|exact Hrest].
Qed.

Lemma run_step_any_falsy (count : nat) (my : ExecutionStep object)
    (rc : object) (tr : list event) :
  run_step_any truth eq_zero count my = (Returns rc, tr) ->
  truth rc = false ->
  (forall h, falsy_result truth my h)
  /\ hook_result my PostRun = Returns rc
  /\ tr = finished_lifecycle eq_zero count my.
Proof.
  intros Hstep Hrc.
  assert (Hhooks : fst (run_hooks_any truth count my) = Returns rc).
  { revert Hstep. unfold run_step_any. destruct (new my) as [[]|]; [|discriminate].
    unfold try_except, kill_any, emit, lift, ret, raise, mbind.
    destruct (run_hooks_any truth count my) as [[rc'|e] tr']; cbn.
    - destruct (teardown my (eq_zero rc')); cbn; [|discriminate].
      intros H. now injection H as <- _.
    - destruct (teardown my false); discriminate. }
  destruct (run_hooks_any_shape count my) as (h & Hrun & Hbefore & Hlast).
  rewrite Hrun in Hhooks. cbn in Hhooks.
  destruct Hlast as [->|Hlast].
  2:{ rewrite (Hlast rc Hhooks) in Hrc. discriminate. }
  split; [|split; [exact Hhooks|]].
  - intros h'. destruct h'; try (apply Hbefore; simpl; lia). now exists rc.
  - revert Hstep. unfold run_step_any. destruct (new my) as [[]|]; [|discriminate].
    rewrite Hrun, Hhooks. unfold finished_lifecycle, kill_flag. rewrite Hhooks.
    unfold try_except, kill_any, emit, lift, ret, mbind. cbn.
    destruct (teardown my (eq_zero rc)); cbn; [|discriminate].
    intros H. injection H as <-. now rewrite ?app_nil_r.
Qed.

Lemma run_from_any_falsy (steps : list (ExecutionStep object)) :
  forall (count : nat) (rc : object) (tr : list event),
    run_from_any truth eq_zero zero count steps = (Returns rc, tr) ->
    truth rc = false ->
    rc = zero
    /\ Forall (fun my => forall h, falsy_result truth my h) steps
    /\ tr = flat_map (fun '(c, my) => finished_lifecycle eq_zero c my)
                     (combine (seq (S count) (length steps)) steps).
Proof.
  induction steps as [|my rest IH]; intros count rc tr Hrun Hrc.
  { cbn in Hrun. injection Hrun as <- <-. split; [reflexivity|].
    split; [constructor|reflexivity]. }
  rewrite run_from_any_cons in Hrun.
  destruct (run_step_any truth eq_zero (S count) my) as [[rc1|e] tr1] eqn:Hstep;
    [|discriminate].
  destruct (truth rc1) eqn:Hrc1.
  { injection Hrun as <- <-. congruence. }
  destruct (run_from_any truth eq_zero zero (S count) rest) as [o tr2] eqn:Hrest.
  injection Hrun as -> <-.
  destruct (IH _ _ _ Hrest Hrc) as (-> & Hall & ->).
  destruct (run_step_any_falsy _ _ _ _ Hstep Hrc1) as (Hmy & _ & ->).
  split; [reflexivity|]. split; [now constructor|]. reflexivity.
Qed.

(** X2. A run that returns an object whose truth value is false went
    through everything, and what it returns is the zero of the final
    [return 0]: every step of the list was instantiated and had its four
    hooks called, each returning an object whose truth value is false; each
    step was killed with the flag [rc == 0] of what its [post_run]
    returned, which is [False] for a [post_run] that returns [None]; all in
    the order of the list. *)
Theorem Runner_zero_means_complete :
  forall (steps : list (ExecutionStep object)) (rc : object) (tr : list event),
    Runner_run_any truth eq_zero zero steps = (Returns rc, tr) ->
    truth rc = false ->
    rc = zero
    /\ Forall (fun my => forall h, falsy_result truth my h) steps
    /\ tr = flat_map (fun '(c, my) => finished_lifecycle eq_zero c my)
                     (combine (seq 1 (length steps)) steps).
Proof.
  intros steps rc tr Hrun Hrc.
  exact (run_from_any_falsy steps 0 rc tr Hrun Hrc).
Qed.

End RunnerAnyObject.

Section RunnerInstances.

Import handlers molecule_py handlers_any.

(** The Runner over integer status codes is the Runner over any object,
    taken at the integers. *)
Lemma run_step_int (count : nat) (my : GenericExecutionStep) :
  run_step count my
  = run_step_any truthy (fun rc => rc =? 0) count (step_of_int my).
Proof.
  unfold run_step, run_step_any, instantiate.
  change (run_hooks count my) with (run_hooks_any truthy count (step_of_int my)).
  cbn [new step_of_int teardown]. unfold call_kill, kill_any, lift, emit, ret, mbind.
  destruct (init my) as [[]|]; [|reflexivity].
  destruct (try_except _ _) as [[rc|e] tr]; [|reflexivity].
  cbn [teardown step_of_int].
  now destruct (kill my (rc =? 0)).
Qed.

Lemma Runner_run_int (steps : list GenericExecutionStep) :
  Runner_run steps
  = Runner_run_any truthy (fun rc => rc =? 0) 0 (map step_of_int steps).
Proof.
  unfold Runner_run, Runner_run_any. generalize 0%nat.
  induction steps as [|my rest IH]; intros count; [reflexivity|].
  cbn [run_from run_from_any map]. rewrite run_step_int. unfold mbind.
  destruct (run_step_any _ _ _ _) as [[rc|e] tr]; [|reflexivity].
  destruct (truthy rc); [reflexivity|]. now rewrite IH.
Qed.

Lemma Runner_hook_order_witness :
  List.filter (is_call_of 1)
    (snd (Runner_run_any skel.truth py_eq_zero (settings.VInt 0)
            [none_step; none_step]))
  = map (Called 1) all_hooks.
Proof.
  destruct (Runner_hook_order skel.truth py_eq_zero (settings.VInt 0)
              [none_step; none_step] 1) as (my & h & Hnth & Hcalls & _ & Hlast).
  { left. reflexivity. }
  injection Hnth as <-. refine (eq_trans Hcalls _).
  destruct Hlast as [->|Hlast]; [reflexivity|].
  destruct h; discriminate (Hlast settings.VNone eq_refl).
Defined.

Lemma Runner_zero_means_complete_witness :
  Runner_run_any skel.truth py_eq_zero (settings.VInt 0) [none_step]
  = (Returns (settings.VInt 0),
     [Instantiated 1; Called 1 Setup; Called 1 PreRun; Called 1 Run;
      Called 1 PostRun; Killed 1 false]).
Proof.
  destruct (Runner_run_any skel.truth py_eq_zero (settings.VInt 0) [none_step])
    as [[rc|e] tr] eqn:Hrun; [|vm_compute in Hrun; discriminate].
  assert (Hrc : skel.truth rc = false).
  { vm_compute in Hrun. now injection Hrun as <- _. }
  destruct (Runner_zero_means_complete skel.truth py_eq_zero (settings.VInt 0)
              [none_step] rc tr Hrun Hrc) as (-> & _ & ->).
  reflexivity.
Defined.

End RunnerInstances.

(* ===================================================================== *)
(** * Properties of the driver of a batch *)
(* ===================================================================== *)

Section DriverProperties.

Import handlers molecule_py.

Lemma main_nonempty (molecule_data : gmap string (list GenericExecutionStep))
    (molecule_data_order : list string) :
  molecule_data_order <> [] ->
  main (Some (molecule_data, molecule_data_order))
  = main_loop molecule_data molecule_data_order.
Proof. destruct molecule_data_order; [now intros []|reflexivity]. Qed.

Lemma main_loop_run (molecule_data : gmap string (list GenericExecutionStep))
    (el : string) (rest : list string) (res : outcome Z) (tr : list event) :
  runs molecule_data el res tr ->
  main_loop molecule_data (el :: rest) =
    match res with
    | Raises KeyboardInterrupt => (SystemExit 1, [tr])
    | Raises e => (Uncaught e, [tr])
    | Returns rc =>
        if negb (rc =? 0) then (SystemExit rc, [tr])
        else let '(x, trs) := main_loop molecule_data rest in (x, tr :: trs)
    end.
Proof.
  intros (execution_order & Hget & Hrun). cbn [main_loop]. unfold Runner_init.
  rewrite Hget, Hrun. reflexivity.
Qed.

(** The spec files that run to a zero return are gone through in order. *)
Lemma main_loop_zero_prefix
    (molecule_data : gmap string (list GenericExecutionStep))
    (pre : list string) (trs : list (list event)) (rest : list string) :
  Forall2 (fun el tr => runs molecule_data el (Returns 0) tr) pre trs ->
  main_loop molecule_data (pre ++ rest) =
    let '(x, trs') := main_loop molecule_data rest in (x, trs ++ trs').
Proof.
  induction 1 as [|el tr pre trs Hel _ IH].
  - simpl. now destruct (main_loop molecule_data rest).
  - cbn [app]. rewrite (main_loop_run _ _ _ _ _ Hel). cbn [Z.eqb negb].
    rewrite IH. now destruct (main_loop molecule_data rest).
Qed.

(** X7. The batch stops at the first spec file whose run returns a
    non-zero code: the spec files before it were run in order, the ones
    after it are not run, and the code is the exit status. When every run
    returns 0 the exit status is 0. With nothing to run (no parsed command
    line, or no spec file) the exit status is 1. *)
Theorem main_exit_status :
  (forall (molecule_data : gmap string (list GenericExecutionStep))
          (pre post : list string) (el : string) (trs : list (list event))
          (rc : Z) (tr : list event),
      Forall2 (fun el tr => runs molecule_data el (Returns 0) tr) pre trs ->
      runs molecule_data el (Returns rc) tr ->
      rc <> 0 ->
      main (Some (molecule_data, pre ++ el :: post))
      = (SystemExit rc, trs ++ [tr]))
  /\ (forall (molecule_data : gmap string (list GenericExecutionStep))
             (molecule_data_order : list string) (trs : list (list event)),
        molecule_data_order <> [] ->
        Forall2 (fun el tr => runs molecule_data el (Returns 0) tr)
                molecule_data_order trs ->
        main (Some (molecule_data, molecule_data_order)) = (SystemExit 0, trs))
  /\ main None = (SystemExit 1, [])
  /\ (forall molecule_data, main (Some (molecule_data, [])) = (SystemExit 1, [])).
Proof.
  split; [|split; [|split; reflexivity]].
  - intros molecule_data pre post el trs rc tr Hpre Hel Hrc.
    rewrite main_nonempty by (destruct pre; discriminate).
    rewrite (main_loop_zero_prefix _ _ _ _ Hpre), (main_loop_run _ _ _ _ _ Hel).
    apply Z.eqb_neq in Hrc. now rewrite Hrc.
  - intros molecule_data molecule_data_order trs Hne Hall.
    rewrite main_nonempty by assumption.
    rewrite <- (app_nil_r molecule_data_order).
    rewrite (main_loop_zero_prefix _ _ _ _ Hall). simpl. now rewrite app_nil_r.
Qed.

Lemma main_exit_status_witness :
  fst (main (Some (example_batch, ["a.spec"; "b.spec"; "c.spec"]))) = SystemExit 5
  /\ length (snd (main (Some (example_batch, ["a.spec"; "b.spec"; "c.spec"])))) = 2%nat
  /\ fst (main (Some (example_batch, ["a.spec"; "a.spec"]))) = SystemExit 0.
Proof.
  destruct main_exit_status as (Hstop & Hclean & _).
  assert (Ha : runs example_batch "a.spec" (Returns 0) (complete_lifecycle 1)).
  { exists [step_of_codes clean_codes]. split; reflexivity. }
  assert (Hb : runs example_batch "b.spec" (Returns 5)
                 (complete_lifecycle 1 ++ aborted_lifecycle 2 Run)).
  { exists [step_of_codes clean_codes; step_of_codes run_fails_codes].
    split; reflexivity. }
  assert (Hpre : Forall2 (fun el tr => runs example_batch el (Returns 0) tr)
                   ["a.spec"] [complete_lifecycle 1]).
  { constructor; [exact Ha|constructor]. }
  assert (Hall : Forall2 (fun el tr => runs example_batch el (Returns 0) tr)
                   ["a.spec"; "a.spec"]
                   [complete_lifecycle 1; complete_lifecycle 1]).
  { constructor; [exact Ha|exact Hpre]. }
  pose proof (Hstop example_batch ["a.spec"] ["c.spec"] "b.spec" _ 5 _
                Hpre Hb) as H1.
  assert (Hne : ["a.spec"; "a.spec"] <> @nil string) by discriminate.
  pose proof (Hclean example_batch ["a.spec"; "a.spec"] _ Hne Hall) as H2.
  cbn [app] in H1. rewrite H1 by discriminate. rewrite H2.
  repeat split.
Defined.

(** X8. An interrupt that leaves the run of a spec file ends the batch with
    exit status 1; any other exception that leaves a run, and the
    [TypeError] of a spec path without parsed data, is not caught. In each
    case the spec files after it are not run. *)
Theorem main_exceptions :
  forall (molecule_data : gmap string (list GenericExecutionStep))
         (pre post : list string) (el : string) (trs : list (list event)),
    Forall2 (fun el tr => runs molecule_data el (Returns 0) tr) pre trs ->
    (forall tr, runs molecule_data el (Raises KeyboardInterrupt) tr ->
       main (Some (molecule_data, pre ++ el :: post))
       = (SystemExit 1, trs ++ [tr]))
    /\ (forall e tr, runs molecule_data el (Raises e) tr ->
          e <> KeyboardInterrupt ->
          main (Some (molecule_data, pre ++ el :: post))
          = (Uncaught e, trs ++ [tr]))
    /\ (molecule_data !! el = None ->
        main (Some (molecule_data, pre ++ el :: post))
        = (Uncaught TypeError, trs)).
Proof.
  intros molecule_data pre post el trs Hpre.
  rewrite main_nonempty by (destruct pre; discriminate).
  rewrite (main_loop_zero_prefix _ _ _ _ Hpre).
  split; [|split].
  - intros tr Hel. now rewrite (main_loop_run _ _ _ _ _ Hel).
  - intros e tr Hel Hne. rewrite (main_loop_run _ _ _ _ _ Hel).
    destruct e; try reflexivity. now destruct Hne.
  - intros Hnone. cbn [main_loop]. unfold Runner_init. rewrite Hnone.
    now rewrite app_nil_r.
Qed.

Lemma main_exceptions_witness :
  fst (main (Some (example_batch, ["a.spec"; "c.spec"; "b.spec"]))) = Uncaught IOError
  /\ main (Some (example_batch, ["a.spec"; "d.spec"]))
     = (Uncaught TypeError, [complete_lifecycle 1]).
Proof.
  assert (Ha : runs example_batch "a.spec" (Returns 0) (complete_lifecycle 1)).
  { exists [step_of_codes clean_codes]. split; reflexivity. }
  assert (Hpre : Forall2 (fun el tr => runs example_batch el (Returns 0) tr)
                   ["a.spec"] [complete_lifecycle 1]).
  { constructor; [exact Ha|constructor]. }
  split.
  - destruct (main_exceptions example_batch ["a.spec"] ["b.spec"] "c.spec" _ Hpre)
      as (_ & Hother & _).
    cbn [app] in Hother.
    rewrite (Hother IOError (snd (Runner_run [run_faults_step]))).
    + reflexivity.
    + exists [run_faults_step]. split; reflexivity.
    + discriminate.
  - destruct (main_exceptions example_batch ["a.spec"] [] "d.spec" _ Hpre)
      as (_ & _ & Hnone).
    exact (Hnone eq_refl).
Defined.

End DriverProperties.

(* ===================================================================== *)
(** * Further properties of the macro preprocessor *)
(* ===================================================================== *)

Section PreprocessorExtras.

Import settings settings_more.
Local Open Scope py_scope.

Lemma constructed_builtin_eq (self : SpecPreprocessor) :
  constructed self ->
  builtin_expanders self
  = <["%env" := EnvExpander]> (<["%import" := ImportExpander]> ∅).
Proof.
  induction 1 as [spec_path self Hinit|self self' statement cb _ IH Hadd].
  - rewrite SpecPreprocessor_init_new in Hinit. now injection Hinit as <-.
  - unfold add_expander in Hadd.
    destruct (_add_expander (expanders self) statement cb); [|discriminate].
    now injection Hadd as <-.
Qed.

Lemma builtin_lookup (self : SpecPreprocessor) (k : string) (b : builtin) :
  constructed self ->
  builtin_expanders self !! k = Some b ->
  (k = "%import" /\ b = ImportExpander) \/ (k = "%env" /\ b = EnvExpander).
Proof.
  intros Hself. rewrite (constructed_builtin_eq self Hself).
  destruct (decide ("%env" = k)) as [<-|Hne].
  - rewrite lookup_insert_eq. intros H. injection H as <-. now right.
  - rewrite lookup_insert_ne by assumption.
    destruct (decide ("%import" = k)) as [<-|Hne'].
    + rewrite lookup_insert_eq. intros H. injection H as <-. now left.
    + rewrite lookup_insert_ne, lookup_empty by assumption. discriminate.
Qed.

(** X9. Registering an expander on a preprocessor built by [__init__] and
    [add_expander], under a statement that does not itself start with the
    prefix, never raises, be the statement already registered or not: the
    callback is stored under the prefixed statement, replacing an earlier
    one; the other expanders, the built-in ones and the spec path are left
    as they were. [KeyError] is raised only when the statement as given,
    without prefix added, is already a key. *)
Theorem add_expander_registers :
  forall (self : SpecPreprocessor) (statement : string)
         (expander_callback : string -> outcome string),
    constructed self ->
    (startswith statement PREFIX = false ->
       exists self',
         add_expander self statement expander_callback = Returns self' /\
         expanders self' !! (PREFIX +:+ statement) = Some expander_callback /\
         (forall k, k <> PREFIX +:+ statement ->
                    expanders self' !! k = expanders self !! k) /\
         builtin_expanders self' = builtin_expanders self /\
         _spec_path self' = _spec_path self)
    /\ (is_Some (expanders self !! statement) ->
        add_expander self statement expander_callback
        = Raises (KeyError ("expander " +:+ statement +:+ " already provided"))).
Proof.
  intros self statement cb Hself. split.
  - intros Hst. unfold add_expander, _add_expander.
    rewrite (lookup_unprefixed (expanders self) statement);
      [|now apply constructed_prefixed|assumption].
    eexists. split; [reflexivity|]. cbn.
    split; [apply lookup_insert_eq|]. split; [|split; reflexivity].
    intros k Hk. now rewrite lookup_insert_ne.
  - intros [v Hv]. unfold add_expander, _add_expander. now rewrite Hv.
Qed.

Lemma add_expander_registers_witness :
  exists self1 self2,
    add_expander (new_preprocessor "/specs/a.spec") "foo" (fun l => Returns l)
      = Returns self1
    /\ add_expander self1 "foo" foo_expander = Returns self2
    /\ expanders self2 !! "%foo" = Some foo_expander.
Proof.
  assert (H0 : constructed (new_preprocessor "/specs/a.spec")).
  { apply (constructed_init "/specs/a.spec"). reflexivity. }
  destruct (proj1 (add_expander_registers (new_preprocessor "/specs/a.spec")
                     "foo" (fun l => Returns l) H0) eq_refl)
    as (self1 & Hadd1 & _).
  assert (H1 : constructed self1) by (eapply constructed_add; eauto).
  destruct (proj1 (add_expander_registers self1 "foo" foo_expander H1) eq_refl)
    as (self2 & Hadd2 & Hget & _).
  exists self1, self2. auto.
Defined.

Lemma occurs_app (c : ascii) (a b : string) :
  occurs c (a +:+ b) = occurs c a || occurs c b.
Proof.
  induction a as [|x a IH]; [reflexivity|].
  rewrite append_cons. cbn [occurs]. now rewrite IH, orb_assoc.
Qed.

Lemma partition_none (c : ascii) (s : string) :
  occurs c s = false -> partition c s = None.
Proof.
  induction s as [|x s IH]; [reflexivity|]. cbn [occurs partition].
  intros H. apply orb_false_iff in H as [-> Hs]. now rewrite IH.
Qed.

Lemma lstrip_line_end (w : string) :
  lstrip (w +:+ String NL EmptyString) = EmptyString
  \/ occurs NL (lstrip (w +:+ String NL EmptyString)) = true.
Proof.
  induction w as [|c w IH]; [now left|].
  rewrite append_cons. cbn [lstrip]. destruct (isspace c); [exact IH|].
  right. cbn [occurs]. rewrite occurs_app. cbn.
  now rewrite Ascii.eqb_refl, !orb_true_r.
Qed.

(** X10. A line made of one word and the line end is never expanded, be
    the word [%import] or [%env] itself: the directive names are looked up
    in the text before the first space, which here includes the line end. *)
Theorem single_word_line_unchanged :
  forall (os : OS) (self : SpecPreprocessor) (depth : nat) (word : string),
    constructed self ->
    occurs " " word = false ->
    _builtin_recursive_expand os self depth (word +:+ String NL EmptyString)
    = Returns (word +:+ String NL EmptyString).
Proof.
  intros os self depth word Hself Hword.
  set (line := word +:+ String NL EmptyString).
  assert (Hsplit : split1 " " (lstrip line) = [lstrip line]).
  { unfold split1. rewrite partition_none; [reflexivity|].
    apply occurs_lstrip. unfold line. rewrite occurs_app, Hword. reflexivity. }
  assert (Hnone : builtin_expanders self !! lstrip line = None).
  { destruct (builtin_expanders self !! lstrip line) as [b|] eqn:E; [|reflexivity].
    destruct (lstrip_line_end word) as [Hend|Hend]; fold line in Hend.
    - rewrite Hend in E.
      apply (builtin_lookup self _ _ Hself) in E as [[? _]|[? _]]; discriminate.
    - apply (builtin_lookup self _ _ Hself) in E as [[E _]|[E _]];
        rewrite E in Hend; discriminate. }
  destruct depth; cbn [_builtin_recursive_expand];
    now rewrite Hsplit, Hnone.
Qed.

Lemma single_word_line_unchanged_witness :
  _builtin_recursive_expand os_plain (new_preprocessor "/specs/a.spec") 0
    (nl "%import")
  = Returns (nl "%import").
Proof.
  refine (single_word_line_unchanged os_plain (new_preprocessor "/specs/a.spec")
            0 "%import" _ eq_refl).
  apply (constructed_init "/specs/a.spec"). reflexivity.
Defined.

(** X11. An import cycle never yields text. For every collection of
    lines of which each imports a readable file whose content, after lines
    without directive, has a line of the collection again: at every depth
    the expansion of such a line is a preprocessing error. *)
Theorem import_cycle_raises :
  forall (os : OS) (self : SpecPreprocessor) (cyclic : string -> Prop),
    constructed self ->
    (forall line, cyclic line ->
       exists (path : string) (pre post : list string) (next : string),
         imports self line path /\
         readlines os path = Some (pre ++ next :: post) /\
         plain pre /\ cyclic next) ->
    forall (depth : nat) (line : string),
      cyclic line ->
      exists msg,
        _builtin_recursive_expand os self depth line
        = Raises (PreprocessorError msg).
Proof.
  intros os self cyclic Hself Hcycle depth.
  induction depth as [|depth IH]; intros line Hline;
    destruct (Hcycle line Hline)
      as (path & pre & post & next & Himp & Hfile & Hpre & Hnext).
  - destruct Himp as (tail & _ & _ & Hstatement & _).
    cbn [_builtin_recursive_expand]. rewrite Hstatement.
    rewrite (constructed_builtin self Hself). eauto.
  - rewrite (_builtin_recursive_expand_import os self depth line path Hself Himp).
    rewrite Hfile, map_outcome_app, (map_outcome_plain os self depth pre)
      by assumption.
    cbn [bind map_outcome]. destruct (IH next Hnext) as [msg ->]. eauto.
Qed.

Lemma import_cycle_raises_witness :
  exists msg,
    _builtin_recursive_expand os_cycle (new_preprocessor "/d/A.spec") 7
      (nl "%import B")
    = Raises (PreprocessorError msg).
Proof.
  assert (Hself : constructed (new_preprocessor "/d/A.spec")).
  { apply (constructed_init "/d/A.spec"). reflexivity. }
  assert (HB : imports (new_preprocessor "/d/A.spec") (nl "%import B") "/d/B").
  { exists [nl "B"], "%import", (nl "B"). repeat split. discriminate. }
  assert (HA : imports (new_preprocessor "/d/A.spec") (nl "%import A.spec")
                 "/d/A.spec").
  { exists [nl "A.spec"], "%import", (nl "A.spec"). repeat split. discriminate. }
  refine (import_cycle_raises os_cycle (new_preprocessor "/d/A.spec")
            (fun l => l = nl "%import B" \/ l = nl "%import A.spec") Hself
            _ 7%nat (nl "%import B") (or_introl eq_refl)).
  intros line [-> | ->].
  - exists "/d/B", [nl "b: 1"], [], (nl "%import A.spec").
    split; [exact HB|]. split; [reflexivity|]. split; [repeat constructor|now right].
  - exists "/d/A.spec", [nl "a: 1"], [], (nl "%import B").
    split; [exact HA|]. split; [reflexivity|]. split; [repeat constructor|now left].
Defined.

Lemma for_each_import_mono (f g : string -> outcome string)
    (spec_f : list string) :
  (forall l y, f l = Returns y -> g l = Returns y) ->
  forall (lines x : string),
    for_each (fun lines line => x <- f line ;; Returns (lines +:+ x)) spec_f lines
      = Returns x ->
    for_each (fun lines line => x <- g line ;; Returns (lines +:+ x)) spec_f lines
      = Returns x.
Proof.
  intros Hfg. induction spec_f as [|line spec_f IH]; intros lines x; [auto|].
  cbn [for_each]. destruct (f line) as [y|e] eqn:Hf; [|discriminate].
  rewrite (Hfg line y Hf). cbn [bind]. apply IH.
Qed.

Lemma call_builtin_mono (os : OS) (self : SpecPreprocessor) (b : builtin)
    (f g : string -> outcome string) (line x : string) :
  (forall l y, f l = Returns y -> g l = Returns y) ->
  call_builtin os self b f line = Returns x ->
  call_builtin os self b g line = Returns x.
Proof.
  intros Hfg. destruct b; cbn [call_builtin].
  - unfold _import_expander.
    destruct (index (split1 " " line) 1) as [rest|]; [|discriminate].
    cbn [bind]. destruct (is_empty (strip rest)); [auto|].
    destruct (readlines os _); [|discriminate].
    now apply for_each_import_mono.
  - unfold _env_expander.
    destruct (shlex_split os line) as [tokens|]; [|discriminate].
    cbn [bind]. destruct (tl tokens); [auto|].
    destruct (map_outcome _ _) as [vals|]; [|discriminate].
    cbn [bind]. apply Hfg.
Qed.

Lemma _builtin_recursive_expand_S (os : OS) (self : SpecPreprocessor)
    (depth : nat) :
  forall (line x : string),
    _builtin_recursive_expand os self depth line = Returns x ->
    _builtin_recursive_expand os self (S depth) line = Returns x.
Proof.
  induction depth as [|depth IH]; intros line x.
  - cbn [_builtin_recursive_expand].
    destruct (split1 " " (lstrip line)) as [|statement tail]; [auto|].
    destruct (builtin_expanders self !! statement); [discriminate|auto].
  - intros H. cbn [_builtin_recursive_expand] in H.
    change (_builtin_recursive_expand os self (S (S depth)) line)
      with (match split1 " " (lstrip line) with
            | [] => Returns line
            | statement :: _ =>
                match builtin_expanders self !! statement with
                | None => Returns line
                | Some expander =>
                    match call_builtin os self expander
                            (_builtin_recursive_expand os self (S depth)) line with
                    | Raises (RuntimeError err) =>
                        Raises (PreprocessorError
                                  ("invalid preprocessor line: " +:+ err))
                    | r => r
                    end
                end
            end).
    destruct (split1 " " (lstrip line)) as [|statement tail]; [assumption|].
    destruct (builtin_expanders self !! statement) as [expander|]; [|assumption].
    destruct (call_builtin os self expander
                (_builtin_recursive_expand os self depth) line) as [y|e] eqn:E.
    + injection H as ->.
      now rewrite (call_builtin_mono os self expander _ _ line x IH E).
    + destruct e; discriminate.
Qed.

(** X12. The depth allowed only decides whether an expansion gets to its
    end: an expansion that returns at some depth returns the same text at
    every greater depth. *)
Theorem builtin_recursive_expand_depth :
  forall (os : OS) (self : SpecPreprocessor) (depth depth' : nat)
         (line x : string),
    (depth <= depth')%nat ->
    _builtin_recursive_expand os self depth line = Returns x ->
    _builtin_recursive_expand os self depth' line = Returns x.
Proof.
  intros os self depth depth' line x Hle H.
  induction Hle as [|depth' _ IH]; [assumption|].
  now apply _builtin_recursive_expand_S.
Qed.

Lemma builtin_recursive_expand_depth_witness :
  _builtin_recursive_expand os_chain (new_preprocessor "/d/A.spec") 9
    (nl "%import sub/B")
  = Returns (text_of [nl "b: 1"; nl "c: 1"; nl "b: 2"]).
Proof.
  refine (builtin_recursive_expand_depth os_chain (new_preprocessor "/d/A.spec")
            2 9 (nl "%import sub/B")
            (text_of [nl "b: 1"; nl "c: 1"; nl "b: 2"]) _ eq_refl).
  lia.
Defined.

Lemma expand_not_builtin (os : OS) (self : SpecPreprocessor) (depth : nat)
    (line : string) :
  constructed self ->
  not_builtin line ->
  _builtin_recursive_expand os self depth line = Returns line.
Proof.
  intros Hself Hline.
  assert (H : match split1 " " (lstrip line) with
              | [] => True
              | statement :: _ => builtin_expanders self !! statement = None
              end).
  { destruct (split1 " " (lstrip line)) as [|statement tail] eqn:E; [exact I|].
    destruct (builtin_expanders self !! statement) as [b|] eqn:Hb; [|reflexivity].
    destruct (Hline tail) as [H1 H2]. rewrite E in H1, H2.
    apply (builtin_lookup self _ _ Hself) in Hb as [[-> _]|[-> _]];
      [now destruct H1|now destruct H2]. }
  destruct depth; cbn [_builtin_recursive_expand];
    destruct (split1 " " (lstrip line)) as [|statement tail]; try reflexivity;
    now rewrite H.
Qed.

(** X15. The expanders registered by a caller are applied once and their
    output is not scanned again: on a spec file without built-in
    directive, [parse] returns the lines of the text made of, for each
    line in order, what the expander registered for its first word
    returns, or the line itself when none is registered; an import
    directive in the output of such an expander stays as text. *)
Theorem registered_expanders_once :
  forall (os : OS) (self : SpecPreprocessor) (depth : nat) (lines : list string),
    constructed self ->
    readlines os (_spec_path self) = Some lines ->
    Forall not_builtin lines ->
    SpecPreprocessor_parse os self depth
    = (xs <- map_outcome (expand_registered self) lines ;;
       Returns (split NL (text_of xs)))
    /\ (forall line statement tail expander,
          split1 " " line = statement :: tail ->
          expanders self !! statement = Some expander ->
          expand_registered self line = expander line)
    /\ (forall line statement tail,
          split1 " " line = statement :: tail ->
          expanders self !! statement = None ->
          expand_registered self line = Returns line).
Proof.
  intros os self depth lines Hself Hfile Hlines. split; [|split].
  - unfold SpecPreprocessor_parse. rewrite Hfile.
    rewrite map_outcome_id; [reflexivity|].
    eapply List.Forall_impl; [|exact Hlines]. intros line Hline.
    now apply expand_not_builtin.
  - intros line statement tail expander Hsplit Hget.
    unfold expand_registered. now rewrite Hsplit, Hget.
  - intros line statement tail Hsplit Hget.
    unfold expand_registered. now rewrite Hsplit, Hget.
Qed.

Lemma registered_expanders_once_witness :
  SpecPreprocessor_parse os_foo preprocessor_foo 3
  = Returns ["%import x"; "b: 1"; ""].
Proof.
  assert (Hself : constructed preprocessor_foo).
  { apply (constructed_add (new_preprocessor "/specs/a.spec") preprocessor_foo
             "foo" foo_expander); [|reflexivity].
    apply (constructed_init "/specs/a.spec"). reflexivity. }
  assert (Hlines : Forall not_builtin [nl "%foo a"; nl "b: 1"]).
  { apply List.Forall_cons; [|apply List.Forall_cons; [|apply List.Forall_nil]];
      intros tail; split; discriminate. }
  rewrite (proj1 (registered_expanders_once os_foo preprocessor_foo 3
                    [nl "%foo a"; nl "b: 1"] Hself eq_refl Hlines)).
  reflexivity.
Defined.

End PreprocessorExtras.

(* ===================================================================== *)
(** * Further properties of the spec parser *)
(* ===================================================================== *)

Section ParserExtras.

Import settings settings_init.
Local Open Scope py_scope.

Lemma partition_some (c : ascii) (s : string) :
  occurs c s = true -> exists k v, partition c s = Some (k, v).
Proof.
  induction s as [|x s IH]; [discriminate|]. cbn [occurs partition].
  destruct (Ascii.eqb x c); [eauto|]. cbn [orb]. intros H.
  destruct (IH H) as (k & v & ->). eauto.
Qed.

Lemma occurs_strip (c : ascii) (s : string) :
  occurs c s = false -> occurs c (strip s) = false.
Proof. intros H. unfold strip. now apply occurs_lstrip, occurs_rstrip. Qed.

(** X16. [parse_line_statement] gives nothing exactly for the lines
    without colon. Otherwise it cuts the line at its first colon: the key
    is the stripped text before it and holds no colon, the value is the
    stripped text after it, which may hold further colons; stripping
    either again changes nothing. *)
Theorem parse_line_statement_spec :
  forall line : string,
    (parse_line_statement line = None <-> occurs ":" line = false)
    /\ (forall key value,
          parse_line_statement line = Some (key, value) ->
          exists k v,
            line = k +:+ String ":" v /\ occurs ":" k = false /\
            key = strip k /\ value = strip v /\
            strip key = key /\ strip value = value /\
            occurs ":" key = false).
Proof.
  intros line. split.
  - unfold parse_line_statement, split1. split.
    + destruct (occurs ":" line) eqn:E; [|reflexivity].
      destruct (partition_some ":" line E) as (k & v & ->). discriminate.
    + intros H. now rewrite partition_none.
  - intros key value H.
    apply parse_line_statement_inv in H as (k & v & -> & Hk & -> & ->).
    exists k, v. rewrite !strip_idem. repeat split; auto.
    now apply occurs_strip.
Qed.

Lemma parse_line_statement_spec_witness :
  parse_line_statement "url : http://host:80/x "
  = Some ("url", "http://host:80/x")
  /\ parse_line_statement "no colon here" = None.
Proof.
  split; [reflexivity|].
  exact (proj2 (proj1 (parse_line_statement_spec "no colon here")) eq_refl).
Defined.

(** X17. Every generic line is stripped: it has no whitespace at either
    end. There are at most as many generic lines as preprocessed lines. *)
Theorem generic_lines_stripped :
  forall content : list string,
    Forall (fun line => strip line = line) (generic_lines content)
    /\ (length (generic_lines content) <= length content)%nat.
Proof.
  intros content. unfold generic_lines. split.
  - apply List.Forall_forall. intros line Hin.
    apply in_map_iff in Hin as (x & <- & _). apply strip_idem.
  - rewrite length_map. apply List.filter_length_le.
Qed.

Lemma merge_pair_keys (self : SpecParser) (mydict mydict' : gmap string pyval)
    (k raw key : string) :
  merge_pair self mydict k raw = Returns mydict' ->
  is_Some (mydict' !! key) ->
  is_Some (mydict !! key) \/ is_Some (parameters self !! key).
Proof.
  intros Hmerge Hkey. destruct (decide (k = key)) as [<-|Hne].
  - unfold merge_pair in Hmerge.
    destruct (parameters self !! k) as [entry|]; [right; eauto|].
    injection Hmerge as <-. now left.
  - left. now rewrite <- (merge_pair_other self mydict mydict' k raw key Hmerge Hne).
Qed.

Lemma scan_keys (self : SpecParser) (data : list string) :
  forall (mydict : gmap string pyval) (old_key : option string)
         (st : gmap string pyval * option string) (key : string),
    for_each (parse_line self) data (mydict, old_key) = Returns st ->
    is_Some (st.1 !! key) ->
    is_Some (mydict !! key) \/ is_Some (parameters self !! key).
Proof.
  induction data as [|line rest IH]; intros mydict old_key st key Hscan Hkey.
  { simpl in Hscan. injection Hscan as <-. now left. }
  cbn [for_each] in Hscan. unfold parse_line in Hscan at 1.
  destruct (resolve_line self old_key line) as [[[k raw]|] old_key'].
  - destruct (merge_pair self mydict k raw) as [mydict'|] eqn:Hmerge;
      [|discriminate].
    cbn [bind] in Hscan. destruct (IH _ _ _ _ Hscan Hkey) as [H|H]; [|now right].
    eapply merge_pair_keys; eauto.
  - cbn [bind] in Hscan. eauto.
Qed.

(** X18. What [parse] returns holds the reserved ['__plugin__'] entry with
    the strategy instance, holds every vital parameter, and holds no key
    from outside the schema: every other key is a parameter name of the
    strategy. *)
Theorem parse_result_keys :
  forall (os : OS) (self : SpecParser) (depth : nat)
         (mydict : gmap string pyval),
    SpecParser_parse os self depth = Returns mydict ->
    mydict !! "__plugin__" = Some (plugin self)
    /\ Forall (fun param => is_Some (mydict !! param)) (vital_parameters self)
    /\ (forall key, is_Some (mydict !! key) ->
          key = "__plugin__" \/ is_Some (parameters self !! key)).
Proof.
  intros os self depth mydict. unfold SpecParser_parse.
  destruct (_generic_parser os self depth) as [data|]; [|discriminate].
  cbn [bind]. unfold parse_data.
  destruct (for_each (parse_line self) data (∅, None)) as [st|] eqn:Hscan;
    [|discriminate].
  cbn [bind].
  destruct (validate_parse self _) as [[]|] eqn:Hvalid; [|discriminate].
  cbn [bind]. intros H. injection H as <-.
  split; [apply lookup_insert_eq|]. split.
  - apply List.Forall_forall. intros param Hin.
    destruct (<["__plugin__" := plugin self]> st.1 !! param) eqn:E; [eauto|].
    exfalso.
    destruct (first_missing _ (vital_parameters self)
                (ex_intro _ param (conj Hin E)))
      as (present & p & absent & Hvital & Hpresent & Hp).
    rewrite (validate_parse_missing self _ present absent p Hvital Hpresent Hp)
      in Hvalid.
    discriminate.
  - intros key Hkey. destruct (decide ("__plugin__" = key)) as [<-|Hne];
      [now left|right].
    rewrite lookup_insert_ne in Hkey by assumption.
    destruct (scan_keys self data ∅ None st key Hscan Hkey) as [H|H];
      [|assumption].
    rewrite lookup_empty in H. now destruct H.
Qed.

Lemma parse_result_keys_witness :
  exists mydict,
    SpecParser_parse os_complete example_parser 0 = Returns mydict
    /\ mydict !! "__plugin__" = Some (VPlugin "example")
    /\ mydict !! "unknown" = None.
Proof.
  destruct (SpecParser_parse os_complete example_parser 0) as [mydict|e] eqn:Hparse;
    [|vm_compute in Hparse; discriminate].
  destruct (parse_result_keys os_complete example_parser 0 mydict Hparse)
    as (Hplugin & _ & Hkeys).
  exists mydict. split; [reflexivity|]. split; [exact Hplugin|].
  destruct (mydict !! "unknown") eqn:E; [|reflexivity].
  destruct (Hkeys "unknown") as [H|[entry H]]; [eauto|discriminate|].
  vm_compute in H. discriminate.
Defined.

Lemma merge_pair_raises (self : SpecParser) (mydict : gmap string pyval)
    (key raw : string) (e : exn) :
  merge_pair self mydict key raw = Raises e -> e = TypeError.
Proof.
  unfold merge_pair.
  destruct (parameters self !! key) as [entry|]; [|discriminate].
  destruct (verifier entry (parser entry raw)); cbn [negb]; [|discriminate].
  destruct (mydict !! key) as [old|]; [|discriminate].
  destruct (parser entry raw) as [| | |s|xs|]; try discriminate.
  - destruct old; cbn; intros H; try discriminate; now injection H as <-.
  - destruct old; cbn; intros H; try discriminate; now injection H as <-.
Qed.

Lemma scan_raises (self : SpecParser) (data : list string) :
  forall (st : gmap string pyval * option string) (e : exn),
    for_each (parse_line self) data st = Raises e -> e = TypeError.
Proof.
  induction data as [|line rest IH]; intros [mydict old_key] e; [discriminate|].
  cbn [for_each]. unfold parse_line at 1.
  destruct (resolve_line self old_key line) as [[[k raw]|] old_key'].
  - destruct (merge_pair self mydict k raw) as [mydict'|e'] eqn:Hmerge;
      cbn [bind].
    + apply IH.
    + intros H. injection H as <-. eapply merge_pair_raises; eauto.
  - cbn [bind]. apply IH.
Qed.

Lemma merge_pair_accumulates_inv (self : SpecParser)
    (mydict mydict' : gmap string pyval) (key raw : string)
    (later : list pyval) :
  merge_pair self mydict key raw = Returns mydict' ->
  accumulates (mydict' !! key) later ->
  accumulates (mydict !! key) (accepted_value self key (key, raw) ++ later).
Proof.
  unfold merge_pair, accepted_value. cbn [fst snd]. rewrite String.eqb_refl.
  destruct (parameters self !! key) as [entry|];
    [|intros H; now injection H as <-].
  destruct (verifier entry (parser entry raw)); cbn [negb app];
    [|intros H; now injection H as <-].
  destruct (mydict !! key) as [old|] eqn:Hold; cbn [accumulates].
  - destruct (parser entry raw) as [| | |s|xs|];
      try (intros H; injection H as <-; now rewrite Hold).
    + destruct (iadd old (VStr (" " +:+ s))) as [v|]; [|discriminate].
      cbn [bind]. intros H. injection H as <-. now rewrite lookup_insert_eq.
    + destruct (iadd old (VList xs)) as [v|]; [|discriminate].
      cbn [bind]. intros H. injection H as <-. now rewrite lookup_insert_eq.
  - intros H. injection H as <-. now rewrite lookup_insert_eq.
Qed.

Lemma scan_accumulates (self : SpecParser) (data : list string) :
  forall (mydict : gmap string pyval) (old_key : option string)
         (st : gmap string pyval * option string) (key : string),
    for_each (parse_line self) data (mydict, old_key) = Returns st ->
    accumulates (mydict !! key)
      (flat_map (accepted_value self key) (resolved_pairs self old_key data)).
Proof.
  induction data as [|line rest IH]; intros mydict old_key st key Hscan;
    [exact I|].
  cbn [for_each resolved_pairs] in *. unfold parse_line in Hscan at 1.
  destruct (resolve_line self old_key line) as [[[k raw]|] old_key'].
  - destruct (merge_pair self mydict k raw) as [mydict'|] eqn:Hmerge;
      [|discriminate].
    cbn [bind] in Hscan. specialize (IH _ _ _ key Hscan). cbn [flat_map].
    destruct (decide (k = key)) as [<-|Hne].
    + eapply merge_pair_accumulates_inv; eauto.
    + rewrite accepted_value_other by assumption. cbn [app].
      now rewrite <- (merge_pair_other self mydict mydict' k raw key Hmerge Hne).
  - cbn [bind] in Hscan. eauto.
Qed.

Lemma validate_parse_raises (self : SpecParser) (mydata : gmap string pyval)
    (e : exn) :
  validate_parse self mydata = Raises e ->
  exists param, e = SpecFileError (missing_parameter_message self param).
Proof.
  unfold validate_parse.
  induction (vital_parameters self) as [|param rest IH]; [discriminate|].
  cbn [for_each]. destruct (mydata !! param); cbn [bind]; [exact IH|].
  intros H. injection H as <-. now exists param.
Qed.

End ParserExtras.

(* ===================================================================== *)
(** * Properties of [SpecParser.parse] over callables that may raise *)
(* ===================================================================== *)

Section ParserAnyProperties.

Import settings settings_any.
Local Open Scope py_scope.

Lemma merge_pair_any_raises (callables : gmap string check_callables)
    (mydict : gmap string pyval) (key raw : string) (e : exn) :
  merge_pair_any callables mydict key raw = Raises e ->
  e = TypeError \/ raised_by_schema callables e.
Proof.
  unfold merge_pair_any.
  destruct (callables !! key) as [entry|] eqn:Hentry; [|discriminate].
  destruct (parser_call entry raw) as [value|e'] eqn:Hparser; cbn [bind].
  2:{ intros H. injection H as <-. right. exists key, entry, raw. auto. }
  destruct (verifier_call entry value) as [accepted|e'] eqn:Hverifier;
    cbn [bind].
  2:{ intros H. injection H as <-. right. exists key, entry, raw.
      split; [assumption|]. right. eauto. }
  destruct accepted; cbn [negb]; [|discriminate].
  destruct (mydict !! key) as [old|]; [|discriminate].
  destruct value as [| | |s|xs|]; try discriminate.
  - destruct old; cbn; try discriminate; intros H; injection H as <-; now left.
  - destruct old; cbn; try discriminate; intros H; injection H as <-; now left.
Qed.

Lemma scan_any_raises (callables : gmap string check_callables)
    (data : list string) :
  forall (st : gmap string pyval * option string) (e : exn),
    for_each (parse_line_any callables) data st = Raises e ->
    e = TypeError \/ raised_by_schema callables e.
Proof.
  induction data as [|line rest IH]; intros [mydict old_key] e; [discriminate|].
  cbn [for_each]. unfold parse_line_any at 1.
  destruct (resolve_line_any callables old_key line) as [[[k raw]|] old_key'].
  - destruct (merge_pair_any callables mydict k raw) as [mydict'|e'] eqn:Hmerge;
      cbn [bind].
    + apply IH.
    + intros H. injection H as <-. eapply merge_pair_any_raises; eauto.
  - cbn [bind]. apply IH.
Qed.

Lemma resolve_line_returning (self : SpecParser) (old_key : option string)
    (line : string) :
  resolve_line_any (returning <$> parameters self) old_key line
  = resolve_line self old_key line.
Proof.
  unfold resolve_line_any, resolve_line.
  destruct (parse_line_statement line) as [[k v]|]; cbn; [|reflexivity].
  rewrite lookup_fmap. now destruct (parameters self !! k).
Qed.

Lemma merge_pair_returning (self : SpecParser) (mydict : gmap string pyval)
    (key raw : string) :
  merge_pair_any (returning <$> parameters self) mydict key raw
  = merge_pair self mydict key raw.
Proof.
  unfold merge_pair_any, merge_pair. rewrite lookup_fmap.
  now destruct (parameters self !! key).
Qed.

Lemma scan_returning (self : SpecParser) (data : list string) :
  forall st : gmap string pyval * option string,
    for_each (parse_line_any (returning <$> parameters self)) data st
    = for_each (parse_line self) data st.
Proof.
  induction data as [|line rest IH]; intros [mydict old_key]; [reflexivity|].
  cbn [for_each]. unfold parse_line_any at 1, parse_line at 1.
  rewrite resolve_line_returning.
  destruct (resolve_line self old_key line) as [[[k raw]|] old_key'].
  - rewrite merge_pair_returning.
    destruct (merge_pair self mydict k raw); cbn [bind]; [apply IH|reflexivity].
  - cbn [bind]. apply IH.
Qed.

(** X19. The errors of the parse of generic lines, the parser and the
    verifier of an entry being callables that may raise. [parse] raises
    nothing but: [TypeError], from a [+=] that Python rejects;
    [SpecFileError], from the validation of the vital parameters; and what
    the parser or the verifier of an entry of the schema raised on some
    text, which [parse] lets through. For a schema whose parsers and
    verifiers return for every input, the parse is that of the schema of
    plain functions; the scan then builds a mapping exactly when, for
    every key, its accepted values accumulate in order, and a key accepted
    first with a string and next with a list makes [parse] raise
    [TypeError]. *)
Theorem parse_data_errors :
  forall (self : SpecParser) (callables : gmap string check_callables)
         (data : list string),
    (forall e, parse_data_any self callables data = Raises e ->
       e = TypeError
       \/ (exists param,
             e = SpecFileError (missing_parameter_message self param))
       \/ raised_by_schema callables e)
    /\ (callables = returning <$> parameters self ->
        parse_data_any self callables data = parse_data self data
        /\ ((exists st,
            for_each (parse_line_any callables) data (∅, None) = Returns st)
         <-> forall key, accumulates None (accepted_values self key data))
        /\ (forall key s xs later,
              accepted_values self key data = VStr s :: VList xs :: later ->
              parse_data_any self callables data = Raises TypeError)).
Proof.
  intros self callables data. split.
  - intros e. unfold parse_data_any.
    destruct (for_each (parse_line_any callables) data (∅, None))
      as [st|e'] eqn:Hscan; cbn [bind].
    + destruct (validate_parse self _) as [[]|e''] eqn:Hvalid; cbn [bind];
        [discriminate|].
      intros H. injection H as <-. right. left.
      eapply validate_parse_raises; eauto.
    + intros H. injection H as <-.
      destruct (scan_any_raises _ _ _ _ Hscan) as [->|Hschema]; auto.
  - intros ->.
    assert (Hiff : (exists st, for_each (parse_line self) data (∅, None)
                               = Returns st)
                   <-> forall key, accumulates None (accepted_values self key data)).
    { split.
      - intros [st Hscan] key.
        pose proof (scan_accumulates self data ∅ None st key Hscan) as H.
        now rewrite lookup_empty in H.
      - intros Hall. apply scan_returns. intros key. rewrite lookup_empty.
        apply Hall. }
    split; [|split].
    + unfold parse_data_any, parse_data. now rewrite scan_returning.
    + now rewrite scan_returning.
    + intros key s xs later Hacc. unfold parse_data_any.
      rewrite scan_returning.
      destruct (for_each (parse_line self) data (∅, None)) as [st|e] eqn:Hscan;
        cbn [bind].
      * exfalso.
        pose proof (scan_accumulates self data ∅ None st key Hscan) as H.
        rewrite lookup_empty in H. fold (accepted_values self key data) in H.
        rewrite Hacc in H. exact H.
      * now rewrite (scan_raises self data _ e Hscan).
Qed.

Lemma parse_data_errors_witness :
  raised_by_schema splitter_schema ValueError.
Proof.
  destruct (proj1 (parse_data_errors example_parser splitter_schema
                     ["cmd: ls"; "cmd: bad"; "cmd: pwd"]) ValueError)
    as [H|[[param H]|H]].
  - vm_compute. reflexivity.
  - discriminate H.
  - discriminate H.
  - exact H.
Defined.

End ParserAnyProperties.

(* ===================================================================== *)
(** * Properties of [SpecParser.__init__] *)
(* ===================================================================== *)

Section StrategyProperties.

Import settings settings_init settings_more.
Local Open Scope py_scope.

Lemma strategy_line_statement (line value : string) :
  strategy_line line = Some value <-> strategy_statement line value.
Proof.
  unfold strategy_line, strategy_statement. split.
  - destruct (startswith line EXECUTION_STRATEGY_KEY) eqn:Hstart;
      [|discriminate].
    apply startswith_app in Hstart as [tail ->].
    unfold parse_line_statement, split1.
    rewrite partition_app_left by reflexivity.
    destruct (partition ":" tail) as [[x y]|] eqn:Htail; [|discriminate].
    apply partition_inv in Htail as [-> Hx].
    destruct (String.eqb_spec (strip (EXECUTION_STRATEGY_KEY +:+ x))
                EXECUTION_STRATEGY_KEY) as [Hkey|]; [|discriminate].
    intros H. injection H as <-. exists x, y. split; [reflexivity|].
    split; [|reflexivity]. apply all_space_rstrip.
    unfold strip in Hkey. rewrite rstrip_app in Hkey.
    destruct (rstrip x) as [|d r]; [reflexivity|].
    vm_compute in Hkey. discriminate.
  - intros (ws & rest & -> & Hws & ->).
    rewrite startswith_app_intro. unfold parse_line_statement, split1.
    rewrite partition_app_left by reflexivity.
    rewrite partition_app_left by (now apply all_space_occurs).
    cbn [partition]. rewrite Ascii.eqb_refl, append_nil_r.
    unfold strip. rewrite rstrip_app.
    rewrite (proj2 (all_space_rstrip ws) Hws). reflexivity.
Qed.

Lemma parse_execution_strategy_cons (line : string) (rest : list string) :
  parse_execution_strategy (line :: rest) =
    match strategy_line line with
    | Some value => Some value
    | None => parse_execution_strategy rest
    end.
Proof.
  cbn [parse_execution_strategy]. unfold strategy_line.
  destruct (startswith line EXECUTION_STRATEGY_KEY); [|reflexivity].
  cbn [negb]. destruct (parse_line_statement line) as [[key value]|];
    [|reflexivity].
  now destruct (String.eqb key EXECUTION_STRATEGY_KEY).
Qed.

(** X20. The execution strategy of a spec file is stated by its first
    generic line made of the key [execution_strategy], whitespace only and
    a colon: the strategy is the stripped text after that colon, later
    such lines are not looked at, and lines that merely start with the key
    are passed over. Without such a line there is no strategy. *)
Theorem parse_execution_strategy_first :
  forall data : list string,
    (forall value,
       parse_execution_strategy data = Some value <->
       exists before line after,
         data = before ++ line :: after /\
         Forall (fun l => forall v, ~ strategy_statement l v) before /\
         strategy_statement line value)
    /\ (parse_execution_strategy data = None <->
        Forall (fun l => forall v, ~ strategy_statement l v) data).
Proof.
  induction data as [|line rest [IHsome IHnone]].
  - split.
    + intros value. split; [discriminate|].
      intros (before & l & after & H & _). now destruct before.
    + split; [constructor|reflexivity].
  - rewrite parse_execution_strategy_cons.
    destruct (strategy_line line) as [v0|] eqn:Hline.
    + apply strategy_line_statement in Hline. split.
      * intros value. split.
        -- intros H. injection H as <-. exists [], line, rest.
           split; [reflexivity|]. split; [constructor|assumption].
        -- intros (before & l & after & Hdata & Hbefore & Hl).
           destruct before as [|b before]; cbn [app] in Hdata;
             injection Hdata as ? ?; subst.
           ++ apply strategy_line_statement in Hl, Hline. congruence.
           ++ apply List.Forall_inv in Hbefore. now destruct (Hbefore v0).
      * split; [discriminate|]. intros H. apply List.Forall_inv in H.
        now destruct (H v0).
    + assert (Hnot : forall v, ~ strategy_statement line v).
      { intros v Hv. apply strategy_line_statement in Hv. congruence. }
      split.
      * intros value. rewrite IHsome. split.
        -- intros (before & l & after & Hdata & Hbefore & Hl).
           exists (line :: before), l, after. split; [now rewrite Hdata|].
           split; [now apply List.Forall_cons|assumption].
        -- intros (before & l & after & Hdata & Hbefore & Hl).
           destruct before as [|b before]; cbn [app] in Hdata;
             injection Hdata as ? ?; subst.
           ++ now destruct (Hnot value).
           ++ exists before, l, after. split; [reflexivity|].
              split; [now apply List.Forall_inv_tail in Hbefore|assumption].
      * rewrite IHnone. split.
        -- intros H. now apply List.Forall_cons.
        -- intros H. now apply List.Forall_inv_tail in H.
Qed.

Lemma parse_execution_strategy_first_witness :
  parse_execution_strategy
    ["execution_strategy_note: x"; "execution_strategy : example";
     "name: a"; "execution_strategy: other"]
  = Some "example".
Proof.
  apply (proj2 (proj1 (parse_execution_strategy_first _) "example")).
  exists ["execution_strategy_note: x"], "execution_strategy : example",
    ["name: a"; "execution_strategy: other"].
  split; [reflexivity|]. split.
  - apply List.Forall_cons; [|apply List.Forall_nil].
    intros v Hv. apply strategy_line_statement in Hv. discriminate.
  - exists " ", " example". split; [reflexivity|]. split; reflexivity.
Defined.

Lemma parse_execution_strategy_none (data : list string) :
  Forall (fun l => forall v, ~ strategy_statement l v) data ->
  parse_execution_strategy data = None.
Proof.
  induction 1 as [|line rest Hline _ IH]; [reflexivity|].
  rewrite parse_execution_strategy_cons.
  destruct (strategy_line line) as [v|] eqn:E; [|exact IH].
  apply strategy_line_statement in E. now destruct (Hline v).
Qed.

(** X21. The constructor of the parser. An exception of the
    preprocessor leaves the constructor as it is. Once the preprocessor
    has returned the content of the spec file: a file none of whose
    generic lines states a strategy is refused with [SpecFileError],
    whatever the registry of plugins holds, and so is a file whose
    strategy is not in the registry; for a registered strategy the plugin
    class is instantiated with the file path, then asked for its vital
    parameters and then for its schema, and what any of the three raises
    leaves the constructor. A parser that is built holds the file path,
    the vital parameters and the schema the instance returned, and the
    strategy stated by the file. *)
Theorem SpecParser_init_outcome :
  forall (os : OS) (spec_plugins : gmap string plugin_class)
         (file_path : string) (depth : nat),
    (forall e,
       SpecPreprocessor_parse os (new_preprocessor file_path) depth = Raises e ->
       SpecParser_init os spec_plugins file_path depth = Raises e)
    /\ (forall content,
          SpecPreprocessor_parse os (new_preprocessor file_path) depth
          = Returns content ->
          (Forall (fun l => forall v, ~ strategy_statement l v)
                  (generic_lines content) ->
           SpecParser_init os spec_plugins file_path depth
           = Raises (SpecFileError
                       (unsupported_strategy_message file_path None)))
          /\ (forall s,
                parse_execution_strategy (generic_lines content) = Some s ->
                spec_plugins !! s = None ->
                SpecParser_init os spec_plugins file_path depth
                = Raises (SpecFileError
                            (unsupported_strategy_message file_path (Some s))))
          /\ (forall s plugin_cls,
                parse_execution_strategy (generic_lines content) = Some s ->
                spec_plugins !! s = Some plugin_cls ->
                SpecParser_init os spec_plugins file_path depth
                = (instance <- plugin_new plugin_cls file_path ;;
                   vital <- plugin_vital_parameters instance ;;
                   params <- plugin_parameters instance ;;
                   Returns {| filepath := file_path;
                              _preprocessor := new_preprocessor file_path;
                              plugin := VPlugin s;
                              vital_parameters := vital;
                              parameters := params |}))
          /\ (forall self,
                SpecParser_init os spec_plugins file_path depth = Returns self ->
                exists s plugin_cls instance,
                  parse_execution_strategy (generic_lines content) = Some s /\
                  spec_plugins !! s = Some plugin_cls /\
                  plugin_new plugin_cls file_path = Returns instance /\
                  plugin_vital_parameters instance
                  = Returns (vital_parameters self) /\
                  plugin_parameters instance = Returns (parameters self) /\
                  filepath self = file_path /\
                  plugin self = VPlugin s)).
Proof.
  intros os spec_plugins file_path depth.
  unfold SpecParser_init. rewrite SpecPreprocessor_init_new. cbn [bind]. split.
  { intros e ->. reflexivity. }
  intros content ->. cbn [bind]. split; [|split; [|split]].
  - intros Hnone. now rewrite (parse_execution_strategy_none _ Hnone).
  - intros s -> Hs. cbn. now rewrite Hs.
  - intros s plugin_cls -> Hs. cbn. now rewrite Hs.
  - intros self.
    destruct (parse_execution_strategy (generic_lines content)) as [s|];
      [|discriminate].
    cbn. destruct (spec_plugins !! s) as [plugin_cls|] eqn:Hs; [|discriminate].
    destruct (plugin_new plugin_cls file_path) as [instance|] eqn:Hnew;
      [|discriminate].
    cbn [bind].
    destruct (plugin_vital_parameters instance) as [vital|] eqn:Hvital;
      [|discriminate].
    cbn [bind].
    destruct (plugin_parameters instance) as [params|] eqn:Hparams;
      [|discriminate].
    cbn [bind]. intros H. injection H as <-.
    exists s, plugin_cls, instance. cbn. auto 10.
Qed.

Lemma SpecParser_init_outcome_witness :
  SpecParser_init os_unknown_strategy example_plugins "/specs/a.spec" 5
  = Raises (SpecFileError
              (unsupported_strategy_message "/specs/a.spec" (Some "livecd")))
  /\ SpecParser_init os_strategy example_plugins "/specs/a.spec" 5
     = Returns example_parser.
Proof.
  split.
  - assert (H : SpecPreprocessor_parse os_unknown_strategy
                  (new_preprocessor "/specs/a.spec") 5
                = Returns ["execution_strategy: livecd"; "name: a"; ""])
      by (vm_compute; reflexivity).
    exact (proj1 (proj2 (proj2 (SpecParser_init_outcome os_unknown_strategy
                           example_plugins "/specs/a.spec" 5) _ H))
             "livecd" eq_refl eq_refl).
  - assert (H : SpecPreprocessor_parse os_strategy
                  (new_preprocessor "/specs/a.spec") 5
                = Returns ["# image"; "execution_strategy_note: x";
                           "execution_strategy: example"; "name: a";
                           "execution_strategy: other"; ""])
      by (vm_compute; reflexivity).
    refine (eq_trans
              (proj1 (proj2 (proj2 (proj2 (SpecParser_init_outcome os_strategy
                        example_plugins "/specs/a.spec" 5) _ H)))
                 "example" _ eq_refl eq_refl) _).
    reflexivity.
Defined.

End StrategyProperties.

(* ===================================================================== *)
(** * Properties of the helpers of the schemas *)
(* ===================================================================== *)

Section SkelProperties.

Import settings settings_init utils skel.

Lemma split_nonempty (c : ascii) (s : string) : split c s <> [].
Proof.
  induction s as [|a s IH]; cbn [split]; [discriminate|].
  destruct (Ascii.eqb a c); [discriminate|].
  destruct (split c s); discriminate.
Qed.

Lemma split_no_sep (c : ascii) (s : string) :
  Forall (fun x => occurs c x = false) (split c s).
Proof.
  induction s as [|a s IH]; cbn [split].
  - apply List.Forall_cons; [reflexivity|apply List.Forall_nil].
  - destruct (Ascii.eqb a c) eqn:Ha.
    + apply List.Forall_cons; [reflexivity|exact IH].
    + destruct (split c s) as [|hd tl].
      * apply List.Forall_cons; [|apply List.Forall_nil].
        cbn [occurs]. now rewrite Ha.
      * apply List.Forall_cons; [|now apply List.Forall_inv_tail in IH].
        cbn [occurs]. rewrite Ha. now apply List.Forall_inv in IH.
Qed.

Lemma split_none (c : ascii) (s : string) :
  occurs c s = false -> split c s = [s].
Proof.
  induction s as [|a s IH]; [reflexivity|]. cbn [occurs split]. intros H.
  apply orb_false_iff in H as [Ha Hs]. now rewrite Ha, (IH Hs).
Qed.

Lemma split_app (c : ascii) (x t : string) :
  occurs c x = false -> split c (x +:+ String c t) = x :: split c t.
Proof.
  induction x as [|a x IH]; intros H.
  - change (EmptyString +:+ String c t) with (String c t). cbn [split].
    now rewrite Ascii.eqb_refl.
  - rewrite append_cons. cbn [occurs] in H.
    apply orb_false_iff in H as [Ha Hx]. cbn [split].
    now rewrite Ha, (IH Hx).
Qed.

Lemma strip_space_cons (c : ascii) (s : string) :
  isspace c = true -> strip (String c s) = strip s.
Proof.
  intros Hc. rewrite <- (strip_lstrip (String c s)). cbn [lstrip].
  rewrite Hc. apply strip_lstrip.
Qed.

Lemma _comma_separate_space_cons (c : ascii) (t : string) :
  isspace c = true -> _comma_separate (String c t) = _comma_separate t.
Proof.
  intros Hc. unfold _comma_separate. cbn [split].
  destruct (Ascii.eqb_spec c ",") as [->|_]; [discriminate|].
  destruct (split "," t) as [|hd tl] eqn:E; [now apply split_nonempty in E|].
  cbn [List.filter]. rewrite (strip_space_cons c hd Hc).
  destruct (is_empty (strip hd)); cbn [negb map]; [reflexivity|].
  now rewrite (strip_space_cons c hd Hc).
Qed.

Lemma _comma_separate_ws (ws t : string) :
  all_space ws = true -> _comma_separate (ws +:+ t) = _comma_separate t.
Proof.
  induction ws as [|c ws IH]; intros H; [reflexivity|].
  rewrite append_cons. cbn [all_space] in H.
  apply andb_true_iff in H as [Hc Hws].
  rewrite _comma_separate_space_cons by assumption. auto.
Qed.

Lemma _comma_separate_app (x t : string) :
  occurs "," x = false ->
  _comma_separate (x +:+ String "," t) =
    (if is_empty (strip x) then [] else [strip x]) ++ _comma_separate t.
Proof.
  intros H. unfold _comma_separate. rewrite split_app by assumption.
  cbn [List.filter]. now destruct (is_empty (strip x)).
Qed.

Lemma _comma_separate_single (x : string) :
  occurs "," x = false ->
  _comma_separate x = if is_empty (strip x) then [] else [strip x].
Proof.
  intros H. unfold _comma_separate. rewrite split_none by assumption.
  cbn [List.filter]. now destruct (is_empty (strip x)).
Qed.

Lemma _comma_separate_all_items (s : string) : Forall item (_comma_separate s).
Proof.
  unfold _comma_separate. apply List.Forall_forall. intros y Hy.
  apply in_map_iff in Hy as (x & <- & Hx).
  apply List.filter_In in Hx as [Hin Hne].
  pose proof (proj1 (List.Forall_forall _ _) (split_no_sep "," s) x Hin) as Hc.
  cbn beta in Hc. split; [|split].
  - intros E. rewrite E in Hne. discriminate.
  - apply strip_idem.
  - now apply occurs_strip.
Qed.

Lemma item_single (x : string) :
  item x -> (if is_empty (strip x) then [] else [strip x]) = [x].
Proof.
  intros (Hne & Hstrip & _). rewrite Hstrip. now destruct x.
Qed.

Lemma occurs_lstrip_nonspace (c : ascii) (s : string) :
  isspace c = false -> occurs c (lstrip s) = occurs c s.
Proof.
  intros Hc. induction s as [|a s IH]; [reflexivity|]. cbn [lstrip].
  destruct (isspace a) eqn:Ha; [|reflexivity]. cbn [occurs]. rewrite IH.
  destruct (Ascii.eqb_spec a c) as [->|]; [congruence|reflexivity].
Qed.

Lemma occurs_rstrip_nonspace (c : ascii) (s : string) :
  isspace c = false -> occurs c (rstrip s) = occurs c s.
Proof.
  intros Hc. induction s as [|a s IH]; [reflexivity|].
  cbn [rstrip occurs]. rewrite <- IH. destruct (rstrip s) as [|d r].
  - destruct (isspace a) eqn:Ha; cbn [occurs]; [|reflexivity].
    destruct (Ascii.eqb_spec a c) as [->|]; [congruence|reflexivity].
  - reflexivity.
Qed.

Lemma occurs_strip_nonspace (c : ascii) (s : string) :
  isspace c = false -> occurs c (strip s) = occurs c s.
Proof.
  intros Hc. unfold strip.
  now rewrite occurs_lstrip_nonspace, occurs_rstrip_nonspace.
Qed.

(** X22. Every element [_comma_separate] returns is an item: it is not
    empty, has no whitespace at either end and holds no comma; there are at
    most as many as the commas of the string plus one. A string without
    comma gives its stripped text alone, or nothing when it is blank. *)
Theorem comma_separate_items :
  forall s : string,
    Forall item (_comma_separate s)
    /\ (length (_comma_separate s) <= length (split "," s))%nat
    /\ (occurs "," s = false ->
        _comma_separate s = if is_empty (strip s) then [] else [strip s]).
Proof.
  intros s. split; [apply _comma_separate_all_items|]. split.
  - unfold _comma_separate. rewrite length_map. apply List.filter_length_le.
  - apply _comma_separate_single.
Qed.

Lemma comma_separate_items_witness :
  _comma_separate "  a b  " = ["a b"].
Proof.
  exact (proj2 (proj2 (comma_separate_items "  a b  ")) eq_refl).
Defined.

(** X23. Round trip of [_comma_separate]: items joined by a comma
    followed by any whitespace are given back as they were, in order. So
    the list [_comma_separate] returns, joined again, is a fixed point. *)
Theorem comma_separate_join :
  forall ws : string,
    all_space ws = true ->
    (forall items : list string,
       Forall item items ->
       _comma_separate (join (String "," ws) items) = items)
    /\ (forall s : string,
          _comma_separate (join (String "," ws) (_comma_separate s))
          = _comma_separate s).
Proof.
  intros ws Hws.
  assert (Hmain : forall items : list string,
             Forall item items ->
             _comma_separate (join (String "," ws) items) = items).
  { induction items as [|x items IH]; intros Hall; [reflexivity|].
    pose proof (List.Forall_inv Hall) as Hx.
    apply List.Forall_inv_tail in Hall. destruct items as [|y r].
    - unfold join. cbn [String.concat].
      rewrite _comma_separate_single by apply Hx. now apply item_single.
    - specialize (IH Hall). unfold join in *.
      change (String.concat (String "," ws) (x :: y :: r))
        with (x +:+ String "," ws +:+ String.concat (String "," ws) (y :: r)).
      rewrite append_cons, _comma_separate_app by apply Hx.
      rewrite _comma_separate_ws by assumption.
      rewrite IH, item_single by assumption. reflexivity. }
  split; [exact Hmain|]. intros s. apply Hmain, _comma_separate_all_items.
Qed.

Lemma comma_separate_join_witness :
  _comma_separate (join ", " ["a"; "b c"; "d"]) = ["a"; "b c"; "d"].
Proof.
  apply (proj1 (comma_separate_join " " eq_refl)).
  repeat (apply List.Forall_cons;
          [split; [discriminate|split; reflexivity]|]).
  apply List.Forall_nil.
Defined.

(** X24. [_comma_separate_path] gives the elements of [_comma_separate]
    that hold no NUL character, in order: the test on the piece before
    stripping and on the stripped element agree, NUL being no whitespace. *)
Theorem comma_separate_path_filter :
  forall s : string,
    _comma_separate_path s
    = List.filter (fun y => negb (occurs NUL y)) (_comma_separate s)
    /\ Forall (fun y => item y /\ occurs NUL y = false)
              (_comma_separate_path s).
Proof.
  intros s.
  assert (Heq : _comma_separate_path s
                = List.filter (fun y => negb (occurs NUL y)) (_comma_separate s)).
  { unfold _comma_separate_path, _comma_separate.
    induction (split "," s) as [|x l IH]; [reflexivity|].
    cbn [List.filter]. destruct (is_empty (strip x)); cbn [negb andb];
      [exact IH|].
    cbn [map List.filter].
    rewrite (occurs_strip_nonspace NUL x eq_refl).
    destruct (occurs NUL x); cbn [negb map]; [exact IH|].
    now rewrite IH. }
  split; [exact Heq|]. rewrite Heq. apply List.Forall_forall. intros y Hy.
  apply List.filter_In in Hy as [Hin Hnul]. split.
  - exact (proj1 (List.Forall_forall _ _) (_comma_separate_all_items s) y Hin).
  - now destruct (occurs NUL y).
Qed.

Lemma existsb_const {A} (b : bool) (l : list A) :
  l <> [] -> existsb (fun _ => b) l = b.
Proof.
  induction l as [|x l IH]; [congruence|]. intros _. cbn [existsb].
  destruct b; [reflexivity|]. destruct l; [reflexivity|].
  apply IH. discriminate.
Qed.

(** X25. [is_exec_available] answers [False] for every name when [PATH]
    is unset or empty. Otherwise it answers [True] exactly when some
    component of [PATH], joined with the name, is an executable file; an
    empty component of a [PATH] that is not empty stands for the name
    itself, and a name that begins
    with a slash is checked as it is, whatever the components are.
    [_verify_command_arguments] accepts no empty argument list. *)
Theorem is_exec_available_spec :
  forall (env : Env) (exec_name : string),
    (getenv env "PATH" = None \/ getenv env "PATH" = Some EmptyString ->
     is_exec_available env exec_name = false)
    /\ (is_exec_available env exec_name = true <->
        exists paths path,
          getenv env "PATH" = Some paths /\ paths <> EmptyString /\
          In path (split ":" paths) /\
          is_exec_file env (path_join path exec_name) = true)
    /\ (forall paths,
          getenv env "PATH" = Some paths -> paths <> EmptyString ->
          In EmptyString (split ":" paths) ->
          is_exec_file env exec_name = true ->
          is_exec_available env exec_name = true)
    /\ (forall paths,
          getenv env "PATH" = Some paths -> paths <> EmptyString ->
          startswith exec_name "/" = true ->
          is_exec_available env exec_name = is_exec_file env exec_name)
    /\ (forall args,
          _verify_command_arguments env args = true ->
          exists arg rest,
            args = arg :: rest /\ is_exec_available env arg = true).
Proof.
  intros env exec_name.
  assert (Hiff : is_exec_available env exec_name = true <->
            exists paths path,
              getenv env "PATH" = Some paths /\ paths <> EmptyString /\
              In path (split ":" paths) /\
              is_exec_file env (path_join path exec_name) = true).
  { unfold is_exec_available.
    destruct (getenv env "PATH") as [paths|].
    - destruct paths as [|c paths]; cbn [is_empty].
      + split; [discriminate|]. intros (? & ? & H & Hne & _).
        injection H as <-. congruence.
      + rewrite List.existsb_exists. split.
        * intros (path & Hin & Hexec). exists (String c paths), path.
          repeat split; [discriminate|assumption|assumption].
        * intros (? & path & H & _ & Hin & Hexec). injection H as <-. eauto.
    - split; [discriminate|]. intros (? & ? & H & _). discriminate. }
  split; [|split; [exact Hiff|split; [|split]]].
  - unfold is_exec_available. now intros [-> | ->].
  - intros paths Hpaths Hne Hin Hexec. apply Hiff. exists paths, EmptyString.
    split; [assumption|]. split; [assumption|].
    split; [assumption|]. unfold path_join.
    destruct (startswith exec_name _); [assumption|]. cbn [is_empty orb].
    exact Hexec.
  - intros paths Hpaths Hne Habs. unfold is_exec_available. rewrite Hpaths.
    destruct paths as [|c paths]; [congruence|]. cbn [is_empty].
    unfold path_join.
    change (String sep EmptyString) with "/"%string. rewrite Habs.
    apply existsb_const, split_nonempty.
  - intros [|arg rest]; cbn [_verify_command_arguments]; [discriminate|eauto].
Qed.

Lemma is_exec_available_spec_witness :
  is_exec_available example_env "sh" = true
  /\ is_exec_available example_env "/bin/sh" = true.
Proof.
  split.
  - apply (proj2 (proj1 (proj2 (is_exec_available_spec example_env "sh")))).
    exists "/usr/bin:/bin::/bin"%string, "/bin"%string.
    split; [reflexivity|]. split; [discriminate|].
    split; [right; left; reflexivity|reflexivity].
  - refine (eq_trans
             (proj1 (proj2 (proj2 (proj2
                (is_exec_available_spec example_env "/bin/sh"))))
                "/usr/bin:/bin::/bin"%string eq_refl _ eq_refl) eq_refl).
    discriminate.
Defined.

Lemma exec_bits (mode : Z) :
  Z.land mode (Z.lor (Z.lor S_IXUSR S_IXGRP) S_IXOTH) =
  (if Z.testbit mode 6 then S_IXUSR else 0)
  + (if Z.testbit mode 3 then S_IXGRP else 0)
  + (if Z.testbit mode 0 then S_IXOTH else 0).
Proof.
  apply Z.bits_inj'. intros n Hn. rewrite Z.land_spec.
  change (Z.lor (Z.lor S_IXUSR S_IXGRP) S_IXOTH) with 73.
  unfold S_IXUSR, S_IXGRP, S_IXOTH.
  assert (Hcases : n = 0 \/ n = 1 \/ n = 2 \/ n = 3 \/ n = 4 \/ n = 5
                   \/ n = 6 \/ 7 <= n) by lia.
  destruct Hcases as [->|[->|[->|[->|[->|[->|[->|Hbig]]]]]]].
  1-7: match goal with
       | |- context [Z.testbit 73 ?k] =>
           let b := eval vm_compute in (Z.testbit 73 k) in
           change (Z.testbit 73 k) with b
       end;
       rewrite ?andb_true_r, ?andb_false_r;
       destruct (Z.testbit mode 6), (Z.testbit mode 3), (Z.testbit mode 0);
       reflexivity.
  rewrite (Z.bits_above_log2 73 n) by (change (Z.log2 73) with 6; lia).
  rewrite andb_false_r. symmetry.
  destruct (Z.testbit mode 6), (Z.testbit mode 3), (Z.testbit mode 0);
    apply Z.bits_above_log2; try lia;
    match goal with
    | |- Z.log2 ?c < _ =>
        let v := eval vm_compute in (Z.log2 c) in
        change (Z.log2 c) with v
    end; lia.
Qed.

Lemma exec_bits_spec (mode : Z) (n : Z) :
  0 <= n ->
  Z.testbit (Z.land mode (Z.lor (Z.lor S_IXUSR S_IXGRP) S_IXOTH)) n
  = Z.testbit mode n && ((n =? 0) || (n =? 3) || (n =? 6)).
Proof.
  intros Hn. rewrite Z.land_spec. f_equal.
  change (Z.lor (Z.lor S_IXUSR S_IXGRP) S_IXOTH) with 73.
  assert (Hcases : n = 0 \/ n = 1 \/ n = 2 \/ n = 3 \/ n = 4 \/ n = 5
                   \/ n = 6 \/ 7 <= n) by lia.
  destruct Hcases as [->|[->|[->|[->|[->|[->|[->|Hbig]]]]]]];
    try reflexivity.
  rewrite (Z.bits_above_log2 73 n) by (change (Z.log2 73) with 6; lia).
  symmetry. apply orb_false_iff. split; [apply orb_false_iff; split|];
    apply Z.eqb_neq; lia.
Qed.

(** X26. [_verify_executable_arguments] returns [False] when there is no
    argument, when the first argument is no regular file and when its mode
    cannot be read. Otherwise it returns an integer, never [True]: the
    mode of the first argument with every bit cleared but the execution
    bits of the owner (0o100), of the group (0o010) and of the others
    (0o001), so 73 for a mode 0o755. That integer is true exactly when the
    mode has one of the three bits. *)
Theorem verify_executable_arguments_spec :
  forall (env : Env) (args : list string),
    (args = [] -> _verify_executable_arguments env args = VBool false)
    /\ (forall exe rest,
          args = exe :: rest ->
          (isfile env exe = false \/ st_mode env exe = None ->
           _verify_executable_arguments env args = VBool false)
          /\ (forall mode,
                isfile env exe = true -> st_mode env exe = Some mode ->
                exists bits,
                  _verify_executable_arguments env args = VInt bits /\
                  bits = (if Z.testbit mode 6 then S_IXUSR else 0)
                         + (if Z.testbit mode 3 then S_IXGRP else 0)
                         + (if Z.testbit mode 0 then S_IXOTH else 0) /\
                  (forall n, 0 <= n ->
                     Z.testbit bits n
                     = Z.testbit mode n && ((n =? 0) || (n =? 3) || (n =? 6))) /\
                  (truth (VInt bits) = true <->
                   Z.testbit mode 6 || Z.testbit mode 3 || Z.testbit mode 0
                   = true))).
Proof.
  intros env args. split; [intros ->; reflexivity|].
  intros exe rest ->. cbn [_verify_executable_arguments]. split.
  - intros [-> | Hmode]; [reflexivity|].
    destruct (isfile env exe); cbn [negb]; [|reflexivity]. now rewrite Hmode.
  - intros mode -> ->. cbn [negb]. eexists. split; [reflexivity|].
    split; [apply exec_bits|]. split; [intros n Hn; now apply exec_bits_spec|].
    rewrite exec_bits. unfold S_IXUSR, S_IXGRP, S_IXOTH. cbn [truth].
    destruct (Z.testbit mode 6), (Z.testbit mode 3), (Z.testbit mode 0);
      vm_compute; split; congruence.
Qed.

Lemma verify_executable_arguments_spec_witness :
  _verify_executable_arguments example_env ["/bin/sh"; "-c"] = VInt 73
  /\ _verify_executable_arguments example_env ["/etc/motd"] = VInt 0.
Proof.
  split.
  - destruct (proj2 (proj2 (verify_executable_arguments_spec example_env
                              ["/bin/sh"; "-c"]) "/bin/sh" ["-c"] eq_refl)
                33261 eq_refl eq_refl) as (bits & -> & -> & _).
    reflexivity.
  - destruct (proj2 (proj2 (verify_executable_arguments_spec example_env
                              ["/etc/motd"]) "/etc/motd" [] eq_refl)
                33188 eq_refl eq_refl) as (bits & -> & -> & _).
    reflexivity.
Defined.

End SkelProperties.
